(** * LiDAR receiver: a shallow embedding of the ingestion pipeline

    The development follows the TypeScript sources of the receiver:
    the scan model ([models/lidar-scan.ts]), the bounded buffer
    ([processing/buffer-manager.ts]), the blob writer
    ([storage/file-writer.ts]), the metadata store
    ([storage/database.ts]), the processor
    ([processing/lidar-processor.ts]), the authentication gate
    ([server/auth.ts]) and the socket server ([server/websocket.ts]).

    JavaScript numbers that the code uses as counters, byte totals and
    millisecond timestamps are integers of [Z]; objects that the code
    mutates in place are threaded explicitly, and the one object that is
    shared between a closure and a map (the connection record) lives in
    an explicit store. *)

From Stdlib Require Import ZArith QArith Ascii String List Lia Bool.
From Stdlib Require Import DecimalString.
From stdpp Require Import base strings gmap list sorting.

Local Open Scope Z_scope.

(** ** Decoded values *)

(** What the MessagePack decoder can hand to the server: the code tests
    such values with [typeof], truthiness and property reads only. *)
Module JS.

#[warnings="-register-all"]
Inductive JsVal : Type :=
| JUndefined
| JNull
| JBool (b : bool)
| JNum (q : Q)
| JStr (s : string)
| JArr (items : list JsVal)
| JObj (fields : list (string * JsVal)).

Inductive JsType : Set :=
| TUndefined | TObject | TBoolean | TNumber | TString.

(** [typeof v] *)
Definition typeof (v : JsVal) : JsType :=
  match v with
  | JUndefined => TUndefined
  | JNull => TObject
  | JBool _ => TBoolean
  | JNum _ => TNumber
  | JStr _ => TString
  | JArr _ => TObject
  | JObj _ => TObject
  end.

Definition is_number (v : JsVal) : bool :=
  match typeof v with TNumber => true | _ => false end.

(** First binding of [key] in an object literal's field list. *)
Fixpoint lookup_field (key : string) (fields : list (string * JsVal)) : JsVal :=
  match fields with
  | [] => JUndefined
  | (k, v) :: rest => if String.eqb k key then v else lookup_field key rest
  end.

(** [v.key] for a named (non-index, non-[length]) key: reading a
    property of [undefined] or [null] throws a TypeError ([None]);
    primitives and arrays have no such own property. *)
Definition get_prop (v : JsVal) (key : string) : option JsVal :=
  match v with
  | JUndefined | JNull => None
  | JObj fields => Some (lookup_field key fields)
  | _ => Some JUndefined
  end.

(** Truthiness of a string-or-undefined value: [undefined] and the
    empty string are falsy. *)
Definition truthy_str (s : string) : bool := negb (String.eqb s "").

Definition truthy_opt (o : option string) : bool :=
  match o with
  | Some s => truthy_str s
  | None => false
  end.

(** [a || b] on string-or-undefined operands. *)
Definition or_else (a b : option string) : option string :=
  if truthy_opt a then a else b.

End JS.

(** ** Data model ([models/lidar-scan.ts]) *)
Module Models.
Import JS.

(** [interface LiDARScan].  The scalar fields carry their declared
    types; a missing string field is the empty string and a missing
    timestamp is [0], the values on which the guards [!scan.scanId],
    [!scan.deviceId] and [!scan.timestamp] fire in the same way.  The
    elements of [points] are whatever the decoder produced: nothing
    checks them against [LiDARPoint] before [validateScan]. *)
Record LiDARScan := mkScan {
  scanId : string;
  sessionId : string;
  deviceId : string;
  timestamp : Z;
  points : list JsVal;
  metadata : JsVal
}.

(** [interface ScanMetadata].  The surrogate [id] and the wall-clock
    [createdAt] stamp of both tables are written once and read by no
    statement of the store; they are left out of the rows. *)
Record ScanMetadata := mkScanMetadata {
  md_scanId : string;
  md_sessionId : string;
  md_deviceId : string;
  md_timestamp : Z;
  md_filePath : string;
  md_sizeBytes : Z;
  md_pointCount : Z
}.

(** [interface SessionMetadata]; [endTime] is nullable in the table. *)
Record SessionMetadata := mkSession {
  ss_sessionId : string;
  ss_deviceId : string;
  ss_startTime : Z;
  ss_endTime : option Z;
  ss_scanCount : Z;
  ss_totalPoints : Z;
  ss_totalSizeBytes : Z
}.

(** [interface AckMessage] as the server fills it. *)
Record AckMessage := mkAck {
  ack_scanId : string;
  ack_received : Z;
  ack_stored : bool
}.

(** [interface WSMessage]: the three envelopes the server sends. *)
Inductive WSMessage : Type :=
| Welcome (deviceId : string) (serverTime : Z)
| Ack (data : AckMessage)
| Error (error : string).

End Models.

(** ** Bounded buffer ([processing/buffer-manager.ts]) *)
Module Buffer.
Import JS Models.

Record Stats := mkStats {
  received : Z;
  processed : Z;
  dropped : Z;
  peakQueueSize : Z;
  peakMemoryBytes : Z
}.

Record BufferManager := mkBuffer {
  queue : list LiDARScan;
  maxQueueSize : Z;
  maxMemoryBytes : Z;
  currentMemoryBytes : Z;
  stats : Stats
}.

(** What an [enqueue] makes observable besides its result: the events
    it emits and the warning it logs. *)
Inductive Signal : Type :=
| Warn (message : string)
| EmitOverflow (scan : LiDARScan)
| EmitDropped (count : Z)
| EmitBackpressure (level : Q).

Definition zeroStats : Stats := mkStats 0 0 0 0 0.

(** The state the constructor leaves, for a byte bound given directly. *)
Definition init (maxQueueSize maxMemoryBytes : Z) : BufferManager :=
  mkBuffer [] maxQueueSize maxMemoryBytes 0 zeroStats.

(** [new BufferManager(maxQueueSize, maxMemoryMB)] *)
Definition new (maxQueueSize maxMemoryMB : Z) : BufferManager :=
  init maxQueueSize (maxMemoryMB * 1024 * 1024).

(** [estimateScanSize] *)
Definition estimateScanSize (scan : LiDARScan) : Z :=
  let pointsSize := Z.of_nat (length (points scan)) * 20 in
  let metadataSize := 1000 in
  pointsSize + metadataSize.

(** [size()] *)
Definition size (b : BufferManager) : Z := Z.of_nat (length (queue b)).

(** [isEmpty()] *)
Definition isEmpty (b : BufferManager) : bool := size b =? 0.

Definition count_received (b : BufferManager) : BufferManager :=
  let s := stats b in
  mkBuffer (queue b) (maxQueueSize b) (maxMemoryBytes b) (currentMemoryBytes b)
    (mkStats (received s + 1) (processed s) (dropped s)
             (peakQueueSize s) (peakMemoryBytes s)).

Definition count_dropped (b : BufferManager) : BufferManager :=
  let s := stats b in
  mkBuffer (queue b) (maxQueueSize b) (maxMemoryBytes b) (currentMemoryBytes b)
    (mkStats (received s) (processed s) (dropped s + 1)
             (peakQueueSize s) (peakMemoryBytes s)).

Definition count_processed (s : Stats) : Stats :=
  mkStats (received s) (processed s + 1) (dropped s)
          (peakQueueSize s) (peakMemoryBytes s).

(** [queue.push(scan); currentMemoryBytes += estimatedSize] followed by
    the two peak updates. *)
Definition push_scan (scan : LiDARScan) (estimatedSize : Z) (b : BufferManager)
  : BufferManager :=
  let q := queue b ++ [scan] in
  let mem := currentMemoryBytes b + estimatedSize in
  let s := stats b in
  let len := Z.of_nat (length q) in
  let peakQ := if len >? peakQueueSize s then len else peakQueueSize s in
  let peakM := if mem >? peakMemoryBytes s then mem else peakMemoryBytes s in
  mkBuffer q (maxQueueSize b) (maxMemoryBytes b) mem
    (mkStats (received s) (processed s) (dropped s) peakQ peakM).

(** [queue.length / maxQueueSize]; the division is reached only after
    [queue.length >= maxQueueSize] failed on a non-empty queue, that is
    with a positive divisor. *)
Definition fillLevel (b : BufferManager) : Q :=
  Qmake (size b) (Z.to_pos (maxQueueSize b)).

(** [enqueue(scan)]: the new state, the returned boolean, the signals. *)
Definition enqueue (scan : LiDARScan) (b0 : BufferManager)
  : BufferManager * bool * list Signal :=
  let b := count_received b0 in
  let estimatedSize := estimateScanSize scan in
  if currentMemoryBytes b + estimatedSize >? maxMemoryBytes b then
    let b := count_dropped b in
    (b, false,
     [Warn "Memory limit reached, dropping scan";
      EmitOverflow scan; EmitDropped (dropped (stats b))])
  else if size b >=? maxQueueSize b then
    let b := count_dropped b in
    (b, false,
     [Warn "Queue size limit reached, dropping scan";
      EmitOverflow scan; EmitDropped (dropped (stats b))])
  else
    let b := push_scan scan estimatedSize b in
    let level := fillLevel b in
    (b, true,
     if Qle_bool (3 # 4) level
     then [EmitBackpressure level; Warn "Queue backpressure detected"]
     else []).

(** [dequeue()]: [queue.shift()], and for a scan the release of its
    estimate, recomputed from the scan and clamped at zero. *)
Definition dequeue (b : BufferManager) : BufferManager * option LiDARScan :=
  match queue b with
  | [] => (b, None)
  | scan :: rest =>
      let estimatedSize := estimateScanSize scan in
      (mkBuffer rest (maxQueueSize b) (maxMemoryBytes b)
         (Z.max 0 (currentMemoryBytes b - estimatedSize))
         (count_processed (stats b)),
       Some scan)
  end.

(** [clear()] *)
Definition clear (b : BufferManager) : BufferManager :=
  mkBuffer [] (maxQueueSize b) (maxMemoryBytes b) 0 (stats b).

(** [drain()] run to exhaustion by a consumer that does nothing else:
    [while (!isEmpty()) { scan = dequeue(); if (scan) yield scan; }].
    [None] when the iteration budget is used up before the queue is
    empty. *)
Fixpoint drain_loop (budget : nat) (b : BufferManager)
  : option (BufferManager * list LiDARScan) :=
  if isEmpty b then Some (b, [])
  else
    match budget with
    | O => None
    | S budget' =>
        let '(b1, o) := dequeue b in
        match drain_loop budget' b1 with
        | Some (b2, rest) =>
            Some (b2, match o with Some scan => scan :: rest | None => rest end)
        | None => None
        end
    end.

Definition drain (b : BufferManager) : option (BufferManager * list LiDARScan) :=
  drain_loop (length (queue b)) b.

(** The public mutators, as one alphabet of calls. *)
Inductive Call : Type :=
| CallEnqueue (scan : LiDARScan)
| CallDequeue
| CallDrain
| CallClear.

Definition call (b : BufferManager) (c : Call) : BufferManager :=
  match c with
  | CallEnqueue scan => fst (fst (enqueue scan b))
  | CallDequeue => fst (dequeue b)
  | CallDrain => match drain b with Some (b', _) => b' | None => b end
  | CallClear => clear b
  end.

Definition calls (b : BufferManager) (cs : list Call) : BufferManager :=
  fold_left call cs b.

(** Sum of the estimates of the queued scans. *)
Definition queuedBytes (q : list LiDARScan) : Z :=
  fold_right (fun scan acc => estimateScanSize scan + acc) 0 q.

End Buffer.

(** ** Blob store ([storage/file-writer.ts]) *)
Module FileStore.
Import JS Models.

(** The calendar fields [new Date(timestamp)] reports in the local
    time zone of the process. *)
Record LocalDate := mkLocalDate {
  getFullYear : Z;
  getMonth : Z;
  getDate : Z;
  getHours : Z
}.

(** What the file writer takes from the platform: the local calendar,
    the MessagePack encoder, and whether the operating system refuses
    to create a directory or to write a file. *)
Record Platform := mkPlatform {
  localDate : Z -> LocalDate;
  encode : LiDARScan -> list Byte.byte;
  mkdirFails : string -> bool;
  writeFails : string -> bool
}.

(** [String(n)] for an integer. *)
Definition String_of (n : Z) : string := NilZero.string_of_int (Z.to_int n).

(** [s.padStart(2, '0')] *)
Definition padStart2 (s : string) : string :=
  match String.length s with
  | O => "00"
  | S O => ("0" ++ s)%string
  | _ => s
  end.

(** *** [path.join] and [path.normalize] (POSIX) *)

(** The segments of a path between its separators. *)
Fixpoint segments (path : string) : list string :=
  match path with
  | EmptyString => [EmptyString]
  | String c rest =>
      if Ascii.eqb c "/" then EmptyString :: segments rest
      else match segments rest with
           | seg :: more => String c seg :: more
           | [] => [String c EmptyString]
           end
  end.

(** [segs.join('/')] *)
Fixpoint unsegments (segs : list string) : string :=
  match segs with
  | [] => EmptyString
  | seg :: rest =>
      match rest with
      | [] => seg
      | _ => String.append seg (String "/" (unsegments rest))
      end
  end.

(** One round of [normalizeString] at a separator.  [res] holds the
    segments kept so far, the last one first.  An empty segment and
    [.] are skipped; [..] removes the last kept segment, unless there is
    none or it is [..] itself, in which case [..] is kept when the path
    is relative and skipped when it is absolute; any other segment is
    kept. *)
Definition normalizeStep (allowAboveRoot : bool) (res : list string) (seg : string)
  : list string :=
  if String.eqb seg "" || String.eqb seg "." then res
  else if String.eqb seg ".." then
    match res with
    | last :: kept =>
        if String.eqb last ".." then (if allowAboveRoot then ".."%string :: res else res)
        else kept
    | [] => if allowAboveRoot then [".."%string] else []
    end
  else seg :: res.

Definition normalizeString (path : string) (allowAboveRoot : bool) : string :=
  unsegments (rev (fold_left (normalizeStep allowAboveRoot) (segments path) [])).

(** [path.charCodeAt(0) === CHAR_FORWARD_SLASH] *)
Definition startsWithSlash (path : string) : bool :=
  match path with
  | String c _ => Ascii.eqb c "/"
  | EmptyString => false
  end.

(** [path.charCodeAt(path.length - 1) === CHAR_FORWARD_SLASH] *)
Fixpoint endsWithSlash (path : string) : bool :=
  match path with
  | EmptyString => false
  | String c rest =>
      match rest with
      | EmptyString => Ascii.eqb c "/"
      | _ => endsWithSlash rest
      end
  end.

(** [path.normalize(path)] *)
Definition normalize (path : string) : string :=
  if String.eqb path "" then "."%string
  else
    let isAbsolute := startsWithSlash path in
    let trailingSeparator := endsWithSlash path in
    let path := normalizeString path (negb isAbsolute) in
    if String.eqb path "" then
      if isAbsolute then "/"%string
      else if trailingSeparator then "./"%string else "."%string
    else
      let path := if trailingSeparator then String.append path "/" else path in
      if isAbsolute then String.append "/" path else path.

(** [path.join(...args)]: the arguments that are not empty, joined by
    the separator and normalised. *)
Definition joinAll (args : list string) : string :=
  match List.filter (fun arg => negb (String.eqb arg "")) args with
  | [] => "."%string
  | parts => normalize (unsegments parts)
  end.

Definition join (a b : string) : string := joinAll [a; b].

(** [getDatePath]: [YYYY/MM/DD/HH] *)
Definition getDatePath (pf : Platform) (timestamp : Z) : string :=
  let date := localDate pf timestamp in
  let year := getFullYear date in
  let month := padStart2 (String_of (getMonth date + 1)) in
  let day := padStart2 (String_of (getDate date)) in
  let hour := padStart2 (String_of (getHours date)) in
  joinAll [String_of year; month; day; hour].

Record FileWriter := mkFileWriter {
  baseDir : string;
  dirs : gset string;
  files : gmap string (list Byte.byte)
}.

(** [writeScan(scan)]: the writer afterwards and, unless a file-system
    call threw ([None]), the relative path and the byte length. *)
Definition writeScan (pf : Platform) (scan : LiDARScan) (fw : FileWriter)
  : FileWriter * option (string * Z) :=
  let datePath := getDatePath pf (timestamp scan) in
  let dirPath := join (baseDir fw) datePath in
  let fileName := (scanId scan ++ ".msgpack")%string in
  let fullPath := join dirPath fileName in
  if mkdirFails pf dirPath then (fw, None)
  else
    let fw := mkFileWriter (baseDir fw) ({[dirPath]} ∪ dirs fw) (files fw) in
    let buffer := encode pf scan in
    if writeFails pf fullPath then (fw, None)
    else
      let fw := mkFileWriter (baseDir fw) (dirs fw) (<[fullPath := buffer]> (files fw)) in
      let relativePath := join datePath fileName in
      (fw, Some (relativePath, Z.of_nat (length buffer))).

(** [writeBatch(scans)]: every scan is attempted in order; a scan whose
    write throws is logged and skipped, the others contribute their
    result. *)
Fixpoint writeBatch (pf : Platform) (scans : list LiDARScan) (fw : FileWriter)
  : FileWriter * list (string * Z) :=
  match scans with
  | [] => (fw, [])
  | scan :: rest =>
      match writeScan pf scan fw with
      | (fw1, Some result) =>
          let '(fw2, results) := writeBatch pf rest fw1 in
          (fw2, result :: results)
      | (fw1, None) => writeBatch pf rest fw1
      end
  end.

End FileStore.

(** ** Metadata store ([storage/database.ts]) *)
Module Database.
Import Models.

(** The two tables, each keyed by its [UNIQUE] column. *)
Record ScanDatabase := mkDb {
  sessions : gmap string SessionMetadata;
  scans : gmap string ScanMetadata
}.

Definition empty : ScanDatabase := mkDb ∅ ∅.

(** [insertSessionStmt]: [INSERT ... VALUES (?, ?, ?, 0, 0, 0, ?)
    ON CONFLICT(sessionId) DO NOTHING]; [endTime] stays [NULL]. *)
Definition insertSession (sessionId deviceId : string) (startTime : Z)
    (t : gmap string SessionMetadata) : gmap string SessionMetadata :=
  match t !! sessionId with
  | Some _ => t
  | None => <[sessionId := mkSession sessionId deviceId startTime None 0 0 0]> t
  end.

(** The [SET] clause of [updateSessionStmt]. *)
Definition updateSessionRow (pointCount sizeBytes timestamp : Z)
    (row : SessionMetadata) : SessionMetadata :=
  mkSession (ss_sessionId row) (ss_deviceId row) (ss_startTime row)
    (Some timestamp)
    (ss_scanCount row + 1)
    (ss_totalPoints row + pointCount)
    (ss_totalSizeBytes row + sizeBytes).

(** [updateSessionStmt]: [UPDATE sessions SET ... WHERE sessionId = ?] *)
Definition updateSession (pointCount sizeBytes timestamp : Z) (sessionId : string)
    (t : gmap string SessionMetadata) : gmap string SessionMetadata :=
  alter (updateSessionRow pointCount sizeBytes timestamp) sessionId t.

(** [insertScan(scan)]: the three statements in order, outside any
    transaction; [false] when the scan insert hits the [UNIQUE(scanId)]
    constraint and the method rethrows. *)
Definition insertScan (scan : ScanMetadata) (db : ScanDatabase)
  : ScanDatabase * bool :=
  let sessions1 :=
    insertSession (md_sessionId scan) (md_deviceId scan) (md_timestamp scan)
      (sessions db) in
  match scans db !! md_scanId scan with
  | Some _ => (mkDb sessions1 (scans db), false)
  | None =>
      let scans1 := <[md_scanId scan := scan]> (scans db) in
      let sessions2 :=
        updateSession (md_pointCount scan) (md_sizeBytes scan)
          (md_timestamp scan) (md_sessionId scan) sessions1 in
      (mkDb sessions2 scans1, true)
  end.

(** [getSession(sessionId)] *)
Definition getSession (sessionId : string) (db : ScanDatabase)
  : option SessionMetadata :=
  sessions db !! sessionId.

(** The [endTime] column of a session, [None] for no row or [NULL]. *)
Definition endTimeOf (sessionId : string) (db : ScanDatabase) : option Z :=
  match getSession sessionId db with
  | Some row => ss_endTime row
  | None => None
  end.

(** [checkpoint()]: merges the write-ahead log; the tables are unchanged. *)
Definition checkpoint (db : ScanDatabase) : ScanDatabase := db.

(** The rows of the [scans] table. *)
Definition scanRows (db : ScanDatabase) : list ScanMetadata :=
  (map_to_list (scans db)).*2.

(** [ORDER BY timestamp ASC] *)
Definition byTimestamp (a b : ScanMetadata) : Prop :=
  md_timestamp a <= md_timestamp b.

#[export] Instance byTimestamp_dec : RelDecision byTimestamp :=
  fun a b => decide (md_timestamp a <= md_timestamp b).

(** [getScansBySession(sessionId)]: [WHERE sessionId = ? ORDER BY
    timestamp ASC]. *)
Definition getScansBySession (sessionId : string) (db : ScanDatabase)
  : list ScanMetadata :=
  merge_sort byTimestamp
    (filter (fun row => md_sessionId row = sessionId) (scanRows db)).

(** [getScansByTimeRange(startTime, endTime)]: [WHERE timestamp >= ? AND
    timestamp <= ? ORDER BY timestamp ASC]. *)
Definition getScansByTimeRange (startTime endTime : Z) (db : ScanDatabase)
  : list ScanMetadata :=
  merge_sort byTimestamp
    (filter (fun row => startTime <= md_timestamp row /\ md_timestamp row <= endTime)
       (scanRows db)).

(** [deleteOldScans(beforeTimestamp)]: [DELETE FROM scans WHERE
    timestamp < ?].  The [sessions] table is not touched.  The number of
    rows removed is a field of what [stmt.run] returns, which the method
    drops; what it returns instead is the [changes] property read from
    the [bun:sqlite] database handle, which has no such property, so the
    read yields [undefined]. *)
Definition deleteOldScans (beforeTimestamp : Z) (db : ScanDatabase)
  : ScanDatabase * JS.JsVal :=
  let kept := filter (fun kv => ~ md_timestamp kv.2 < beforeTimestamp) (scans db) in
  (mkDb (sessions db) kept, JS.JUndefined).

End Database.

(** ** Processor ([processing/lidar-processor.ts]) *)
Module Processor.
Import JS Models.
Import FileStore.

Record Stats := mkStats {
  received : Z;
  processed : Z;
  failed : Z;
  startTime : Z
}.

(** A handle returned by [setInterval]. *)
Record Timer := mkTimer { intervalMs : Z }.

Record LiDARProcessor := mkProcessor {
  buffer : Buffer.BufferManager;
  fileWriter : FileWriter;
  db : Database.ScanDatabase;
  processingInterval : option Timer;
  isShuttingDown : bool;
  stats : Stats
}.

(** The constructor; [now] is the [Date.now()] of the field initialiser. *)
Definition new (buffer : Buffer.BufferManager) (fileWriter : FileWriter)
    (db : Database.ScanDatabase) (now : Z) : LiDARProcessor :=
  mkProcessor buffer fileWriter db None false (mkStats 0 0 0 now).

Definition with_buffer (b : Buffer.BufferManager) (p : LiDARProcessor) : LiDARProcessor :=
  mkProcessor b (fileWriter p) (db p) (processingInterval p) (isShuttingDown p) (stats p).

Definition with_stats (s : Stats) (p : LiDARProcessor) : LiDARProcessor :=
  mkProcessor (buffer p) (fileWriter p) (db p) (processingInterval p) (isShuttingDown p) s.

Definition count_received (s : Stats) : Stats :=
  mkStats (received s + 1) (processed s) (failed s) (startTime s).

Definition count_processed (s : Stats) : Stats :=
  mkStats (received s) (processed s + 1) (failed s) (startTime s).

Definition count_failed (s : Stats) : Stats :=
  mkStats (received s) (processed s) (failed s + 1) (startTime s).

(** [start()] *)
Definition start (PROCESSING_INTERVAL_MS now : Z) (p : LiDARProcessor) : LiDARProcessor :=
  match processingInterval p with
  | Some _ => p
  | None =>
      mkProcessor (buffer p) (fileWriter p) (db p)
        (Some (mkTimer PROCESSING_INTERVAL_MS)) (isShuttingDown p)
        (mkStats (received (stats p)) (processed (stats p)) (failed (stats p)) now)
  end.

(** [stop()] *)
Definition stop (p : LiDARProcessor) : LiDARProcessor :=
  match processingInterval p with
  | Some _ =>
      mkProcessor (buffer p) (fileWriter p) (db p) None (isShuttingDown p) (stats p)
  | None => p
  end.

(** [validateScan(scan)]; [None] is the TypeError of reading [.x] on a
    first point that is [null] or [undefined].  [Array.isArray] holds of
    [points] by its type. *)
Definition validateScan (scan : LiDARScan) : option bool :=
  if negb (truthy_str (scanId scan)) || negb (truthy_str (sessionId scan))
     || negb (truthy_str (deviceId scan))
  then Some false
  else if (timestamp scan =? 0) || (timestamp scan <=? 0)
  then Some false
  else if (length (points scan) =? 0)%nat
  then Some false
  else
    match points scan with
    | firstPoint :: _ =>
        match get_prop firstPoint "x", get_prop firstPoint "y", get_prop firstPoint "z" with
        | Some x, Some y, Some z =>
            if negb (is_number x) || negb (is_number y) || negb (is_number z)
            then Some false
            else Some true
        | _, _, _ => None
        end
    | [] => Some true
    end.

(** [submit(scan)]; [None] when validation throws, which happens before
    any field of the processor is written. *)
Definition submit (scan : LiDARScan) (p : LiDARProcessor)
  : option (LiDARProcessor * bool) :=
  match validateScan scan with
  | None => None
  | Some false => Some (p, false)
  | Some true =>
      let p := with_stats (count_received (stats p)) p in
      let '(b, enqueued, _) := Buffer.enqueue scan (buffer p) in
      let p := with_buffer b p in
      let p := if enqueued then p else with_stats (count_failed (stats p)) p in
      Some (p, enqueued)
  end.

(** The metadata record built after a successful blob write. *)
Definition metadataOf (scan : LiDARScan) (filePath : string) (sizeBytes : Z)
  : ScanMetadata :=
  mkScanMetadata (scanId scan) (sessionId scan) (deviceId scan) (timestamp scan)
    filePath sizeBytes (Z.of_nat (length (points scan))).

(** The [try] block of [processNext] for one dequeued scan: blob write,
    then metadata insert; either failure lands in the [catch]. *)
Definition processScan (pf : Platform) (scan : LiDARScan) (p : LiDARProcessor)
  : LiDARProcessor :=
  match writeScan pf scan (fileWriter p) with
  | (fw, Some (filePath, sizeBytes)) =>
      let metadata := metadataOf scan filePath sizeBytes in
      let '(db', ok) := Database.insertScan metadata (db p) in
      mkProcessor (buffer p) fw db' (processingInterval p) (isShuttingDown p)
        (if ok then count_processed (stats p) else count_failed (stats p))
  | (fw, None) =>
      mkProcessor (buffer p) fw (db p) (processingInterval p) (isShuttingDown p)
        (count_failed (stats p))
  end.

(** [processNext()].  The awaited [writeScan] has a synchronous body, so
    the continuation runs before any other task of the event loop. *)
Definition processNext (pf : Platform) (p : LiDARProcessor) : LiDARProcessor :=
  if isShuttingDown p then p
  else
    match Buffer.dequeue (buffer p) with
    | (_, None) => p
    | (b, Some scan) => processScan pf scan (with_buffer b p)
    end.

(** The callback armed by [start()]: one firing of the interval timer. *)
Definition tick (pf : Platform) (p : LiDARProcessor) : LiDARProcessor :=
  match processingInterval p with
  | Some _ => processNext pf p
  | None => p
  end.

(** [for await (const scan of this.buffer.drain()) { await this.processNext(); }]:
    each round resumes the generator (emptiness test, [dequeue], [yield])
    and then runs the loop body, which does not use the yielded scan.
    [None] when the budget is used up before the generator returns. *)
Fixpoint drainRounds (pf : Platform) (budget : nat) (p : LiDARProcessor)
  : option LiDARProcessor :=
  if Buffer.isEmpty (buffer p) then Some p
  else
    match budget with
    | O => None
    | S budget' =>
        match Buffer.dequeue (buffer p) with
        | (b, Some _) => drainRounds pf budget' (processNext pf (with_buffer b p))
        | (b, None) => drainRounds pf budget' (with_buffer b p)
        end
    end.

(** [shutdown()] *)
Definition shutdown (pf : Platform) (p : LiDARProcessor) : option LiDARProcessor :=
  let p := mkProcessor (buffer p) (fileWriter p) (db p) (processingInterval p)
             true (stats p) in
  let p := stop p in
  let remaining := Buffer.size (buffer p) in
  let drained :=
    if remaining >? 0
    then drainRounds pf (length (Buffer.queue (buffer p))) p
    else Some p in
  match drained with
  | Some p =>
      Some (mkProcessor (buffer p) (fileWriter p) (Database.checkpoint (db p))
              (processingInterval p) (isShuttingDown p) (stats p))
  | None => None
  end.

(** The processing path the shutdown comment promises for each queued
    scan, run over a list of scans: the reference against which
    [shutdown] is compared. *)
Definition processAll (pf : Platform) (scans : list LiDARScan) (p : LiDARProcessor)
  : LiDARProcessor :=
  fold_left (fun p scan => processScan pf scan p) scans p.

End Processor.

(** ** Authentication gate ([server/auth.ts]) *)
Module Auth.
Import JS.

(** The part of [IncomingMessage] the gate reads: the key/value pairs
    that [new URL(url, base).searchParams] enumerates ([None] when the
    URL constructor throws) and the header table. *)
Record IncomingMessage := mkRequest {
  searchParams : option (list (string * string));
  headers : gmap string string
}.

Record AuthResult := mkAuthResult {
  authenticated : bool;
  deviceId : option string;
  error : option string
}.

(** [parseQueryString]: every pair is [params.set(key, value)], so a
    repeated key keeps its last value; a URL that does not parse gives
    the empty map. *)
Definition parseQueryString (request : IncomingMessage) : gmap string string :=
  match searchParams request with
  | Some pairs => fold_left (fun params kv => <[kv.1 := kv.2]> params) pairs ∅
  | None => ∅
  end.

(** The credential the gate compares with the secret. *)
Definition apiKeyOf (request : IncomingMessage) : option string :=
  let query := parseQueryString request in
  let apiKeyFromQuery := or_else (query !! "apiKey") (query !! "api_key") in
  let apiKeyFromHeader := headers request !! "x-api-key" in
  or_else apiKeyFromQuery apiKeyFromHeader.

(** The device identifier the gate reports. *)
Definition deviceIdOf (request : IncomingMessage) : option string :=
  let query := parseQueryString request in
  let deviceIdFromHeader := headers request !! "x-device-id" in
  let deviceIdFromQuery := or_else (query !! "deviceId") (query !! "device_id") in
  or_else deviceIdFromHeader deviceIdFromQuery.

(** [authenticateConnection(request)] against the configured [API_KEY]. *)
Definition authenticateConnection (API_KEY : string) (request : IncomingMessage)
  : AuthResult :=
  let apiKey := apiKeyOf request in
  let deviceId := deviceIdOf request in
  if negb (truthy_opt apiKey) then
    mkAuthResult false None (Some "Missing API key")
  else if negb (bool_decide (apiKey = Some API_KEY)) then
    mkAuthResult false None (Some "Invalid API key")
  else if negb (truthy_opt deviceId) then
    mkAuthResult false None (Some "Missing device ID")
  else
    mkAuthResult true deviceId None.

End Auth.

(** ** Socket server ([server/websocket.ts]) *)
Module Server.
Import JS Models.

Inductive ReadyState : Set := CONNECTING | OPEN | CLOSING | CLOSED.

(** A [WebSocket] of the transport: its state and what was sent on it. *)
Record Socket := mkSocket {
  readyState : ReadyState;
  sent : list WSMessage
}.

(** [interface Client]; [ws] names a socket of the transport. *)
Record Client := mkClient {
  ws : nat;
  deviceId : string;
  connectedAt : Z;
  scansReceived : Z;
  lastScanAt : Z
}.

(** An element of the list [getClients()] returns. *)
Record ClientInfo := mkClientInfo {
  ci_deviceId : string;
  ci_connectedAt : Z;
  ci_scansReceived : Z;
  ci_lastScanAt : Z
}.

(** The server with everything its handlers reach.  A [Client] object
    is referenced both by the [clients] map and by the closures of its
    socket's handlers, so the objects live in [objects] and are named by
    their index there. *)
Record LiDARWebSocketServer := mkServer {
  processor : Processor.LiDARProcessor;
  clients : gmap string nat;
  objects : list Client;
  sockets : gmap nat Socket
}.

Definition with_sockets (s : gmap nat Socket) (srv : LiDARWebSocketServer) :=
  mkServer (processor srv) (clients srv) (objects srv) s.

(** [sendMessage(ws, message)] *)
Definition sendMessage (w : nat) (message : WSMessage) (srv : LiDARWebSocketServer)
  : LiDARWebSocketServer :=
  match sockets srv !! w with
  | Some sock =>
      match readyState sock with
      | OPEN =>
          with_sockets
            (<[w := mkSocket (readyState sock) (sent sock ++ [message])]> (sockets srv))
            srv
      | _ => srv
      end
  | None => srv
  end.

(** [sendError(ws, error)] *)
Definition sendError (w : nat) (error : string) (srv : LiDARWebSocketServer)
  : LiDARWebSocketServer :=
  sendMessage w (Error error) srv.

(** [handleConnection(ws, request)] with the [deviceId] that
    [verifyClient] stored in the request: the new server and the
    reference of the [Client] object the socket's handlers close over. *)
Definition handleConnection (w : nat) (deviceId : string) (now : Z)
    (srv : LiDARWebSocketServer) : LiDARWebSocketServer * nat :=
  let client := mkClient w deviceId now 0 0 in
  let ref := length (objects srv) in
  let srv := mkServer (processor srv) (<[deviceId := ref]> (clients srv))
               (objects srv ++ [client]) (sockets srv) in
  (sendMessage w (Welcome deviceId now) srv, ref).

(** [client.scansReceived++; client.lastScanAt = receiveTime] *)
Definition touch (receiveTime : Z) (c : Client) : Client :=
  mkClient (ws c) (deviceId c) (connectedAt c) (scansReceived c + 1) receiveTime.

(** [if (!scan.deviceId) scan.deviceId = client.deviceId] *)
Definition backfillDeviceId (c : Client) (scan : LiDARScan) : LiDARScan :=
  if negb (truthy_str (Models.deviceId scan))
  then mkScan (scanId scan) (sessionId scan) (deviceId c) (timestamp scan)
         (points scan) (metadata scan)
  else scan.

(** [handleMessage(client, data)] for the client object [ref];
    [decoded] is the outcome of [decode(buffer)], [None] when it throws. *)
Definition handleMessage (ref : nat) (receiveTime : Z) (decoded : option LiDARScan)
    (srv : LiDARWebSocketServer) : LiDARWebSocketServer :=
  match objects srv !! ref with
  | None => srv
  | Some client =>
      match decoded with
      | None => sendError (ws client) "Failed to process scan" srv
      | Some scan =>
          let scan := backfillDeviceId client scan in
          if negb (String.eqb (Models.deviceId scan) (deviceId client)) then
            sendError (ws client) "Device ID mismatch" srv
          else
            match Processor.submit scan (processor srv) with
            | None => sendError (ws client) "Failed to process scan" srv
            | Some (p, accepted) =>
                let srv := mkServer p (clients srv)
                             (<[ref := touch receiveTime client]> (objects srv))
                             (sockets srv) in
                sendMessage (ws client) (Ack (mkAck (scanId scan) receiveTime accepted)) srv
            end
      end
  end.

(** [handleDisconnect(client)] *)
Definition handleDisconnect (ref : nat) (srv : LiDARWebSocketServer)
  : LiDARWebSocketServer :=
  match objects srv !! ref with
  | None => srv
  | Some client =>
      mkServer (processor srv) (delete (deviceId client) (clients srv))
        (objects srv) (sockets srv)
  end.

(** The transport closes the socket of client [ref] and fires its
    ['close'] handler. *)
Definition socketClosed (ref : nat) (srv : LiDARWebSocketServer)
  : LiDARWebSocketServer :=
  match objects srv !! ref with
  | None => srv
  | Some client =>
      let closeIt sock := mkSocket CLOSED (sent sock) in
      handleDisconnect ref (with_sockets (alter closeIt (ws client) (sockets srv)) srv)
  end.

(** The [Client] objects the map holds. *)
Definition registered (srv : LiDARWebSocketServer) : list Client :=
  omap (fun entry => objects srv !! entry.2) (map_to_list (clients srv)).

(** [getClients()] *)
Definition getClients (srv : LiDARWebSocketServer) : list ClientInfo :=
  (fun c => mkClientInfo (deviceId c) (connectedAt c) (scansReceived c) (lastScanAt c))
    <$> registered srv.

(** [broadcast(message)] *)
Definition broadcast (message : WSMessage) (srv : LiDARWebSocketServer)
  : LiDARWebSocketServer :=
  fold_left (fun srv c => sendMessage (ws c) message srv) (registered srv) srv.

(** The tick of the processor's timer, seen from the server. *)
Definition tick (pf : FileStore.Platform) (srv : LiDARWebSocketServer)
  : LiDARWebSocketServer :=
  mkServer (Processor.tick pf (processor srv)) (clients srv) (objects srv) (sockets srv).

(** What [verifyClient] hands to its callback: the upgrade goes on with
    the device identifier stored in the request, or is refused with a
    status code and a reason. *)
Inductive Verdict : Type :=
| Accept (deviceId : option string)
| Reject (code : Z) (message : string).

(** [verifyClient(info, callback)] against the configured [API_KEY]. *)
Definition verifyClient (API_KEY : string) (request : Auth.IncomingMessage) : Verdict :=
  let auth := Auth.authenticateConnection API_KEY request in
  if negb (Auth.authenticated auth) then
    Reject 401
      (match or_else (Auth.error auth) (Some "Unauthorized") with
       | Some reason => reason
       | None => "Unauthorized"
       end)
  else Accept (Auth.deviceId auth).

End Server.

(** * Invariants and scenarios *)

(** The two bounds, with the byte total known to be non-negative. *)
Definition within_bounds (b : Buffer.BufferManager) : Prop :=
  Buffer.size b <= Buffer.maxQueueSize b
  /\ 0 <= Buffer.currentMemoryBytes b <= Buffer.maxMemoryBytes b.

(** The byte total is the sum of the estimates of the queued scans. *)
Definition exact_accounting (b : Buffer.BufferManager) : Prop :=
  Buffer.currentMemoryBytes b = Buffer.queuedBytes (Buffer.queue b).

(** The limits given at construction are those of [b]. *)
Definition same_limits (b b' : Buffer.BufferManager) : Prop :=
  Buffer.maxQueueSize b' = Buffer.maxQueueSize b
  /\ Buffer.maxMemoryBytes b' = Buffer.maxMemoryBytes b.

(** A well-formed point. *)
Definition samplePoint : JS.JsVal :=
  JS.JObj [("x", JS.JNum (1 # 2)); ("y", JS.JNum 0); ("z", JS.JNum (3 # 1))].

(** A scan of [device-1] with [n] well-formed points. *)
Definition sampleScan (scanId : string) (timestamp : Z) (n : nat) : Models.LiDARScan :=
  Models.mkScan scanId "session-1" "device-1" timestamp (repeat samplePoint n) JS.JUndefined.

(** Two metadata records of one session, stamped 100 and 200. *)
Definition olderScan : Models.ScanMetadata :=
  Models.mkScanMetadata "scan-old" "session-1" "device-1" 100
    "1970/01/01/00/scan-old.msgpack" 2000 50.

Definition newerScan : Models.ScanMetadata :=
  Models.mkScanMetadata "scan-new" "session-1" "device-1" 200
    "1970/01/01/00/scan-new.msgpack" 2000 50.

(** A handshake with the right key, a [deviceId] query parameter and
    an [x-device-id] header that disagree. *)
Definition bothDeviceIds : Auth.IncomingMessage :=
  Auth.mkRequest
    (Some [("apiKey", "0123456789abcdef0123456789abcdef"); ("deviceId", "query-device")])
    {["x-device-id" := "header-device"]}.

(** A platform whose disk accepts every call; the encoder is a stand-in
    of which only the output length is observed. *)
Definition healthyPlatform : FileStore.Platform :=
  FileStore.mkPlatform
    (fun _ => FileStore.mkLocalDate 2026 1 21 2)
    (fun scan => repeat Byte.x00 (Z.to_nat (Buffer.estimateScanSize scan)))
    (fun _ => false) (fun _ => false).

(** The same platform with a disk that refuses to create directories. *)
Definition fullDiskPlatform : FileStore.Platform :=
  FileStore.mkPlatform
    (FileStore.localDate healthyPlatform) (FileStore.encode healthyPlatform)
    (fun _ => true) (fun _ => false).

(** A writer over an empty directory tree. *)
Definition emptyWriter : FileStore.FileWriter := FileStore.mkFileWriter "data/scans" ∅ ∅.

(** A started processor over empty stores, default limits. *)
Definition freshProcessor : Processor.LiDARProcessor :=
  Processor.start 10 0
    (Processor.new (Buffer.new 1000 512) emptyWriter Database.empty 0).

(** The processor after two valid scans were submitted and none was
    processed yet. *)
Definition twoQueued : Processor.LiDARProcessor :=
  match Processor.submit (sampleScan "scan-a" 1000 50) freshProcessor with
  | Some (p, _) =>
      match Processor.submit (sampleScan "scan-b" 2000 10) p with
      | Some (p, _) => p
      | None => p
      end
  | None => freshProcessor
  end.

(** A scan whose first point is well formed and whose later points are
    not points at all. *)
Definition raggedScan : Models.LiDARScan :=
  Models.mkScan "scan-r" "session-1" "device-1" 1000
    [samplePoint; JS.JNull; JS.JStr "not a point"; JS.JObj [("x", JS.JStr "1")]]
    JS.JUndefined.

(** The registry refers to existing client objects under their own
    device identifier. *)
Definition registry_ok (srv : Server.LiDARWebSocketServer) : Prop :=
  forall d ref, Server.clients srv !! d = Some ref ->
    exists c, Server.objects srv !! ref = Some c /\ Server.deviceId c = d.

(** No registered client owns socket [w]. *)
Definition socket_unused (w : nat) (srv : Server.LiDARWebSocketServer) : Prop :=
  forall d ref c, Server.clients srv !! d = Some ref ->
    Server.objects srv !! ref = Some c -> Server.ws c <> w.

(** A socket the transport has just accepted. *)
Definition openSocket : Server.Socket := Server.mkSocket Server.OPEN [].

(** A server with no client and two accepted sockets, [1] and [2]. *)
Definition idleServer : Server.LiDARWebSocketServer :=
  Server.mkServer freshProcessor ∅ [] {[ 1%nat := openSocket; 2%nat := openSocket ]}.

(** The idle server after [device-1] connected on socket [1]; its
    client object has reference [0]. *)
Definition connectedServer : Server.LiDARWebSocketServer :=
  (Server.handleConnection 1 "device-1" 10 idleServer).1.

(** A server whose queue holds one scan at most, after [device-1]
    connected on socket [1] and filled the queue with one valid scan. *)
Definition fullServer : Server.LiDARWebSocketServer :=
  let processor :=
    Processor.start 10 0 (Processor.new (Buffer.new 1 512) emptyWriter Database.empty 0) in
  let srv := Server.mkServer processor ∅ [] {[ 1%nat := openSocket ]} in
  Server.handleMessage 0 20 (Some (sampleScan "scan-a" 1000 50))
    (Server.handleConnection 1 "device-1" 10 srv).1.

(** A valid scan whose identifier climbs six directories up. *)
Definition escapingScan : Models.LiDARScan :=
  Models.mkScan "../../../../../../escaped" "session-1" "device-1" 1000
    [samplePoint] JS.JUndefined.

(** A valid scan that names [device-2]. *)
Definition foreignScan : Models.LiDARScan :=
  Models.mkScan "scan-f" "session-1" "device-2" 1000 [samplePoint] JS.JUndefined.

(** A scan without device identifier and without points: it is
    back-filled, then rejected by validation. *)
Definition emptyPointsScan : Models.LiDARScan :=
  Models.mkScan "scan-e" "session-1" "" 1000 [] JS.JUndefined.

(** [enqueue] of each scan in turn: the buffer afterwards and the scans
    for which [enqueue] returned [true], in call order. *)
Fixpoint enqueueAll (scans : list Models.LiDARScan) (b : Buffer.BufferManager)
  : Buffer.BufferManager * list Models.LiDARScan :=
  match scans with
  | [] => (b, [])
  | scan :: rest =>
      let '(b1, ok, _) := Buffer.enqueue scan b in
      let '(b2, accepted) := enqueueAll rest b1 in
      (b2, if ok then scan :: accepted else accepted)
  end.

(** No [clear()] among the calls. *)
Definition no_clear (cs : list Buffer.Call) : Prop :=
  Forall (fun c => c <> Buffer.CallClear) cs.

(** Every scan that entered [enqueue] was dropped, has left through
    [dequeue], or is still queued. *)
Definition stats_balance (b : Buffer.BufferManager) : Prop :=
  Buffer.received (Buffer.stats b)
  = Buffer.dropped (Buffer.stats b) + Buffer.processed (Buffer.stats b) + Buffer.size b.

(** The peaks dominate the current values and stay within the limits. *)
Definition peaks_ok (b : Buffer.BufferManager) : Prop :=
  Buffer.size b <= Buffer.peakQueueSize (Buffer.stats b) <= Buffer.maxQueueSize b
  /\ 0 <= Buffer.currentMemoryBytes b <= Buffer.peakMemoryBytes (Buffer.stats b)
  /\ Buffer.peakMemoryBytes (Buffer.stats b) <= Buffer.maxMemoryBytes b.

(** [insertScan] for each record in turn, a refused insert being caught
    by the caller as the processor does. *)
Definition insertAll (ms : list Models.ScanMetadata) (db : Database.ScanDatabase)
  : Database.ScanDatabase :=
  fold_left (fun db m => (Database.insertScan m db).1) ms db.

(** The scan rows of one session. *)
Definition rowsOfSession (sessionId : string) (db : Database.ScanDatabase)
  : list Models.ScanMetadata :=
  filter (fun row => Models.md_sessionId row = sessionId) (Database.scanRows db).

Definition sumZ (l : list Z) : Z := fold_right Z.add 0 l.

(** Every session's counters are the count and the sums of its scan
    rows, and a session without row has no scan row. *)
Definition session_totals_ok (db : Database.ScanDatabase) : Prop :=
  forall sid,
    match Database.sessions db !! sid with
    | Some row =>
        Models.ss_scanCount row = Z.of_nat (length (rowsOfSession sid db))
        /\ Models.ss_totalPoints row = sumZ (Models.md_pointCount <$> rowsOfSession sid db)
        /\ Models.ss_totalSizeBytes row = sumZ (Models.md_sizeBytes <$> rowsOfSession sid db)
    | None => rowsOfSession sid db = []
    end.

(** What reaches a running processor: a submitted scan or a firing of
    its timer. *)
Inductive ProcessorEvent : Type :=
| EvSubmit (scan : Models.LiDARScan)
| EvTick.

(** A [submit] that throws is caught by the message handler and leaves
    the processor as it was. *)
Definition processorStep (pf : FileStore.Platform) (p : Processor.LiDARProcessor)
    (e : ProcessorEvent) : Processor.LiDARProcessor :=
  match e with
  | EvSubmit scan =>
      match Processor.submit scan p with
      | Some (p', _) => p'
      | None => p
      end
  | EvTick => Processor.processNext pf p
  end.

Definition processorRun (pf : FileStore.Platform) (es : list ProcessorEvent)
    (p : Processor.LiDARProcessor) : Processor.LiDARProcessor :=
  fold_left (processorStep pf) es p.

(** A processor as the application builds it: empty queue, empty
    directory tree under [baseDir], empty tables. *)
Definition bootProcessor (maxQueueSize maxMemoryMB : Z) (baseDir : string) (now : Z)
  : Processor.LiDARProcessor :=
  Processor.new (Buffer.new maxQueueSize maxMemoryMB)
    (FileStore.mkFileWriter baseDir ∅ ∅) Database.empty now.

(** Every metadata row names a blob that is in the store. *)
Definition rows_have_blobs (p : Processor.LiDARProcessor) : Prop :=
  forall id row,
    Database.scans (Processor.db p) !! id = Some row ->
    is_Some (FileStore.files (Processor.fileWriter p)
               !! FileStore.join (FileStore.baseDir (Processor.fileWriter p))
                    (Models.md_filePath row)).

(** What the processor's counters and queue say together. *)
Definition processor_balance (p : Processor.LiDARProcessor) : Prop :=
  Processor.received (Processor.stats p)
  = Processor.processed (Processor.stats p) + Processor.failed (Processor.stats p)
    + Buffer.size (Processor.buffer p).

(** The success counter is the number of metadata rows. *)
Definition processed_is_rows (p : Processor.LiDARProcessor) : Prop :=
  Processor.processed (Processor.stats p)
  = Z.of_nat (size (Database.scans (Processor.db p))).

(** The path, relative to the storage root, under which a scan is
    written. *)
Definition relativePathOf (pf : FileStore.Platform) (scan : Models.LiDARScan) : string :=
  FileStore.join (FileStore.getDatePath pf (Models.timestamp scan))
    (String.append (Models.scanId scan) ".msgpack").

(** The operating system accepts both calls [writeScan] makes for the
    scan under [baseDir]. *)
Definition writable (pf : FileStore.Platform) (baseDir : string)
    (scan : Models.LiDARScan) : bool :=
  negb (FileStore.mkdirFails pf
          (FileStore.join baseDir (FileStore.getDatePath pf (Models.timestamp scan))))
  && negb (FileStore.writeFails pf (FileStore.join baseDir (relativePathOf pf scan))).

(** What reaches a listening server. *)
Inductive ServerEvent : Type :=
| SrvUpgrade (request : Auth.IncomingMessage) (w : nat) (now : Z)
| SrvMessage (ref : nat) (receiveTime : Z) (decoded : option Models.LiDARScan)
| SrvClose (ref : nat)
| SrvBroadcast (message : Models.WSMessage)
| SrvTick.

(** One event handled to completion.  An upgrade request goes through
    [verifyClient] and, when accepted, [handleConnection] runs on the
    socket [w] with the device identifier stored in the request. *)
Definition serverStep (API_KEY : string) (pf : FileStore.Platform)
    (srv : Server.LiDARWebSocketServer) (ev : ServerEvent) : Server.LiDARWebSocketServer :=
  match ev with
  | SrvUpgrade request w now =>
      match Server.verifyClient API_KEY request with
      | Server.Accept (Some deviceId) => (Server.handleConnection w deviceId now srv).1
      | Server.Accept None => srv
      | Server.Reject _ _ => srv
      end
  | SrvMessage ref receiveTime decoded => Server.handleMessage ref receiveTime decoded srv
  | SrvClose ref => Server.socketClosed ref srv
  | SrvBroadcast message => Server.broadcast message srv
  | SrvTick => Server.tick pf srv
  end.

Definition serverRun (API_KEY : string) (pf : FileStore.Platform)
    (evs : list ServerEvent) (srv : Server.LiDARWebSocketServer)
  : Server.LiDARWebSocketServer :=
  fold_left (serverStep API_KEY pf) evs srv.

(** Every registered device identifier is non-empty. *)
Definition registry_named (srv : Server.LiDARWebSocketServer) : Prop :=
  forall d ref, Server.clients srv !! d = Some ref -> d <> "".

(** Every queued scan passed validation. *)
Definition queue_valid (p : Processor.LiDARProcessor) : Prop :=
  Forall (fun scan => Processor.validateScan scan = Some true)
    (Buffer.queue (Processor.buffer p)).

(** Every metadata row is keyed by its [scanId] and describes a scan
    that passed validation. *)
Definition rows_valid (p : Processor.LiDARProcessor) : Prop :=
  forall id row,
    Database.scans (Processor.db p) !! id = Some row ->
    Models.md_scanId row = id /\ id <> ""
    /\ Models.md_sessionId row <> "" /\ Models.md_deviceId row <> ""
    /\ 0 < Models.md_timestamp row /\ 1 <= Models.md_pointCount row
    /\ 0 <= Models.md_sizeBytes row.

(** The calendar fields are in the ranges [Date] reports. *)
Definition calendar_ok (d : FileStore.LocalDate) : Prop :=
  0 <= FileStore.getMonth d <= 11
  /\ 1 <= FileStore.getDate d <= 31
  /\ 0 <= FileStore.getHours d <= 23.

(** What [path.normalize] returns, given whether the path is absolute,
    whether it ends in a separator, and the segments kept (the last one
    first). *)
Definition render (isAbsolute trailingSeparator : bool) (res : list string) : string :=
  match res with
  | [] => if isAbsolute then "/"%string
          else if trailingSeparator then "./"%string else "."%string
  | _ =>
      let path := FileStore.unsegments (rev res) in
      let path := if trailingSeparator then String.append path "/" else path in
      if isAbsolute then String.append "/" path else path
  end.

(** The segment holds no separator. *)
Fixpoint noSlash (s : string) : bool :=
  match s with
  | EmptyString => true
  | String c rest => negb (Ascii.eqb c "/") && noSlash rest
  end.

(** A segment that [normalizeString] keeps. *)
Definition kept (seg : string) : Prop :=
  seg <> EmptyString /\ seg <> "."%string /\ noSlash seg = true.

(** A kept segment other than [..]. *)
Definition plain (seg : string) : Prop := kept seg /\ seg <> ".."%string.

(** Neither separator nor dot occurs in the string. *)
Fixpoint noDotSlash (s : string) : bool :=
  match s with
  | EmptyString => true
  | String c rest => negb (Ascii.eqb c "/") && negb (Ascii.eqb c ".") && noDotSlash rest
  end.

(** * Properties of the buffer *)
Section BufferFacts.
Import Models Buffer.

Lemma estimateScanSize_pos scan : 1000 <= estimateScanSize scan.
Proof. unfold estimateScanSize. lia. Qed.

Lemma queuedBytes_nonneg q : 0 <= queuedBytes q.
Proof.
  induction q as [|scan q IH]; simpl; [lia|].
  pose proof (estimateScanSize_pos scan). lia.
Qed.

Lemma queuedBytes_app q scan :
  queuedBytes (q ++ [scan]) = queuedBytes q + estimateScanSize scan.
Proof. induction q as [|s q IH]; simpl; lia. Qed.

(** The three outcomes of [enqueue], read off its guards. *)
Lemma enqueue_cases scan b :
  let est := estimateScanSize scan in
  let '(b', ok, sig) := enqueue scan b in
  (currentMemoryBytes b + est > maxMemoryBytes b /\ ok = false /\
     queue b' = queue b /\ currentMemoryBytes b' = currentMemoryBytes b /\
     hd_error sig = Some (Warn "Memory limit reached, dropping scan"))
  \/ (currentMemoryBytes b + est <= maxMemoryBytes b /\ size b >= maxQueueSize b /\
      ok = false /\ queue b' = queue b /\ currentMemoryBytes b' = currentMemoryBytes b /\
      hd_error sig = Some (Warn "Queue size limit reached, dropping scan"))
  \/ (currentMemoryBytes b + est <= maxMemoryBytes b /\ size b < maxQueueSize b /\
      ok = true /\ queue b' = queue b ++ [scan] /\
      currentMemoryBytes b' = currentMemoryBytes b + est).
Proof.
  unfold enqueue. cbn zeta.
  change (currentMemoryBytes (count_received b)) with (currentMemoryBytes b).
  change (maxMemoryBytes (count_received b)) with (maxMemoryBytes b).
  change (maxQueueSize (count_received b)) with (maxQueueSize b).
  change (size (count_received b)) with (size b).
  destruct (Z.gtb_spec (currentMemoryBytes b + estimateScanSize scan) (maxMemoryBytes b)).
  - left. repeat split; try reflexivity. lia.
  - destruct (Z.geb_spec (size b) (maxQueueSize b)).
    + right; left. repeat split; try reflexivity; lia.
    + right; right. repeat split; try reflexivity; lia.
Qed.

Lemma enqueue_limits scan b : same_limits b (enqueue scan b).1.1.
Proof.
  unfold enqueue, same_limits. cbn zeta.
  repeat match goal with |- context [if ?c then _ else _] => destruct c end;
    simpl; auto.
Qed.

Lemma enqueue_within_bounds_step scan b :
  within_bounds b -> within_bounds (enqueue scan b).1.1.
Proof.
  intros [Hq Hm].
  pose proof (enqueue_cases scan b) as H. pose proof (enqueue_limits scan b) as [L1 L2].
  pose proof (estimateScanSize_pos scan).
  destruct (enqueue scan b) as [[b' ok] sig]. simpl in *.
  unfold within_bounds, size in *. rewrite L1, L2.
  destruct H as [(_ & _ & Q & M & _)|[(_ & _ & _ & Q & M & _)|(? & ? & _ & Q & M)]];
    rewrite Q, M; [lia|lia|].
  rewrite length_app. simpl. lia.
Qed.

Lemma enqueue_exact_step scan b :
  exact_accounting b -> exact_accounting (enqueue scan b).1.1.
Proof.
  unfold exact_accounting. intros E.
  pose proof (enqueue_cases scan b) as H.
  destruct (enqueue scan b) as [[b' ok] sig]. simpl in *.
  destruct H as [(_ & _ & Q & M & _)|[(_ & _ & _ & Q & M & _)|(_ & _ & _ & Q & M)]];
    rewrite Q, M; [assumption|assumption|].
  rewrite queuedBytes_app. lia.
Qed.

Lemma dequeue_limits b : same_limits b (dequeue b).1.
Proof. unfold dequeue, same_limits. destruct (queue b); simpl; auto. Qed.

Lemma dequeue_within_bounds_step b : within_bounds b -> within_bounds (dequeue b).1.
Proof.
  unfold within_bounds, dequeue, size. intros [Hq Hm].
  destruct (queue b) as [|scan rest] eqn:Q; simpl; [rewrite Q; simpl; lia|].
  pose proof (estimateScanSize_pos scan). simpl in Hq. lia.
Qed.

Lemma dequeue_exact_step b : exact_accounting b -> exact_accounting (dequeue b).1.
Proof.
  unfold exact_accounting, dequeue. intros E.
  destruct (queue b) as [|scan rest] eqn:Q; simpl; [rewrite Q; exact E|].
  rewrite E. simpl. pose proof (queuedBytes_nonneg rest). lia.
Qed.

(** No clamping happens when the accounting is exact: the release is
    the estimate of the scan that leaves. *)
Lemma dequeue_releases b :
  exact_accounting b ->
  match dequeue b with
  | (b', Some scan) =>
      currentMemoryBytes b' = currentMemoryBytes b - estimateScanSize scan
      /\ queue b = scan :: queue b'
  | (b', None) => b' = b /\ queue b = []
  end.
Proof.
  unfold exact_accounting, dequeue. intros E.
  destruct (queue b) as [|scan rest] eqn:Q; simpl; [auto|].
  rewrite E. simpl. pose proof (queuedBytes_nonneg rest). split; [lia|reflexivity].
Qed.

(** The drain loop terminates within [length (queue b)] rounds, yields
    the queue in order and leaves it empty. *)
Lemma drain_loop_total n b :
  (length (queue b) <= n)%nat ->
  exists b', drain_loop n b = Some (b', queue b) /\ queue b' = []
    /\ same_limits b b'
    /\ (within_bounds b -> within_bounds b')
    /\ (exact_accounting b -> exact_accounting b').
Proof.
  revert b. induction n as [|n IH]; intros b Hn.
  - destruct (queue b) as [|s q] eqn:Q; [|simpl in Hn; lia].
    exists b. simpl. unfold isEmpty, size. rewrite Q. simpl.
    unfold same_limits. auto.
  - destruct (queue b) as [|s q] eqn:Q.
    + exists b. simpl. unfold isEmpty, size. rewrite Q. simpl.
      unfold same_limits. auto.
    + simpl. unfold isEmpty, size. rewrite Q. simpl.
      pose proof (dequeue_limits b) as [L1 L2].
      pose proof (dequeue_within_bounds_step b) as WB.
      pose proof (dequeue_exact_step b) as EA.
      unfold dequeue in *. rewrite Q in *. simpl in *.
      set (b1 := mkBuffer q _ _ _ _) in *.
      destruct (IH b1) as (b' & D & E & [M1 M2] & W & X); [simpl in *; lia|].
      exists b'. rewrite D. simpl.
      split; [reflexivity|]. split; [exact E|].
      split; [split; [exact M1|exact M2]|]. split; auto.
Qed.

Lemma drain_total b :
  exists b', drain b = Some (b', queue b) /\ queue b' = []
    /\ same_limits b b'
    /\ (within_bounds b -> within_bounds b')
    /\ (exact_accounting b -> exact_accounting b').
Proof. apply drain_loop_total. reflexivity. Qed.

Lemma call_preserves b c :
  same_limits b (call b c)
  /\ (within_bounds b -> within_bounds (call b c))
  /\ (exact_accounting b -> exact_accounting (call b c)).
Proof.
  destruct c as [scan| | |]; simpl.
  - split; [apply enqueue_limits|].
    split; [apply enqueue_within_bounds_step|apply enqueue_exact_step].
  - split; [apply dequeue_limits|].
    split; [apply dequeue_within_bounds_step|apply dequeue_exact_step].
  - destruct (drain_total b) as (b' & D & _ & L & W & X). rewrite D. auto.
  - unfold same_limits, within_bounds, exact_accounting, clear, size. simpl.
    repeat split; auto; lia.
Qed.

Lemma calls_preserve cs : forall b,
  same_limits b (calls b cs)
  /\ (within_bounds b -> within_bounds (calls b cs))
  /\ (exact_accounting b -> exact_accounting (calls b cs)).
Proof.
  induction cs as [|c cs IH]; intros b.
  - simpl. unfold same_limits. auto.
  - change (calls b (c :: cs)) with (calls (call b c) cs).
    destruct (call_preserves b c) as ([L1 L2] & W & X).
    destruct (IH (call b c)) as ([L1' L2'] & W' & X').
    split; [split; congruence|]. split; auto.
Qed.

End BufferFacts.

(** C4.  For a queue built with non-negative bounds [maxCount] and
    [maxBytes], after any sequence of enqueue, dequeue, drain (and
    clear) calls starting from the empty queue, a further [enqueue]
    returns with [size() <= maxCount] and [currentMemoryBytes <=
    maxBytes], and the bounds are those given at construction. *)
Theorem enqueue_respects_bounds (maxCount maxBytes : Z) (cs : list Buffer.Call)
    (scan : Models.LiDARScan) :
  0 <= maxCount -> 0 <= maxBytes ->
  let b := (Buffer.enqueue scan (Buffer.calls (Buffer.init maxCount maxBytes) cs)).1.1 in
  Buffer.maxQueueSize b = maxCount /\ Buffer.maxMemoryBytes b = maxBytes /\
  Buffer.size b <= maxCount /\ Buffer.currentMemoryBytes b <= maxBytes.
Proof.
  intros Hc Hb b.
  assert (W0 : within_bounds (Buffer.init maxCount maxBytes)).
  { unfold within_bounds, Buffer.size. simpl. lia. }
  destruct (calls_preserve cs (Buffer.init maxCount maxBytes)) as ([L1 L2] & W & _).
  specialize (W W0).
  pose proof (enqueue_within_bounds_step scan _ W) as [Wq Wm].
  pose proof (enqueue_limits scan (Buffer.calls (Buffer.init maxCount maxBytes) cs))
    as [E1 E2].
  fold b in Wq, Wm, E1, E2. simpl in L1, L2.
  rewrite E1, L1 in Wq. rewrite E2, L2 in Wm.
  repeat split; try congruence; lia.
Qed.

Lemma enqueue_respects_bounds_witness :
  0 <= 2 /\ 0 <= 3000 /\
  let b := (Buffer.enqueue (sampleScan "c" 3 10)
              (Buffer.calls (Buffer.init 2 3000)
                 [Buffer.CallEnqueue (sampleScan "a" 1 50);
                  Buffer.CallEnqueue (sampleScan "b" 2 50);
                  Buffer.CallDequeue])).1.1 in
  Buffer.maxQueueSize b = 2 /\ Buffer.maxMemoryBytes b = 3000 /\
  Buffer.size b <= 2 /\ Buffer.currentMemoryBytes b <= 3000.
Proof.
  split; [lia|]. split; [lia|].
  apply (enqueue_respects_bounds 2 3000); lia.
Defined.

(** C5.  [enqueue] returns [false] exactly when the byte total plus the
    scan's estimate ([pointCount * 20 + 1000]) exceeds [maxMemoryBytes]
    (tested first, reported as the memory limit) or, failing that, when
    the queue already holds [maxQueueSize] scans (reported as the queue
    size limit); a rejected call leaves the queue and the byte total as
    they were.  With [maxBytes = 3000] a 50-point scan is accepted with
    2000 bytes tracked, and a following 10-point scan is rejected with
    the total still 2000. *)
Theorem enqueue_rejects_exactly_on_overflow :
  (forall (b : Buffer.BufferManager) (scan : Models.LiDARScan),
     let est := Z.of_nat (length (Models.points scan)) * 20 + 1000 in
     let '(b', ok, sig) := Buffer.enqueue scan b in
     (ok = false <->
        Buffer.currentMemoryBytes b + est > Buffer.maxMemoryBytes b
        \/ Buffer.size b >= Buffer.maxQueueSize b)
     /\ (Buffer.currentMemoryBytes b + est > Buffer.maxMemoryBytes b ->
         hd_error sig = Some (Buffer.Warn "Memory limit reached, dropping scan"))
     /\ (Buffer.currentMemoryBytes b + est <= Buffer.maxMemoryBytes b ->
         Buffer.size b >= Buffer.maxQueueSize b ->
         hd_error sig = Some (Buffer.Warn "Queue size limit reached, dropping scan"))
     /\ (ok = false ->
         Buffer.queue b' = Buffer.queue b /\ Buffer.size b' = Buffer.size b
         /\ Buffer.currentMemoryBytes b' = Buffer.currentMemoryBytes b))
  /\ (forall maxCount, 1 <= maxCount ->
      let '(b1, ok1, _) := Buffer.enqueue (sampleScan "a" 1 50) (Buffer.init maxCount 3000) in
      let '(b2, ok2, _) := Buffer.enqueue (sampleScan "b" 2 10) b1 in
      Buffer.estimateScanSize (sampleScan "a" 1 50) = 2000
      /\ Buffer.estimateScanSize (sampleScan "b" 2 10) = 1200
      /\ ok1 = true /\ Buffer.currentMemoryBytes b1 = 2000
      /\ ok2 = false /\ Buffer.currentMemoryBytes b2 = 2000 /\ Buffer.size b2 = 1).
Proof.
  split.
  - intros b scan est.
    pose proof (enqueue_cases scan b) as H.
    destruct (Buffer.enqueue scan b) as [[b' ok] sig].
    change (Buffer.estimateScanSize scan) with est in H. cbn zeta in H.
    unfold Buffer.size in *.
    destruct H as [(G & -> & Q & M & S)|[(G1 & G2 & -> & Q & M & S)
                  |(G1 & G2 & -> & Q & M)]].
    + repeat split; auto; try lia; congruence.
    + repeat split; auto; try lia; congruence.
    + repeat split; try discriminate; lia.
  - intros maxCount Hc.
    pose proof (enqueue_cases (sampleScan "a" 1 50) (Buffer.init maxCount 3000)) as H1.
    pose proof (enqueue_limits (sampleScan "a" 1 50) (Buffer.init maxCount 3000))
      as [_ L].
    destruct (Buffer.enqueue (sampleScan "a" 1 50) (Buffer.init maxCount 3000))
      as [[b1 ok1] sig1].
    pose proof (enqueue_cases (sampleScan "b" 2 10) b1) as H2.
    destruct (Buffer.enqueue (sampleScan "b" 2 10) b1) as [[b2 ok2] sig2].
    change (Buffer.estimateScanSize (sampleScan "a" 1 50)) with 2000 in *.
    change (Buffer.estimateScanSize (sampleScan "b" 2 10)) with 1200 in *.
    cbn zeta in H1, H2. unfold Buffer.size in *. simpl in H1, L.
    destruct H1 as [(G & _)|[(_ & G & _)|(_ & _ & -> & Q1 & M1)]]; try lia.
    rewrite M1, Q1 in H2. simpl in H2.
    destruct H2 as [(_ & -> & Q2 & M2 & _)|[(G & _)|(G & _)]]; try lia.
    rewrite ?Q2, ?M2, ?M1. simpl. repeat split; reflexivity.
Qed.

(** C6.  From the empty queue, after any interleaving of accepted and
    rejected enqueues (and of dequeues, drains and clears), the byte
    total equals the sum of the estimates of the queued scans, each
    [dequeue] lowers it by exactly the estimate that [enqueue] added for
    the scan that leaves, and dequeuing until the queue is empty
    terminates, hands back the queued scans in order, and leaves
    [size() = 0] and [currentMemoryBytes = 0]. *)
Theorem full_drain_returns_to_zero (maxCount maxBytes : Z) (cs : list Buffer.Call) :
  let b := Buffer.calls (Buffer.init maxCount maxBytes) cs in
  Buffer.currentMemoryBytes b = Buffer.queuedBytes (Buffer.queue b)
  /\ (forall scan,
        let '(b', ok, _) := Buffer.enqueue scan b in
        Buffer.currentMemoryBytes b' =
          Buffer.currentMemoryBytes b + (if ok then Buffer.estimateScanSize scan else 0))
  /\ match Buffer.dequeue b with
     | (b', Some scan) =>
         Buffer.currentMemoryBytes b' =
           Buffer.currentMemoryBytes b - Buffer.estimateScanSize scan
     | (b', None) => b' = b
     end
  /\ exists b', Buffer.drain b = Some (b', Buffer.queue b)
       /\ Buffer.size b' = 0 /\ Buffer.currentMemoryBytes b' = 0.
Proof.
  intros b.
  assert (X0 : exact_accounting (Buffer.init maxCount maxBytes)) by reflexivity.
  destruct (calls_preserve cs (Buffer.init maxCount maxBytes)) as (_ & _ & X).
  specialize (X X0). fold b in X.
  split; [exact X|]. split; [|split].
  - intros scan. pose proof (enqueue_cases scan b) as H.
    destruct (Buffer.enqueue scan b) as [[b' ok] sig]. cbn zeta in H.
    destruct H as [(_ & -> & _ & M & _)|[(_ & _ & -> & _ & M & _)|(_ & _ & -> & _ & M)]];
      rewrite M; lia.
  - pose proof (dequeue_releases b X) as H.
    destruct (Buffer.dequeue b) as [b' [scan|]]; tauto.
  - destruct (drain_total b) as (b' & D & E & _ & _ & X').
    exists b'. split; [exact D|]. specialize (X' X).
    unfold exact_accounting in X'. unfold Buffer.size. rewrite X', E. auto.
Qed.

(** * Properties of the metadata store *)
Section DatabaseFacts.
Import Models Database.

Lemma insertSession_lookup sid dev ts (t : gmap string SessionMetadata) :
  exists row, insertSession sid dev ts t !! sid = Some row
    /\ ss_endTime row = match t !! sid with Some old => ss_endTime old | None => None end.
Proof.
  unfold insertSession. destruct (t !! sid) as [old|] eqn:E.
  - exists old. auto.
  - eexists. rewrite lookup_insert_eq. split; reflexivity.
Qed.

Lemma endTimeOf_after_session_insert sid dev ts db scans' :
  endTimeOf sid (mkDb (insertSession sid dev ts (sessions db)) scans') = endTimeOf sid db.
Proof.
  unfold endTimeOf, getSession. simpl.
  destruct (insertSession_lookup sid dev ts (sessions db)) as (row & L & E).
  rewrite L, E. reflexivity.
Qed.

Lemma endTimeOf_after_update pc sb ts sid (t : gmap string SessionMetadata) scans' row :
  t !! sid = Some row ->
  endTimeOf sid (mkDb (updateSession pc sb ts sid t) scans') = Some ts.
Proof.
  intros L. unfold endTimeOf, getSession, updateSession. simpl.
  rewrite lookup_alter_eq, L. reflexivity.
Qed.

End DatabaseFacts.

(** C3, as the code has it.  An insert whose scan row is accepted sets
    the session's [endTime] to the inserted scan's timestamp, whatever
    the column held; this is [max(previous endTime, timestamp)] exactly
    when the timestamp is not older than the previous [endTime].  An
    insert refused for a duplicate [scanId] leaves [endTime] as it was. *)
Theorem insertScan_sets_endTime (db : Database.ScanDatabase) (m : Models.ScanMetadata) :
  let sid := Models.md_sessionId m in
  let ts := Models.md_timestamp m in
  let '(db', ok) := Database.insertScan m db in
  match Database.scans db !! Models.md_scanId m with
  | None =>
      ok = true
      /\ Database.endTimeOf sid db' = Some ts
      /\ (forall e, Database.endTimeOf sid db = Some e -> e <= ts ->
            Database.endTimeOf sid db' = Some (Z.max e ts))
  | Some _ =>
      ok = false /\ Database.endTimeOf sid db' = Database.endTimeOf sid db
  end.
Proof.
  intros sid ts. unfold Database.insertScan.
  destruct (Database.scans db !! Models.md_scanId m) as [dup|].
  - split; [reflexivity|]. apply endTimeOf_after_session_insert.
  - destruct (insertSession_lookup sid (Models.md_deviceId m) ts (Database.sessions db))
      as (row & L & _).
    pose proof (endTimeOf_after_update (Models.md_pointCount m) (Models.md_sizeBytes m)
                  ts sid _ (<[Models.md_scanId m := m]> (Database.scans db)) row L) as E.
    split; [reflexivity|]. split; [exact E|].
    intros e _ Hle. etransitivity; [exact E|]. f_equal. lia.
Qed.

(** C3 fails as stated: after a scan stamped 200, inserting a scan
    stamped 100 into the same session succeeds and moves [endTime] from
    200 back to 100, not to [max 200 100]. *)
Lemma insertScan_endTime_moves_backward :
  let db1 := (Database.insertScan newerScan Database.empty).1 in
  let '(db2, ok) := Database.insertScan olderScan db1 in
  Database.endTimeOf "session-1" db1 = Some 200
  /\ ok = true
  /\ Database.endTimeOf "session-1" db2 = Some 100
  /\ Database.endTimeOf "session-1" db2 <> Some (Z.max 200 100).
Proof. vm_compute. repeat split; discriminate. Qed.

(** * Properties of the authentication gate *)

(** C7, as the code has it.  The API key is resolved query-first: the
    [apiKey]/[api_key] parameter when it is present and non-empty, the
    [x-api-key] header otherwise.  The device identifier is resolved
    header-first: the [x-device-id] header when it is present and
    non-empty, the [deviceId]/[device_id] parameter otherwise.  A
    handshake is accepted exactly when the key so resolved is the secret
    and a device identifier is found, it then reports the identifier so
    resolved, and a refused handshake reports none. *)
Theorem credentials_resolution (API_KEY : string) (request : Auth.IncomingMessage) :
  let query := Auth.parseQueryString request in
  let keyParam := JS.or_else (query !! "apiKey") (query !! "api_key") in
  let keyHeader := Auth.headers request !! "x-api-key" in
  let idParam := JS.or_else (query !! "deviceId") (query !! "device_id") in
  let idHeader := Auth.headers request !! "x-device-id" in
  let result := Auth.authenticateConnection API_KEY request in
  (JS.truthy_opt keyParam = true ->
     (Auth.authenticated result = true <->
        keyParam = Some API_KEY /\ JS.truthy_opt (Auth.deviceIdOf request) = true))
  /\ (JS.truthy_opt keyParam = false ->
      (Auth.authenticated result = true <->
         keyHeader = Some API_KEY /\ API_KEY <> ""
         /\ JS.truthy_opt (Auth.deviceIdOf request) = true))
  /\ (JS.truthy_opt idHeader = true ->
      Auth.deviceIdOf request = idHeader
      /\ (Auth.authenticated result = true -> Auth.deviceId result = idHeader))
  /\ (JS.truthy_opt idHeader = false ->
      Auth.deviceIdOf request = idParam
      /\ (Auth.authenticated result = true -> Auth.deviceId result = idParam))
  /\ (Auth.authenticated result = false -> Auth.deviceId result = None).
Proof.
  cbn zeta.
  set (keyParam := JS.or_else _ (_ !! "api_key")).
  set (idParam := JS.or_else _ (_ !! "device_id")).
  assert (K : Auth.apiKeyOf request
              = if JS.truthy_opt keyParam then keyParam
                else Auth.headers request !! "x-api-key") by reflexivity.
  assert (D : Auth.deviceIdOf request
              = if JS.truthy_opt (Auth.headers request !! "x-device-id")
                then Auth.headers request !! "x-device-id" else idParam) by reflexivity.
  assert (R : Auth.authenticated (Auth.authenticateConnection API_KEY request) = true
              <-> JS.truthy_opt (Auth.apiKeyOf request) = true
                  /\ Auth.apiKeyOf request = Some API_KEY
                  /\ JS.truthy_opt (Auth.deviceIdOf request) = true).
  { unfold Auth.authenticateConnection.
    destruct (JS.truthy_opt (Auth.apiKeyOf request)); simpl; [|intuition discriminate].
    case_bool_decide as E; simpl; [|intuition discriminate].
    destruct (JS.truthy_opt (Auth.deviceIdOf request)); simpl; intuition discriminate. }
  assert (V : Auth.authenticated (Auth.authenticateConnection API_KEY request) = true ->
              Auth.deviceId (Auth.authenticateConnection API_KEY request)
              = Auth.deviceIdOf request).
  { unfold Auth.authenticateConnection.
    destruct (JS.truthy_opt (Auth.apiKeyOf request)); simpl; [|discriminate].
    case_bool_decide; simpl; [|discriminate].
    destruct (JS.truthy_opt (Auth.deviceIdOf request)); simpl; [reflexivity|discriminate]. }
  assert (N : Auth.authenticated (Auth.authenticateConnection API_KEY request) = false ->
              Auth.deviceId (Auth.authenticateConnection API_KEY request) = None).
  { unfold Auth.authenticateConnection.
    destruct (JS.truthy_opt (Auth.apiKeyOf request)); simpl; [|reflexivity].
    case_bool_decide; simpl; [|reflexivity].
    destruct (JS.truthy_opt (Auth.deviceIdOf request)); simpl; [discriminate|reflexivity]. }
  split; [|split; [|split; [|split]]].
  - intros T. rewrite R, K, T. intuition.
  - intros T. rewrite R, K, T. split.
    + intros (T' & E & Td). rewrite E in T'. split; [exact E|]. split; [|exact Td].
      intros ->. discriminate.
    + intros (E & Hne & Td). rewrite E. split; [|auto]. simpl.
      unfold JS.truthy_str. apply String.eqb_neq in Hne. rewrite Hne. reflexivity.
  - intros T. rewrite D, T. split; [reflexivity|]. intros A. rewrite (V A), D, T. reflexivity.
  - intros T. rewrite D, T. split; [reflexivity|]. intros A. rewrite (V A), D, T. reflexivity.
  - exact N.
Qed.

(** C7 fails as stated for the device identifier: with both a
    [deviceId] query parameter and an [x-device-id] header, the accepted
    handshake reports the header's value, not the query parameter's. *)
Lemma device_id_header_wins :
  let result := Auth.authenticateConnection "0123456789abcdef0123456789abcdef" bothDeviceIds in
  Auth.parseQueryString bothDeviceIds !! "deviceId" = Some "query-device"
  /\ Auth.authenticated result = true
  /\ Auth.deviceId result = Some "header-device"
  /\ Auth.deviceId result <> Auth.parseQueryString bothDeviceIds !! "deviceId".
Proof. vm_compute. repeat split; discriminate. Qed.

(** * Properties of the processor *)
Section ProcessorFacts.
Import Models Processor.

Lemma processNext_shutting_down pf p :
  isShuttingDown p = true -> processNext pf p = p.
Proof. intros H. unfold processNext. rewrite H. reflexivity. Qed.

(** Once [isShuttingDown] is set, every round of the drain loop only
    removes the head of the queue. *)
Lemma drainRounds_shutting_down pf n : forall p,
  isShuttingDown p = true ->
  (length (Buffer.queue (buffer p)) <= n)%nat ->
  exists p', drainRounds pf n p = Some p'
    /\ Buffer.queue (buffer p') = []
    /\ fileWriter p' = fileWriter p /\ db p' = db p /\ stats p' = stats p
    /\ isShuttingDown p' = true /\ processingInterval p' = processingInterval p.
Proof.
  induction n as [|n IH]; intros p Hs Hn.
  - destruct (Buffer.queue (buffer p)) as [|s q] eqn:Q; [|simpl in Hn; lia].
    exists p. simpl. unfold Buffer.isEmpty, Buffer.size. rewrite Q. simpl. auto 10.
  - destruct (Buffer.queue (buffer p)) as [|s q] eqn:Q.
    + exists p. simpl. unfold Buffer.isEmpty, Buffer.size. rewrite Q. simpl. auto 10.
    + simpl. unfold Buffer.isEmpty, Buffer.size, Buffer.dequeue. rewrite Q. simpl.
      rewrite processNext_shutting_down by exact Hs.
      match goal with |- context [drainRounds pf n ?p1] =>
        destruct (IH p1) as (p' & D & E & F & G & S & I & T);
          [exact Hs | simpl in *; lia | ]
      end.
      exists p'. auto 10.
Qed.

End ProcessorFacts.

(** C1, what the code does.  [shutdown] always completes, and it
    completes with an empty queue while the blob store, the metadata
    store and the processed/failed counters are exactly as before: the
    guard [if (this.isShuttingDown) return] turns every [processNext]
    of the drain loop into a no-op, so each queued scan is dequeued and
    dropped without a blob write or a metadata insert.  On the processor
    with two queued scans and a healthy disk, the per-scan path would
    have stored both; [shutdown] stores none. *)
Theorem shutdown_discards_queued_scans :
  (forall (pf : FileStore.Platform) (p : Processor.LiDARProcessor),
     exists p', Processor.shutdown pf p = Some p'
       /\ Buffer.queue (Processor.buffer p') = []
       /\ Processor.fileWriter p' = Processor.fileWriter p
       /\ Processor.db p' = Processor.db p
       /\ Processor.stats p' = Processor.stats p)
  /\ Buffer.size (Processor.buffer twoQueued) = 2
  /\ (exists p', Processor.shutdown healthyPlatform twoQueued = Some p'
       /\ Buffer.size (Processor.buffer p') = 0
       /\ size (Database.scans (Processor.db p')) = 0%nat
       /\ size (FileStore.files (Processor.fileWriter p')) = 0%nat
       /\ Processor.processed (Processor.stats p') = 0
       /\ Processor.failed (Processor.stats p') = 0)
  /\ (let p' := Processor.processAll healthyPlatform
                  (Buffer.queue (Processor.buffer twoQueued)) twoQueued in
      size (Database.scans (Processor.db p')) = 2%nat
      /\ size (FileStore.files (Processor.fileWriter p')) = 2%nat
      /\ Processor.processed (Processor.stats p') = 2).
Proof.
  split.
  - intros pf p. unfold Processor.shutdown.
    set (p0 := Processor.stop _).
    assert (S0 : Processor.isShuttingDown p0 = true).
    { unfold p0, Processor.stop. simpl. destruct (Processor.processingInterval p); reflexivity. }
    assert (K : Processor.buffer p0 = Processor.buffer p
                /\ Processor.fileWriter p0 = Processor.fileWriter p
                /\ Processor.db p0 = Processor.db p
                /\ Processor.stats p0 = Processor.stats p).
    { unfold p0, Processor.stop. simpl.
      destruct (Processor.processingInterval p); simpl; auto. }
    destruct K as (Kb & Kf & Kd & Ks).
    destruct (Z.gtb_spec (Buffer.size (Processor.buffer p0)) 0) as [R|R].
    + destruct (drainRounds_shutting_down pf _ p0 S0 (Nat.le_refl _))
        as (p' & D & E & F & G & S & _).
      rewrite D. eexists. split; [reflexivity|]. simpl.
      unfold Database.checkpoint. repeat split; congruence.
    + eexists. split; [reflexivity|]. simpl. unfold Database.checkpoint.
      repeat split; try congruence.
      unfold Buffer.size in R. destruct (Buffer.queue (Processor.buffer p0)) eqn:Q.
      * reflexivity.
      * simpl length in R. lia.
  - split; [reflexivity|]. split.
    + eexists. split; [vm_compute; reflexivity|]. vm_compute. repeat split.
    + vm_compute. repeat split.
Qed.

(** C9.  A scan with non-empty [scanId], [sessionId] and [deviceId], a
    positive timestamp and a first point whose [x], [y] and [z] are
    numbers passes [validateScan] whatever the remaining points are, and
    [submit] hands it to [enqueue]: its result is the admission result
    and the processor's buffer is the buffer [enqueue] leaves. *)
Theorem validateScan_checks_first_point_only
    (scan : Models.LiDARScan) (firstPoint : JS.JsVal) (others : list JS.JsVal)
    (x y z : JS.JsVal) (p : Processor.LiDARProcessor) :
  Models.scanId scan <> "" ->
  Models.sessionId scan <> "" ->
  Models.deviceId scan <> "" ->
  0 < Models.timestamp scan ->
  Models.points scan = firstPoint :: others ->
  JS.get_prop firstPoint "x" = Some x -> JS.typeof x = JS.TNumber ->
  JS.get_prop firstPoint "y" = Some y -> JS.typeof y = JS.TNumber ->
  JS.get_prop firstPoint "z" = Some z -> JS.typeof z = JS.TNumber ->
  Processor.validateScan scan = Some true
  /\ exists p', Processor.submit scan p
                = Some (p', (Buffer.enqueue scan (Processor.buffer p)).1.2)
       /\ Processor.buffer p' = (Buffer.enqueue scan (Processor.buffer p)).1.1.
Proof.
  intros Hid Hsess Hdev Hts Hpts Hx Tx Hy Ty Hz Tz.
  assert (V : Processor.validateScan scan = Some true).
  { unfold Processor.validateScan, JS.truthy_str.
    apply String.eqb_neq in Hid, Hsess, Hdev. rewrite Hid, Hsess, Hdev. simpl.
    destruct (Z.eqb_spec (Models.timestamp scan) 0); [lia|].
    destruct (Z.leb_spec (Models.timestamp scan) 0); [lia|]. simpl.
    rewrite Hpts. simpl. rewrite Hx, Hy, Hz.
    unfold JS.is_number. rewrite Tx, Ty, Tz. reflexivity. }
  split; [exact V|].
  unfold Processor.submit. rewrite V. simpl.
  destruct (Buffer.enqueue scan (Processor.buffer p)) as [[b ok] sig]. simpl.
  eexists. split; [reflexivity|]. destruct ok; reflexivity.
Qed.

Lemma validateScan_checks_first_point_only_witness :
  Processor.validateScan raggedScan = Some true
  /\ exists p', Processor.submit raggedScan freshProcessor
                = Some (p', (Buffer.enqueue raggedScan (Processor.buffer freshProcessor)).1.2)
       /\ Processor.buffer p'
          = (Buffer.enqueue raggedScan (Processor.buffer freshProcessor)).1.1.
Proof.
  apply (validateScan_checks_first_point_only raggedScan samplePoint
           [JS.JNull; JS.JStr "not a point"; JS.JObj [("x", JS.JStr "1")]]
           (JS.JNum (1 # 2)) (JS.JNum 0) (JS.JNum (3 # 1)) freshProcessor);
    solve [discriminate | reflexivity].
Defined.

(** * Properties of the socket server *)
Section ServerFacts.
Import Models Server.

Lemma sendMessage_frame w message srv :
  processor (sendMessage w message srv) = processor srv
  /\ clients (sendMessage w message srv) = clients srv
  /\ objects (sendMessage w message srv) = objects srv.
Proof.
  unfold sendMessage. destruct (sockets srv !! w) as [sock|]; [|auto].
  destruct (readyState sock); auto.
Qed.

Lemma sendMessage_objects w message srv :
  objects (sendMessage w message srv) = objects srv.
Proof. apply sendMessage_frame. Qed.

Lemma sendMessage_other w w' message srv :
  w <> w' -> sockets (sendMessage w message srv) !! w' = sockets srv !! w'.
Proof.
  intros Hne. unfold sendMessage. destruct (sockets srv !! w) as [sock|]; [|reflexivity].
  destruct (readyState sock); try reflexivity.
  simpl. apply lookup_insert_ne. exact Hne.
Qed.

Lemma sendMessage_open w message srv sock :
  sockets srv !! w = Some sock -> readyState sock = OPEN ->
  sockets (sendMessage w message srv) !! w = Some (mkSocket OPEN (sent sock ++ [message])).
Proof.
  intros L R. unfold sendMessage. rewrite L, R. simpl. rewrite lookup_insert_eq.
  reflexivity.
Qed.

(** Sending to a list of clients none of which owns socket [w]. *)
Lemma send_all_other w message (cs : list Client) : forall srv,
  Forall (fun c => ws c <> w) cs ->
  sockets (fold_left (fun srv c => sendMessage (ws c) message srv) cs srv) !! w
  = sockets srv !! w.
Proof.
  induction cs as [|c cs IH]; intros srv F; [reflexivity|].
  inversion F as [|? ? Hc Hcs]; subst. simpl.
  rewrite IH by exact Hcs. apply sendMessage_other. exact Hc.
Qed.

Lemma elem_of_registered c srv :
  c ∈ registered srv <->
  exists d ref, clients srv !! d = Some ref /\ objects srv !! ref = Some c.
Proof.
  unfold registered. rewrite list_elem_of_omap. split.
  - intros ([d ref] & Hin & Hc). apply elem_of_map_to_list in Hin. eauto.
  - intros (d & ref & Hd & Hc). exists (d, ref). split; [|exact Hc].
    apply elem_of_map_to_list. exact Hd.
Qed.

Lemma broadcast_frame message srv :
  clients (broadcast message srv) = clients srv
  /\ objects (broadcast message srv) = objects srv.
Proof.
  unfold broadcast. generalize (registered srv). intros cs. revert srv.
  induction cs as [|c cs IH]; intros srv; [auto|]. simpl.
  destruct (IH (sendMessage (ws c) message srv)) as [-> ->].
  destruct (sendMessage_frame (ws c) message srv) as (_ & -> & ->). auto.
Qed.

End ServerFacts.

(** C10.  When a device connects on socket [w1], reconnects on socket
    [w2] (so that its registry entry names the new connection) and the
    old socket then closes, the disconnect handler deletes the entry of
    that device: the replacement connection, whose socket is still
    open, is absent from [getClients()] and its socket receives nothing
    from [broadcast]. *)
Theorem stale_close_unregisters_replacement
    (srv : Server.LiDARWebSocketServer) (w1 w2 : nat) (d : string) (t1 t2 : Z)
    (sock2 : Server.Socket) :
  registry_ok srv ->
  socket_unused w2 srv ->
  w1 <> w2 ->
  Server.sockets srv !! w2 = Some sock2 ->
  Server.readyState sock2 = Server.OPEN ->
  let '(srv1, old) := Server.handleConnection w1 d t1 srv in
  let '(srv2, new) := Server.handleConnection w2 d t2 srv1 in
  let srv3 := Server.socketClosed old srv2 in
  Server.clients srv2 !! d = Some new
  /\ Server.objects srv3 !! new = Some (Server.mkClient w2 d t2 0 0)
  /\ Server.clients srv3 !! d = None
  /\ (forall ci, ci ∈ Server.getClients srv3 -> Server.ci_deviceId ci <> d)
  /\ Server.sockets srv3 !! w2
     = Some (Server.mkSocket Server.OPEN (Server.sent sock2 ++ [Models.Welcome d t2]))
  /\ (forall message,
        Server.sockets (Server.broadcast message srv3) !! w2 = Server.sockets srv3 !! w2).
Proof.
  intros Hok Hfresh Hw Hs2 Hopen.
  unfold Server.handleConnection.
  set (c1 := Server.mkClient w1 d t1 0 0).
  set (c2 := Server.mkClient w2 d t2 0 0).
  set (n := length (Server.objects srv)).
  set (pre1 := Server.mkServer (Server.processor srv) (<[d := n]> (Server.clients srv))
                 (Server.objects srv ++ [c1]) (Server.sockets srv)).
  set (srv1 := Server.sendMessage w1 (Models.Welcome d t1) pre1).
  destruct (sendMessage_frame w1 (Models.Welcome d t1) pre1) as (P1 & C1 & O1).
  fold srv1 in P1, C1, O1.
  assert (L1 : length (Server.objects srv1) = S n).
  { rewrite O1. simpl. rewrite length_app. simpl. lia. }
  rewrite L1.
  set (pre2 := Server.mkServer (Server.processor srv1) (<[d := S n]> (Server.clients srv1))
                 (Server.objects srv1 ++ [c2]) (Server.sockets srv1)).
  set (srv2 := Server.sendMessage w2 (Models.Welcome d t2) pre2).
  destruct (sendMessage_frame w2 (Models.Welcome d t2) pre2) as (P2 & C2 & O2).
  fold srv2 in P2, C2, O2.
  assert (S1 : Server.sockets srv1 !! w2 = Some sock2).
  { unfold srv1. rewrite sendMessage_other by exact Hw. exact Hs2. }
  assert (S2 : Server.sockets srv2 !! w2
               = Some (Server.mkSocket Server.OPEN (Server.sent sock2 ++ [Models.Welcome d t2]))).
  { unfold srv2. apply sendMessage_open; [exact S1|exact Hopen]. }
  assert (Obj : Server.objects srv2 = Server.objects srv ++ [c1; c2]).
  { rewrite O2. unfold pre2. simpl. rewrite O1. unfold pre1. simpl.
    rewrite <- app_assoc. reflexivity. }
  assert (Cl : Server.clients srv2 = <[d := S n]> (<[d := n]> (Server.clients srv))).
  { rewrite C2. unfold pre2. simpl. rewrite C1. reflexivity. }
  assert (Old : Server.objects srv2 !! n = Some c1).
  { rewrite Obj. rewrite lookup_app_r by (unfold n; lia).
    replace (n - length (Server.objects srv))%nat with 0%nat by (unfold n; lia).
    reflexivity. }
  assert (New : Server.objects srv2 !! S n = Some c2).
  { rewrite Obj. rewrite lookup_app_r by (unfold n; lia).
    replace (S n - length (Server.objects srv))%nat with 1%nat by (unfold n; lia).
    reflexivity. }
  cbn zeta. unfold Server.socketClosed. rewrite Old.
  unfold Server.handleDisconnect. cbn [Server.objects Server.with_sockets]. rewrite Old.
  cbn [Server.clients Server.objects Server.sockets Server.with_sockets Server.deviceId c1].
  split; [rewrite Cl; apply lookup_insert_eq|].
  split; [exact New|].
  split; [apply lookup_delete_eq|].
  set (srv3 := Server.mkServer _ _ _ _).
  assert (Reg : forall c, c ∈ Server.registered srv3 ->
                Server.deviceId c <> d /\ Server.ws c <> w2).
  { intros c Hc. apply elem_of_registered in Hc as (d' & ref & Hd & Hr).
    unfold srv3 in Hd, Hr. simpl in Hd, Hr.
    destruct (decide (d = d')) as [->|Hne]; [rewrite lookup_delete_eq in Hd; discriminate|].
    rewrite lookup_delete_ne in Hd by exact Hne.
    rewrite Cl in Hd. rewrite !lookup_insert_ne in Hd by exact Hne.
    destruct (Hok d' ref Hd) as (c' & Hc' & Hdev).
    assert (Hr' : Server.objects srv2 !! ref = Some c').
    { rewrite Obj. apply lookup_app_l_Some. exact Hc'. }
    rewrite Hr' in Hr. injection Hr as <-.
    split; [congruence|]. eapply Hfresh; eassumption. }
  split.
  { intros ci Hci. unfold Server.getClients in Hci.
    apply list_elem_of_fmap in Hci as (c & -> & Hc). simpl. apply Reg. exact Hc. }
  split.
  { unfold srv3. simpl. rewrite lookup_alter_ne by exact Hw. exact S2. }
  intros message. unfold Server.broadcast. apply send_all_other.
  apply Forall_forall. intros c Hc. apply Reg. exact Hc.
Qed.

Lemma stale_close_unregisters_replacement_witness :
  let '(srv1, old) := Server.handleConnection 1 "device-1" 10 idleServer in
  let '(srv2, new) := Server.handleConnection 2 "device-1" 20 srv1 in
  let srv3 := Server.socketClosed old srv2 in
  Server.clients srv2 !! "device-1" = Some new
  /\ Server.objects srv3 !! new = Some (Server.mkClient 2 "device-1" 20 0 0)
  /\ Server.clients srv3 !! "device-1" = None
  /\ (forall ci, ci ∈ Server.getClients srv3 -> Server.ci_deviceId ci <> "device-1")
  /\ Server.sockets srv3 !! 2%nat
     = Some (Server.mkSocket Server.OPEN
               (Server.sent openSocket ++ [Models.Welcome "device-1" 20]))
  /\ (forall message,
        Server.sockets (Server.broadcast message srv3) !! 2%nat
        = Server.sockets srv3 !! 2%nat).
Proof.
  apply (stale_close_unregisters_replacement idleServer 1 2 "device-1" 10 20 openSocket).
  - intros d ref H. simpl in H. rewrite lookup_empty in H. discriminate.
  - intros d ref c H. simpl in H. rewrite lookup_empty in H. discriminate.
  - lia.
  - reflexivity.
  - reflexivity.
Defined.

Section MessageFacts.
Import Models Server.

Lemma submit_frame scan p p' accepted :
  Processor.submit scan p = Some (p', accepted) ->
  Processor.fileWriter p' = Processor.fileWriter p
  /\ Processor.db p' = Processor.db p
  /\ Processor.isShuttingDown p' = Processor.isShuttingDown p
  /\ accepted = match Processor.validateScan scan with
                | Some true => (Buffer.enqueue scan (Processor.buffer p)).1.2
                | _ => false
                end
  /\ (accepted = true ->
      Buffer.queue (Processor.buffer p') = Buffer.queue (Processor.buffer p) ++ [scan]).
Proof.
  unfold Processor.submit.
  destruct (Processor.validateScan scan) as [[|]|]; [|intros [= <- <-]|discriminate].
  - pose proof (enqueue_cases scan (Processor.buffer p)) as C. simpl.
    destruct (Buffer.enqueue scan (Processor.buffer p)) as [[b ok] sig]. simpl.
    intros [= <- <-]. cbn zeta in C.
    destruct C as [(_ & -> & _)|[(_ & _ & -> & _)|(_ & _ & -> & Q & _)]]; simpl;
      repeat split; try discriminate. intros _. exact Q.
  - repeat split. discriminate.
Qed.

(** [enqueue] accepts exactly when both limits leave room. *)
Lemma enqueue_accepts scan b :
  (Buffer.enqueue scan b).1.2
  = (Buffer.currentMemoryBytes b + Buffer.estimateScanSize scan <=? Buffer.maxMemoryBytes b)
    && (Buffer.size b <? Buffer.maxQueueSize b).
Proof.
  pose proof (enqueue_cases scan b) as C. cbn zeta in C.
  destruct (Buffer.enqueue scan b) as [[b' ok] sig]. simpl.
  destruct C as [(M & -> & _)|[(M & Q & -> & _)|(M & Q & -> & _)]]; symmetry.
  - apply andb_false_iff. left. apply Z.leb_gt. lia.
  - apply andb_false_iff. right. apply Z.ltb_ge. lia.
  - apply andb_true_iff. split; [apply Z.leb_le|apply Z.ltb_lt]; lia.
Qed.

(** [submit] in full: it throws exactly when validation throws, and
    otherwise returns whether the scan is valid and was enqueued,
    touching nothing but the counters and the queue. *)
Lemma submit_outcome scan p :
  match Processor.validateScan scan with
  | None => Processor.submit scan p = None
  | Some valid =>
      let accepted := valid && (Buffer.enqueue scan (Processor.buffer p)).1.2 in
      exists p',
        Processor.submit scan p = Some (p', accepted)
        /\ Processor.fileWriter p' = Processor.fileWriter p
        /\ Processor.db p' = Processor.db p
        /\ Processor.processingInterval p' = Processor.processingInterval p
        /\ Processor.isShuttingDown p' = Processor.isShuttingDown p
        /\ Buffer.queue (Processor.buffer p')
           = (if accepted then Buffer.queue (Processor.buffer p) ++ [scan]
              else Buffer.queue (Processor.buffer p))
  end.
Proof.
  unfold Processor.submit.
  destruct (Processor.validateScan scan) as [[|]|]; [| |reflexivity].
  - pose proof (enqueue_cases scan (Processor.buffer p)) as C. cbn zeta in C. cbn zeta.
    change (Processor.buffer
              (Processor.with_stats (Processor.count_received (Processor.stats p)) p))
      with (Processor.buffer p).
    destruct (Buffer.enqueue scan (Processor.buffer p)) as [[b ok] sig]. simpl.
    destruct C as [(_ & -> & Q & _)|[(_ & _ & -> & Q & _)|(_ & _ & -> & Q & _)]];
      eexists; (split; [reflexivity|]); simpl; auto 10.
  - cbn zeta. exists p. simpl. auto 10.
Qed.

Lemma sendMessage_sockets w message srv :
  sockets (sendMessage w message srv)
  = match sockets srv !! w with
    | Some sock =>
        match readyState sock with
        | OPEN => <[w := mkSocket OPEN (sent sock ++ [message])]> (sockets srv)
        | _ => sockets srv
        end
    | None => sockets srv
    end.
Proof.
  unfold sendMessage. destruct (sockets srv !! w) as [sock|]; [|reflexivity].
  destruct (readyState sock) eqn:R; try reflexivity.
Qed.

(** [handleMessage] in full: the one message it sends, where it sends
    it, and what it leaves in the queue. *)
Lemma handleMessage_outcome srv ref client receiveTime decoded :
  objects srv !! ref = Some client ->
  let p := processor srv in
  let srv' := handleMessage ref receiveTime decoded srv in
  let p' := processor srv' in
  exists reply,
    match decoded with
    | None =>
        reply = Error "Failed to process scan"
        /\ Buffer.queue (Processor.buffer p') = Buffer.queue (Processor.buffer p)
    | Some scan =>
        let scan' := backfillDeviceId client scan in
        if String.eqb (Models.deviceId scan') (deviceId client) then
          match Processor.validateScan scan' with
          | None =>
              reply = Error "Failed to process scan"
              /\ Buffer.queue (Processor.buffer p') = Buffer.queue (Processor.buffer p)
          | Some valid =>
              let accepted := valid && (Buffer.enqueue scan' (Processor.buffer p)).1.2 in
              reply = Ack (mkAck (scanId scan') receiveTime accepted)
              /\ Buffer.queue (Processor.buffer p')
                 = (if accepted then Buffer.queue (Processor.buffer p) ++ [scan']
                    else Buffer.queue (Processor.buffer p))
          end
        else
          reply = Error "Device ID mismatch"
          /\ Buffer.queue (Processor.buffer p') = Buffer.queue (Processor.buffer p)
    end
    /\ sockets srv'
       = match sockets srv !! ws client with
         | Some sock =>
             match readyState sock with
             | OPEN => <[ws client := mkSocket OPEN (sent sock ++ [reply])]> (sockets srv)
             | _ => sockets srv
             end
         | None => sockets srv
         end
    /\ clients srv' = clients srv
    /\ Processor.fileWriter p' = Processor.fileWriter p
    /\ Processor.db p' = Processor.db p
    /\ Processor.processingInterval p' = Processor.processingInterval p
    /\ Processor.isShuttingDown p' = Processor.isShuttingDown p.
Proof.
  intros Hobj. cbn zeta. unfold handleMessage. rewrite Hobj.
  assert (forall message,
            let s := sendError (ws client) message srv in
            Buffer.queue (Processor.buffer (processor s))
            = Buffer.queue (Processor.buffer (processor srv))
            /\ sockets s
               = match sockets srv !! ws client with
                 | Some sock =>
                     match readyState sock with
                     | OPEN => <[ws client := mkSocket OPEN (sent sock ++ [Error message])]>
                                 (sockets srv)
                     | _ => sockets srv
                     end
                 | None => sockets srv
                 end
            /\ clients s = clients srv
            /\ Processor.fileWriter (processor s) = Processor.fileWriter (processor srv)
            /\ Processor.db (processor s) = Processor.db (processor srv)
            /\ Processor.processingInterval (processor s)
               = Processor.processingInterval (processor srv)
            /\ Processor.isShuttingDown (processor s)
               = Processor.isShuttingDown (processor srv)) as Err.
  { intros message. cbn zeta. unfold sendError. rewrite sendMessage_sockets.
    destruct (sendMessage_frame (ws client) (Error message) srv) as (-> & -> & _).
    auto 10. }
  destruct decoded as [scan|].
  2: { eexists. split; [split; [reflexivity|]|]; apply Err. }
  cbn zeta.
  destruct (String.eqb (Models.deviceId (backfillDeviceId client scan)) (deviceId client));
    cbn [negb].
  2: { eexists. split; [split; [reflexivity|]|]; apply Err. }
  pose proof (submit_outcome (backfillDeviceId client scan) (processor srv)) as S.
  destruct (Processor.validateScan (backfillDeviceId client scan)) as [valid|].
  2: { rewrite S. eexists. split; [split; [reflexivity|]|]; apply Err. }
  cbn zeta in S. destruct S as (p' & -> & F & D & I & H & Q).
  eexists. rewrite sendMessage_sockets.
  match goal with |- context [sendMessage ?w ?m ?s] =>
    destruct (sendMessage_frame w m s) as (-> & -> & _)
  end. simpl. auto 10.
Qed.

Lemma tl_drop {A} (n : nat) (l : list A) : tl (drop n l) = drop (S n) l.
Proof.
  revert l. induction n as [|n IH]; intros [|x l]; try reflexivity.
  change (tl (drop n l) = drop (S n) l). apply IH.
Qed.

Lemma processScan_control pf scan p :
  Processor.buffer (Processor.processScan pf scan p) = Processor.buffer p
  /\ Processor.processingInterval (Processor.processScan pf scan p)
     = Processor.processingInterval p
  /\ Processor.isShuttingDown (Processor.processScan pf scan p)
     = Processor.isShuttingDown p.
Proof.
  unfold Processor.processScan.
  destruct (FileStore.writeScan pf scan (Processor.fileWriter p)) as [fw [[path sz]|]];
    [|auto].
  destruct (Database.insertScan _ (Processor.db p)) as [db' ok]. auto.
Qed.

(** A firing of the timer of a running processor takes the head of the
    queue. *)
Lemma tick_running pf p :
  Processor.processingInterval p <> None -> Processor.isShuttingDown p = false ->
  Buffer.queue (Processor.buffer (Processor.tick pf p)) = tl (Buffer.queue (Processor.buffer p))
  /\ Processor.processingInterval (Processor.tick pf p) = Processor.processingInterval p
  /\ Processor.isShuttingDown (Processor.tick pf p) = false.
Proof.
  intros I S. unfold Processor.tick.
  destruct (Processor.processingInterval p) as [t|] eqn:E; [|congruence].
  unfold Processor.processNext. rewrite S. unfold Buffer.dequeue.
  destruct (Buffer.queue (Processor.buffer p)) as [|scan rest] eqn:Q.
  - rewrite Q. auto.
  - match goal with |- context [Processor.processScan pf scan ?q] =>
      destruct (processScan_control pf scan q) as (-> & -> & ->)
    end. simpl. auto.
Qed.

(** Firings of the timer send nothing, and those of a running processor
    take one scan each from the head of the queue. *)
Lemma ticks_later pf n srv :
  let later := Nat.iter n (Server.tick pf) srv in
  sockets later = sockets srv
  /\ (Processor.processingInterval (processor srv) <> None ->
      Processor.isShuttingDown (processor srv) = false ->
      Buffer.queue (Processor.buffer (processor later))
      = drop n (Buffer.queue (Processor.buffer (processor srv)))
      /\ Processor.processingInterval (processor later)
         = Processor.processingInterval (processor srv)
      /\ Processor.isShuttingDown (processor later) = false).
Proof.
  cbn zeta. induction n as [|n [IHs IHq]]; [auto|].
  change (Nat.iter (S n) (Server.tick pf) srv)
    with (Server.tick pf (Nat.iter n (Server.tick pf) srv)).
  split; [exact IHs|]. intros I S. destruct (IHq I S) as (Q & I' & S').
  destruct (tick_running pf (processor (Nat.iter n (Server.tick pf) srv)))
    as (Q2 & I2 & S2); [congruence|exact S'|].
  cbn [Server.tick processor]. rewrite Q2, I2, Q, tl_drop. auto.
Qed.

End MessageFacts.

(** C2, as the code has it.  The acknowledgment is sent by
    [handleMessage] itself, as soon as [submit] has returned: handling a
    frame touches neither the blob store nor the metadata store.  It is
    sent for every frame that decodes, carries the connection's device
    identifier (its own or the back-filled one) and on which validation
    does not throw, on the connection's socket if that is open; its
    [stored] field is the result of [submit], true exactly when
    validation passed and [enqueue] accepted the scan, which is then at
    the tail of the queue.  A frame that does not decode or makes
    validation throw is answered with the error [Failed to process scan]
    and a frame that names another device with [Device ID mismatch],
    without acknowledgment.  The firings of the timer that later take
    the scans from the queue and store them send nothing on any socket,
    whatever the server handled in between. *)
Theorem ack_reports_queue_admission
    (srv : Server.LiDARWebSocketServer) (ref : nat) (client : Server.Client)
    (receiveTime : Z) (decoded : option Models.LiDARScan) :
  Server.objects srv !! ref = Some client ->
  let p := Server.processor srv in
  let srv' := Server.handleMessage ref receiveTime decoded srv in
  let p' := Server.processor srv' in
  exists reply : Models.WSMessage,
    match decoded with
    | None =>
        reply = Models.Error "Failed to process scan"
        /\ Buffer.queue (Processor.buffer p') = Buffer.queue (Processor.buffer p)
    | Some scan =>
        let scan' := Server.backfillDeviceId client scan in
        if String.eqb (Models.deviceId scan') (Server.deviceId client) then
          match Processor.validateScan scan' with
          | None =>
              reply = Models.Error "Failed to process scan"
              /\ Buffer.queue (Processor.buffer p') = Buffer.queue (Processor.buffer p)
          | Some valid =>
              let accepted := valid && (Buffer.enqueue scan' (Processor.buffer p)).1.2 in
              reply = Models.Ack (Models.mkAck (Models.scanId scan') receiveTime accepted)
              /\ Buffer.queue (Processor.buffer p')
                 = (if accepted then Buffer.queue (Processor.buffer p) ++ [scan']
                    else Buffer.queue (Processor.buffer p))
          end
        else
          reply = Models.Error "Device ID mismatch"
          /\ Buffer.queue (Processor.buffer p') = Buffer.queue (Processor.buffer p)
    end
    /\ Server.sockets srv'
       = match Server.sockets srv !! Server.ws client with
         | Some sock =>
             match Server.readyState sock with
             | Server.OPEN =>
                 <[Server.ws client := Server.mkSocket Server.OPEN (Server.sent sock ++ [reply])]>
                   (Server.sockets srv)
             | _ => Server.sockets srv
             end
         | None => Server.sockets srv
         end
    /\ Processor.fileWriter p' = Processor.fileWriter p
    /\ Processor.db p' = Processor.db p
    /\ forall (pf : FileStore.Platform) (n : nat),
         let later := Nat.iter n (Server.tick pf) srv' in
         Server.sockets later = Server.sockets srv'
         /\ (Processor.processingInterval p <> None ->
             Processor.isShuttingDown p = false ->
             Buffer.queue (Processor.buffer (Server.processor later))
             = drop n (Buffer.queue (Processor.buffer p')))
         /\ forall (API_KEY : string) (evs : list ServerEvent),
              let busy := serverRun API_KEY pf evs srv' in
              Server.sockets (Server.tick pf busy) = Server.sockets busy.
Proof.
  intros Hobj p srv' p'.
  destruct (handleMessage_outcome srv ref client receiveTime decoded Hobj)
    as (reply & R & S & _ & F & D & I & H).
  exists reply. split; [exact R|]. split; [exact S|]. split; [exact F|]. split; [exact D|].
  intros pf n. destruct (ticks_later pf n srv') as (Sl & Q).
  split; [exact Sl|]. split; [|reflexivity]. intros Hi Hs. apply Q.
  - unfold srv'. rewrite I. exact Hi.
  - unfold srv'. rewrite H. exact Hs.
Qed.

Lemma ack_reports_queue_admission_witness :
  let scan' := sampleScan "scan-a" 1000 50 in
  let p := Server.processor connectedServer in
  let srv' := Server.handleMessage 0 99 (Some scan') connectedServer in
  let p' := Server.processor srv' in
  exists reply : Models.WSMessage,
    (reply = Models.Ack (Models.mkAck "scan-a" 99 true)
     /\ Buffer.queue (Processor.buffer p') = Buffer.queue (Processor.buffer p) ++ [scan'])
    /\ Server.sockets srv'
       = <[1%nat := Server.mkSocket Server.OPEN ([Models.Welcome "device-1" 10] ++ [reply])]>
           (Server.sockets connectedServer)
    /\ Processor.fileWriter p' = Processor.fileWriter p
    /\ Processor.db p' = Processor.db p
    /\ forall (pf : FileStore.Platform) (n : nat),
         let later := Nat.iter n (Server.tick pf) srv' in
         Server.sockets later = Server.sockets srv'
         /\ (Processor.processingInterval p <> None ->
             Processor.isShuttingDown p = false ->
             Buffer.queue (Processor.buffer (Server.processor later))
             = drop n (Buffer.queue (Processor.buffer p')))
         /\ forall (API_KEY : string) (evs : list ServerEvent),
              let busy := serverRun API_KEY pf evs srv' in
              Server.sockets (Server.tick pf busy) = Server.sockets busy.
Proof.
  apply (ack_reports_queue_admission connectedServer 0
           (Server.mkClient 1 "device-1" 10 0 0) 99 (Some (sampleScan "scan-a" 1000 50))).
  reflexivity.
Defined.

(** C2 fails as stated: the acknowledgment of an accepted scan says
    [stored: true] while no blob has been written and no row inserted,
    and when the blob write then fails the scan is lost and nothing
    further is sent: the acknowledgment reflected queue admission, not
    the outcome of the storage steps. *)
Lemma ack_precedes_storage :
  let srv1 := Server.handleMessage 0 99 (Some (sampleScan "scan-a" 1000 50))
                connectedServer in
  let srv2 := Server.tick fullDiskPlatform srv1 in
  Server.sent <$> Server.sockets srv1 !! 1%nat
    = Some [Models.Welcome "device-1" 10; Models.Ack (Models.mkAck "scan-a" 99 true)]
  /\ size (Database.scans (Processor.db (Server.processor srv1))) = 0%nat
  /\ size (FileStore.files (Processor.fileWriter (Server.processor srv1))) = 0%nat
  /\ Buffer.size (Processor.buffer (Server.processor srv1)) = 1
  /\ Processor.failed (Processor.stats (Server.processor srv2)) = 1
  /\ Processor.processed (Processor.stats (Server.processor srv2)) = 0
  /\ Buffer.size (Processor.buffer (Server.processor srv2)) = 0
  /\ size (Database.scans (Processor.db (Server.processor srv2))) = 0%nat
  /\ size (FileStore.files (Processor.fileWriter (Server.processor srv2))) = 0%nat
  /\ Server.sockets srv2 = Server.sockets srv1.
Proof. vm_compute. repeat split. Qed.

(** C8, as the code has it.  A frame that decodes, carries the
    connection's device identifier (its own or the back-filled one) and
    gets through [submit] without an exception increments
    [scansReceived] and sets [lastScanAt] to the receive time, whether
    validation rejected it, the queue dropped it or it was accepted.  A
    frame that fails to decode, names another device, or makes
    validation throw leaves the connection record as it was. *)
Theorem handleMessage_counts_submitted_frames
    (srv : Server.LiDARWebSocketServer) (ref : nat) (client : Server.Client)
    (receiveTime : Z) (decoded : option Models.LiDARScan) :
  Server.objects srv !! ref = Some client ->
  let srv' := Server.handleMessage ref receiveTime decoded srv in
  let counted :=
    Server.mkClient (Server.ws client) (Server.deviceId client) (Server.connectedAt client)
      (Server.scansReceived client + 1) receiveTime in
  match decoded with
  | None => Server.objects srv' !! ref = Some client
  | Some scan =>
      let scan' := Server.backfillDeviceId client scan in
      if String.eqb (Models.deviceId scan') (Server.deviceId client) then
        match Processor.validateScan scan' with
        | Some _ => Server.objects srv' !! ref = Some counted
        | None => Server.objects srv' !! ref = Some client
        end
      else Server.objects srv' !! ref = Some client
  end.
Proof.
  intros Hobj srv' counted. unfold srv', Server.handleMessage. rewrite Hobj.
  assert (Hin : (ref < length (Server.objects srv))%nat)
    by (apply lookup_lt_Some in Hobj; exact Hobj).
  destruct decoded as [scan|]; cbn zeta.
  - destruct (String.eqb (Models.deviceId (Server.backfillDeviceId client scan))
                (Server.deviceId client)); simpl.
    + destruct (Processor.validateScan (Server.backfillDeviceId client scan))
        as [v|] eqn:V.
      * destruct (Processor.submit (Server.backfillDeviceId client scan)
                    (Server.processor srv)) as [[p accepted]|] eqn:S.
        -- rewrite sendMessage_objects. simpl. apply list_lookup_insert_eq. exact Hin.
        -- unfold Processor.submit in S. rewrite V in S.
           destruct v; [|discriminate].
           destruct (Buffer.enqueue _ _) as [[b ok] sig]. discriminate.
      * unfold Processor.submit. rewrite V.
        unfold Server.sendError. rewrite sendMessage_objects. exact Hobj.
    + unfold Server.sendError. rewrite sendMessage_objects. exact Hobj.
  - unfold Server.sendError. rewrite sendMessage_objects. exact Hobj.
Qed.

Lemma handleMessage_counts_submitted_frames_witness :
  Processor.validateScan
    (Server.backfillDeviceId (Server.mkClient 1 "device-1" 10 0 0) emptyPointsScan)
  = Some false
  /\ Server.objects (Server.handleMessage 0 99 (Some emptyPointsScan) connectedServer) !! 0%nat
     = Some (Server.mkClient 1 "device-1" 10 1 99).
Proof.
  split; [reflexivity|].
  exact (handleMessage_counts_submitted_frames connectedServer 0
           (Server.mkClient 1 "device-1" 10 0 0) 99 (Some emptyPointsScan) eq_refl).
Defined.

(** C8 fails as stated: a frame that does not decode and a frame that
    names another device are answered with an error envelope and leave
    [scansReceived] at 0 and [lastScanAt] at 0, although they were
    received at time 99. *)
Lemma undecodable_and_foreign_frames_not_counted :
  let srvA := Server.handleMessage 0 99 None connectedServer in
  let srvB := Server.handleMessage 0 99 (Some foreignScan) connectedServer in
  Server.objects connectedServer !! 0%nat = Some (Server.mkClient 1 "device-1" 10 0 0)
  /\ Server.objects srvA !! 0%nat = Some (Server.mkClient 1 "device-1" 10 0 0)
  /\ Server.sent <$> Server.sockets srvA !! 1%nat
     = Some [Models.Welcome "device-1" 10; Models.Error "Failed to process scan"]
  /\ Server.objects srvB !! 0%nat = Some (Server.mkClient 1 "device-1" 10 0 0)
  /\ Server.sent <$> Server.sockets srvB !! 1%nat
     = Some [Models.Welcome "device-1" 10; Models.Error "Device ID mismatch"]
  /\ Server.scansReceived <$> Server.objects srvA !! 0%nat <> Some 1
  /\ Server.lastScanAt <$> Server.objects srvB !! 0%nat <> Some 99.
Proof. vm_compute. repeat split; discriminate. Qed.

(** * Further properties of the buffer *)
Section BufferOrderAndStats.
Import Models Buffer.

Lemma enqueueAll_queue scans : forall b,
  queue (enqueueAll scans b).1 = queue b ++ (enqueueAll scans b).2.
Proof.
  induction scans as [|scan rest IH]; intros b; simpl.
  - rewrite app_nil_r. reflexivity.
  - pose proof (enqueue_cases scan b) as C.
    destruct (enqueue scan b) as [[b1 ok] sig]. cbn zeta in C.
    specialize (IH b1). destruct (enqueueAll rest b1) as [b2 accepted]. simpl in *.
    rewrite IH.
    destruct C as [(_ & -> & Q & _)|[(_ & _ & -> & Q & _)|(_ & _ & -> & Q & _)]];
      rewrite Q; [reflexivity|reflexivity|].
    rewrite <- app_assoc. reflexivity.
Qed.

(** Whatever [dequeue] preserves, the drain loop preserves. *)
Lemma drain_loop_preserves (P : BufferManager -> Prop) :
  (forall b, P b -> P (dequeue b).1) ->
  forall n b b' l, P b -> drain_loop n b = Some (b', l) -> P b'.
Proof.
  intros Hd. induction n as [|n IH]; intros b b' l HP; simpl.
  - destruct (isEmpty b); [|discriminate]. intros [= <- _]. exact HP.
  - destruct (isEmpty b); [intros [= <- _]; exact HP|].
    specialize (Hd b HP). destruct (dequeue b) as [b1 o]. simpl in Hd.
    destruct (drain_loop n b1) as [r|] eqn:D; [destruct r as [b2 rest]|discriminate].
    intros E. injection E as <- _. eapply IH; [exact Hd|exact D].
Qed.

Lemma enqueue_stats scan b :
  let '(b', ok, _) := enqueue scan b in
  received (stats b') = received (stats b) + 1
  /\ processed (stats b') = processed (stats b)
  /\ dropped (stats b') = dropped (stats b) + (if ok then 0 else 1)
  /\ size b' = size b + (if ok then 1 else 0).
Proof.
  unfold enqueue. cbn zeta.
  destruct (_ >? _); [simpl; unfold size; simpl; repeat split; lia|].
  destruct (_ >=? _); [simpl; unfold size; simpl; repeat split; lia|].
  unfold size. simpl. rewrite length_app. simpl. repeat split; lia.
Qed.

Lemma enqueue_balance scan b : stats_balance b -> stats_balance (enqueue scan b).1.1.
Proof.
  unfold stats_balance. intros B. pose proof (enqueue_stats scan b) as S.
  destruct (enqueue scan b) as [[b' ok] sig]. simpl.
  destruct S as (R & P & D & Z). destruct ok; lia.
Qed.

Lemma dequeue_balance b : stats_balance b -> stats_balance (dequeue b).1.
Proof.
  unfold stats_balance, dequeue, size. intros B.
  destruct (queue b) as [|scan rest] eqn:Q; simpl; rewrite ?Q in *;
    simpl length in *; lia.
Qed.

Lemma calls_balance cs : forall b,
  no_clear cs -> stats_balance b -> stats_balance (calls b cs).
Proof.
  induction cs as [|c cs IH]; intros b N B; [exact B|].
  inversion N as [|? ? Hc Hcs]; subst.
  change (calls b (c :: cs)) with (calls (call b c) cs). apply IH; [exact Hcs|].
  destruct c as [scan| | |]; simpl.
  - apply enqueue_balance, B.
  - apply dequeue_balance, B.
  - destruct (drain b) as [[b' l]|] eqn:D; [|exact B].
    eapply (drain_loop_preserves stats_balance); [apply dequeue_balance|exact B|exact D].
  - congruence.
Qed.

Lemma enqueue_peaks scan b : peaks_ok b -> peaks_ok (enqueue scan b).1.1.
Proof.
  unfold peaks_ok, enqueue. cbn zeta. intros (Q & M & L).
  pose proof (estimateScanSize_pos scan).
  destruct (Z.gtb_spec (currentMemoryBytes (count_received b) + estimateScanSize scan)
              (maxMemoryBytes (count_received b))) as [G|G];
    [unfold size in *; simpl; lia|].
  destruct (Z.geb_spec (size (count_received b)) (maxQueueSize (count_received b)))
    as [G'|G']; [unfold size in *; simpl; lia|].
  unfold size in *. simpl in *. rewrite length_app. simpl.
  destruct (Z.gtb_spec (Z.of_nat (length (queue b) + 1)) (peakQueueSize (stats b)));
    destruct (Z.gtb_spec (currentMemoryBytes b + estimateScanSize scan)
                (peakMemoryBytes (stats b))); lia.
Qed.

Lemma dequeue_peaks b : peaks_ok b -> peaks_ok (dequeue b).1.
Proof.
  unfold peaks_ok, dequeue, size. intros (Q & M & L).
  destruct (queue b) as [|scan rest] eqn:E; simpl; [rewrite E; simpl; lia|].
  pose proof (estimateScanSize_pos scan). simpl length in Q. lia.
Qed.

Lemma calls_peaks cs : forall b, peaks_ok b -> peaks_ok (calls b cs).
Proof.
  induction cs as [|c cs IH]; intros b B; [exact B|].
  change (calls b (c :: cs)) with (calls (call b c) cs). apply IH.
  destruct c as [scan| | |]; simpl.
  - apply enqueue_peaks, B.
  - apply dequeue_peaks, B.
  - destruct (drain b) as [[b' l]|] eqn:D; [|exact B].
    eapply (drain_loop_preserves peaks_ok); [apply dequeue_peaks|exact B|exact D].
  - unfold peaks_ok, clear, size in *. simpl. lia.
Qed.

End BufferOrderAndStats.

(** X1.  The queue is first-in first-out: after any run of [enqueue]
    calls on any buffer, draining yields the scans that were already
    queued followed by the scans [enqueue] accepted, in call order, and
    leaves the queue empty. *)
Theorem drain_yields_accepted_in_order
    (b0 : Buffer.BufferManager) (scans : list Models.LiDARScan) :
  let '(b, accepted) := enqueueAll scans b0 in
  exists b', Buffer.drain b = Some (b', Buffer.queue b0 ++ accepted)
    /\ Buffer.size b' = 0.
Proof.
  pose proof (enqueueAll_queue scans b0) as Q.
  destruct (enqueueAll scans b0) as [b accepted]. simpl in Q.
  destruct (drain_total b) as (b' & D & E & _).
  exists b'. rewrite D, Q. split; [reflexivity|].
  unfold Buffer.size. rewrite E. reflexivity.
Qed.

(** X2.  As long as [clear()] is not called, the statistics balance:
    [received = dropped + processed + size()] after any sequence of
    enqueue, dequeue and drain calls from the empty queue. *)
Theorem buffer_stats_balance (maxCount maxBytes : Z) (cs : list Buffer.Call) :
  no_clear cs ->
  let b := Buffer.calls (Buffer.init maxCount maxBytes) cs in
  Buffer.received (Buffer.stats b)
  = Buffer.dropped (Buffer.stats b) + Buffer.processed (Buffer.stats b) + Buffer.size b.
Proof.
  intros N. apply (calls_balance cs (Buffer.init maxCount maxBytes) N). reflexivity.
Qed.

Lemma buffer_stats_balance_witness :
  let b := Buffer.calls (Buffer.init 1 3000)
             [Buffer.CallEnqueue (sampleScan "a" 1 50);
              Buffer.CallEnqueue (sampleScan "b" 2 10);
              Buffer.CallDequeue; Buffer.CallDrain] in
  Buffer.received (Buffer.stats b)
  = Buffer.dropped (Buffer.stats b) + Buffer.processed (Buffer.stats b) + Buffer.size b.
Proof.
  apply (buffer_stats_balance 1 3000).
  repeat constructor; discriminate.
Defined.

(** X3.  For non-negative limits, after any sequence of calls from the
    empty queue the recorded peaks are at least the current queue length
    and byte total and never exceed [maxQueueSize] and
    [maxMemoryBytes]. *)
Theorem buffer_peaks_within_limits (maxCount maxBytes : Z) (cs : list Buffer.Call) :
  0 <= maxCount -> 0 <= maxBytes ->
  let b := Buffer.calls (Buffer.init maxCount maxBytes) cs in
  Buffer.size b <= Buffer.peakQueueSize (Buffer.stats b) <= maxCount
  /\ Buffer.currentMemoryBytes b <= Buffer.peakMemoryBytes (Buffer.stats b) <= maxBytes.
Proof.
  intros Hc Hb b.
  assert (P0 : peaks_ok (Buffer.init maxCount maxBytes)).
  { unfold peaks_ok, Buffer.size. simpl. lia. }
  pose proof (calls_peaks cs _ P0) as (Q & M & L).
  destruct (calls_preserve cs (Buffer.init maxCount maxBytes)) as ([L1 L2] & _).
  fold b in Q, M, L, L1, L2. simpl in L1, L2. lia.
Qed.

Lemma buffer_peaks_within_limits_witness :
  let b := Buffer.calls (Buffer.init 2 3000)
             [Buffer.CallEnqueue (sampleScan "a" 1 50); Buffer.CallDequeue;
              Buffer.CallEnqueue (sampleScan "b" 2 10)] in
  Buffer.size b <= Buffer.peakQueueSize (Buffer.stats b) <= 2
  /\ Buffer.currentMemoryBytes b <= Buffer.peakMemoryBytes (Buffer.stats b) <= 3000.
Proof. apply (buffer_peaks_within_limits 2 3000); lia. Defined.

(** X4.  [enqueue] raises the backpressure signal exactly when it has
    accepted the scan and the queue is then at least three quarters
    full; the signal carries the ratio of the new length to
    [maxQueueSize], and a rejected scan never raises it. *)
Theorem backpressure_signal_at_three_quarters
    (b : Buffer.BufferManager) (scan : Models.LiDARScan) :
  let '(b', ok, sig) := Buffer.enqueue scan b in
  ((exists level, Buffer.EmitBackpressure level ∈ sig) <->
     ok = true /\ 3 * Buffer.maxQueueSize b <= 4 * Buffer.size b')
  /\ (forall level, Buffer.EmitBackpressure level ∈ sig ->
        level = Qmake (Buffer.size b') (Z.to_pos (Buffer.maxQueueSize b))).
Proof.
  unfold Buffer.enqueue. cbn zeta.
  match goal with |- context [?x >? ?y] => destruct (Z.gtb_spec x y) as [G|G] end.
  { split.
    - split; [intros (level & H)|intros [? _]; discriminate].
      rewrite !elem_of_cons, elem_of_nil in H. intuition discriminate.
    - intros level H. rewrite !elem_of_cons, elem_of_nil in H. intuition discriminate. }
  match goal with |- context [?x >=? ?y] => destruct (Z.geb_spec x y) as [G'|G'] end.
  { split.
    - split; [intros (level & H)|intros [? _]; discriminate].
      rewrite !elem_of_cons, elem_of_nil in H. intuition discriminate.
    - intros level H. rewrite !elem_of_cons, elem_of_nil in H. intuition discriminate. }
  set (b' := Buffer.push_scan scan (Buffer.estimateScanSize scan) (Buffer.count_received b)).
  assert (Hmax : 0 < Buffer.maxQueueSize b).
  { unfold Buffer.size in G'. simpl in G'. lia. }
  assert (Hlevel : Qle_bool (3 # 4) (Buffer.fillLevel b') = true
                   <-> 3 * Buffer.maxQueueSize b <= 4 * Buffer.size b').
  { rewrite Qle_bool_iff. unfold Qle, Buffer.fillLevel. simpl.
    change (Buffer.maxQueueSize b') with (Buffer.maxQueueSize b).
    rewrite Z2Pos.id by exact Hmax. lia. }
  destruct (Qle_bool (3 # 4) (Buffer.fillLevel b')) eqn:E.
  - split.
    + split; [intros _; split; [reflexivity|apply Hlevel; reflexivity]|].
      intros _. eexists. apply list_elem_of_here.
    + intros level H. rewrite !elem_of_cons, elem_of_nil in H.
      destruct H as [H|[H|[]]]; [|discriminate]. injection H as ->. reflexivity.
  - split.
    + split; [intros (level & H); apply elem_of_nil in H; contradiction|].
      intros [_ H]. apply Hlevel in H. discriminate.
    + intros level H. apply elem_of_nil in H. contradiction.
Qed.

(** X5.  A scan whose own estimate exceeds [maxMemoryBytes] is rejected
    in every state reachable from the empty queue: it can never be
    buffered, however empty the queue is. *)
Theorem oversize_scan_never_accepted
    (maxCount maxBytes : Z) (cs : list Buffer.Call) (scan : Models.LiDARScan) :
  maxBytes < Buffer.estimateScanSize scan ->
  let '(b', ok, _) := Buffer.enqueue scan (Buffer.calls (Buffer.init maxCount maxBytes) cs) in
  ok = false
  /\ Buffer.queue b' = Buffer.queue (Buffer.calls (Buffer.init maxCount maxBytes) cs).
Proof.
  intros Hbig.
  destruct (calls_preserve cs (Buffer.init maxCount maxBytes)) as ([_ L] & _ & X).
  assert (X0 : exact_accounting (Buffer.init maxCount maxBytes)) by reflexivity.
  specialize (X X0). unfold exact_accounting in X.
  pose proof (queuedBytes_nonneg
                (Buffer.queue (Buffer.calls (Buffer.init maxCount maxBytes) cs))) as N.
  pose proof (enqueue_cases scan (Buffer.calls (Buffer.init maxCount maxBytes) cs)) as C.
  destruct (Buffer.enqueue scan (Buffer.calls (Buffer.init maxCount maxBytes) cs))
    as [[b' ok] sig].
  cbn zeta in C. simpl in L.
  destruct C as [(_ & -> & Q & _)|[(G & _)|(G & _)]]; [auto|lia|lia].
Qed.

Lemma oversize_scan_never_accepted_witness :
  let '(b', ok, _) := Buffer.enqueue (sampleScan "big" 1 101)
                        (Buffer.calls (Buffer.init 10 3000) [Buffer.CallDrain]) in
  ok = false
  /\ Buffer.queue b' = Buffer.queue (Buffer.calls (Buffer.init 10 3000) [Buffer.CallDrain]).
Proof.
  apply (oversize_scan_never_accepted 10 3000 [Buffer.CallDrain] (sampleScan "big" 1 101)).
  reflexivity.
Defined.

(** X6.  The queue recovers: after draining, in any state reachable
    from the empty queue, a scan whose estimate fits in
    [maxMemoryBytes] is accepted as soon as [maxQueueSize] is at least
    one, whatever was dropped before. *)
Theorem drained_queue_accepts_fitting_scan
    (maxCount maxBytes : Z) (cs : list Buffer.Call) (scan : Models.LiDARScan) :
  1 <= maxCount ->
  Buffer.estimateScanSize scan <= maxBytes ->
  exists b1, Buffer.drain (Buffer.calls (Buffer.init maxCount maxBytes) cs)
             = Some (b1, Buffer.queue (Buffer.calls (Buffer.init maxCount maxBytes) cs))
    /\ let '(b2, ok, _) := Buffer.enqueue scan b1 in
       ok = true /\ Buffer.queue b2 = [scan]
       /\ Buffer.currentMemoryBytes b2 = Buffer.estimateScanSize scan.
Proof.
  intros Hc Hfit.
  destruct (calls_preserve cs (Buffer.init maxCount maxBytes)) as ([L1 L2] & _ & X).
  assert (X0 : exact_accounting (Buffer.init maxCount maxBytes)) by reflexivity.
  specialize (X X0).
  destruct (drain_total (Buffer.calls (Buffer.init maxCount maxBytes) cs))
    as (b1 & D & E & [M1 M2] & _ & X').
  specialize (X' X). unfold exact_accounting in X'. rewrite E in X'. simpl in X'.
  exists b1. split; [exact D|].
  pose proof (enqueue_cases scan b1) as C.
  destruct (Buffer.enqueue scan b1) as [[b2 ok] sig]. cbn zeta in C.
  unfold Buffer.size in C. rewrite E, X', M1, M2, L1, L2 in C. simpl in C.
  destruct C as [(G & _)|[(_ & G & _)|(_ & _ & -> & Q & M)]]; [lia|lia|].
  rewrite Q, M. repeat split.
Qed.

Lemma drained_queue_accepts_fitting_scan_witness :
  exists b1, Buffer.drain (Buffer.calls (Buffer.init 1 3000)
                             [Buffer.CallEnqueue (sampleScan "a" 1 50)])
             = Some (b1, Buffer.queue (Buffer.calls (Buffer.init 1 3000)
                                         [Buffer.CallEnqueue (sampleScan "a" 1 50)]))
    /\ let '(b2, ok, _) := Buffer.enqueue (sampleScan "b" 2 100) b1 in
       ok = true /\ Buffer.queue b2 = [sampleScan "b" 2 100]
       /\ Buffer.currentMemoryBytes b2 = Buffer.estimateScanSize (sampleScan "b" 2 100).
Proof.
  apply (drained_queue_accepts_fitting_scan 1 3000
           [Buffer.CallEnqueue (sampleScan "a" 1 50)] (sampleScan "b" 2 100)).
  - lia.
  - vm_compute. discriminate.
Defined.

(** * Properties of [path.join] *)
Section PathFacts.
Import FileStore.

Lemma string_app_assoc (a b c : string) :
  String.append (String.append a b) c = String.append a (String.append b c).
Proof.
  induction a as [|ch a IH]; [reflexivity|].
  change (String ch (String.append (String.append a b) c)
          = String ch (String.append a (String.append b c))).
  f_equal. exact IH.
Qed.

Lemma string_app_cons ch (a b : string) :
  String.append (String ch a) b = String ch (String.append a b).
Proof. reflexivity. Qed.

Lemma string_app_empty_inv (a b : string) :
  String.append a b = EmptyString -> a = EmptyString /\ b = EmptyString.
Proof. destruct a; [auto|discriminate]. Qed.

(** Segments *)
Lemma segments_cons (s : string) : exists seg more, segments s = seg :: more.
Proof.
  induction s as [|c s (seg & more & E)]; [eexists _, _; reflexivity|].
  cbn [segments]. rewrite E. destruct (Ascii.eqb c "/"); eexists _, _; reflexivity.
Qed.

Lemma segments_app (a b : string) :
  segments (String.append a (String "/" b)) = segments a ++ segments b.
Proof.
  induction a as [|c a IH]; [reflexivity|].
  rewrite string_app_cons. cbn [segments]. rewrite IH.
  destruct (Ascii.eqb c "/"); [reflexivity|].
  destruct (segments_cons a) as (seg & more & E). rewrite E. reflexivity.
Qed.

Lemma segments_noSlash (s : string) : noSlash s = true -> segments s = [s].
Proof.
  induction s as [|c s IH]; [reflexivity|].
  cbn [noSlash segments]. intros H. apply andb_true_iff in H as [H1 H2].
  apply negb_true_iff in H1. rewrite H1, (IH H2). reflexivity.
Qed.

Lemma segments_all_noSlash (s : string) :
  Forall (fun seg => noSlash seg = true) (segments s).
Proof.
  induction s as [|c s IH]; [repeat constructor|].
  cbn [segments]. destruct (Ascii.eqb c "/") eqn:E.
  - constructor; [reflexivity|exact IH].
  - destruct (segments s) as [|seg more]; [repeat constructor; cbn; rewrite E; reflexivity|].
    apply Forall_cons in IH as [H1 H2]. constructor; [|exact H2].
    cbn [noSlash]. rewrite E, H1. reflexivity.
Qed.

Lemma unsegments_cons (seg : string) (rest : list string) :
  rest <> [] ->
  unsegments (seg :: rest) = String.append seg (String "/" (unsegments rest)).
Proof. destruct rest; [congruence|reflexivity]. Qed.

Lemma segments_unsegments (segs : list string) :
  segs <> [] -> Forall (fun seg => noSlash seg = true) segs ->
  segments (unsegments segs) = segs.
Proof.
  induction segs as [|seg rest IH]; [congruence|].
  intros _ H. apply Forall_cons in H as [H1 H2].
  destruct rest as [|seg' rest'].
  - apply segments_noSlash, H1.
  - rewrite unsegments_cons by discriminate. rewrite segments_app.
    rewrite (segments_noSlash _ H1), IH by (discriminate || assumption). reflexivity.
Qed.

Lemma unsegments_empty_inv (segs : list string) :
  unsegments segs = EmptyString -> segs = [] \/ segs = [EmptyString].
Proof.
  destruct segs as [|seg [|seg' rest]]; [auto| |].
  - cbn. intros ->. auto.
  - rewrite unsegments_cons by discriminate. intros H.
    apply string_app_empty_inv in H as [_ H]. discriminate.
Qed.

(** First and last characters *)
Lemma startsWithSlash_app (a b : string) :
  a <> EmptyString -> startsWithSlash (String.append a b) = startsWithSlash a.
Proof. destruct a; [congruence|reflexivity]. Qed.

Lemma endsWithSlash_cons c (s : string) :
  s <> EmptyString -> endsWithSlash (String c s) = endsWithSlash s.
Proof. destruct s; [congruence|reflexivity]. Qed.

Lemma endsWithSlash_app (a b : string) :
  b <> EmptyString -> endsWithSlash (String.append a b) = endsWithSlash b.
Proof.
  intros Hb. induction a as [|c a IH]; [reflexivity|].
  rewrite string_app_cons, endsWithSlash_cons; [exact IH|].
  intros E. apply string_app_empty_inv in E as [_ E]. contradiction.
Qed.

Lemma startsWithSlash_noSlash (s : string) : noSlash s = true -> startsWithSlash s = false.
Proof.
  destruct s as [|c s]; [reflexivity|]. cbn. intros H.
  apply andb_true_iff in H as [H _]. apply negb_true_iff in H. exact H.
Qed.

Lemma endsWithSlash_noSlash (s : string) : noSlash s = true -> endsWithSlash s = false.
Proof.
  induction s as [|c s IH]; [reflexivity|]. cbn [noSlash]. intros H.
  apply andb_true_iff in H as [H1 H2]. apply negb_true_iff in H1.
  destruct s as [|c' s']; [exact H1|].
  rewrite endsWithSlash_cons by discriminate. apply IH, H2.
Qed.

Lemma startsWithSlash_unsegments (seg : string) (rest : list string) :
  seg <> EmptyString -> startsWithSlash (unsegments (seg :: rest)) = startsWithSlash seg.
Proof.
  intros H. destruct rest; [reflexivity|].
  rewrite unsegments_cons by discriminate. apply startsWithSlash_app, H.
Qed.

Lemma unsegments_snoc_nonempty (segs : list string) (seg : string) :
  seg <> EmptyString -> unsegments (segs ++ [seg]) <> EmptyString.
Proof.
  intros H E. apply unsegments_empty_inv in E as [E|E].
  - destruct segs; discriminate.
  - destruct segs as [|? [|]]; cbn in E; [congruence|discriminate|discriminate].
Qed.

Lemma endsWithSlash_unsegments (segs : list string) (seg : string) :
  seg <> EmptyString -> endsWithSlash (unsegments (segs ++ [seg])) = endsWithSlash seg.
Proof.
  intros H. induction segs as [|x segs IH]; [reflexivity|].
  change ((x :: segs) ++ [seg]) with (x :: (segs ++ [seg])).
  rewrite unsegments_cons by (destruct segs; discriminate).
  rewrite endsWithSlash_app by discriminate.
  rewrite endsWithSlash_cons by (apply unsegments_snoc_nonempty, H).
  exact IH.
Qed.


Lemma normalizeStep_plain f res seg :
  plain seg -> normalizeStep f res seg = seg :: res.
Proof.
  intros ((H1 & H2 & _) & H3). unfold normalizeStep.
  apply String.eqb_neq in H1, H2, H3. rewrite H1, H2, H3. reflexivity.
Qed.

Lemma normalizeStep_kept f res seg :
  noSlash seg = true -> Forall kept res -> Forall kept (normalizeStep f res seg).
Proof.
  intros Hs Hres. unfold normalizeStep.
  destruct (String.eqb_spec seg ""); [exact Hres|].
  destruct (String.eqb_spec seg "."); [exact Hres|]. cbn [orb].
  destruct (String.eqb_spec seg "..") as [->|].
  - destruct res as [|last rest].
    + destruct f; repeat constructor; discriminate.
    + destruct (String.eqb last "..").
      * destruct f; [|exact Hres]. constructor; [|exact Hres].
        repeat split; discriminate.
      * apply Forall_cons in Hres as [_ Hres]. exact Hres.
  - constructor; [|exact Hres]. repeat split; assumption.
Qed.

Lemma fold_kept f segs res :
  Forall (fun seg => noSlash seg = true) segs -> Forall kept res ->
  Forall kept (fold_left (normalizeStep f) segs res).
Proof.
  revert res. induction segs as [|seg segs IH]; intros res Hs Hres; [exact Hres|].
  apply Forall_cons in Hs as [H1 H2]. cbn [fold_left].
  apply IH; [exact H2|]. apply normalizeStep_kept; assumption.
Qed.

Lemma normalizeStep_absolute_plain res seg :
  Forall plain res -> noSlash seg = true -> Forall plain (normalizeStep false res seg).
Proof.
  intros Hres Hs. unfold normalizeStep.
  destruct (String.eqb_spec seg ""); [exact Hres|].
  destruct (String.eqb_spec seg "."); [exact Hres|]. cbn [orb].
  destruct (String.eqb_spec seg "..") as [->|].
  - destruct res as [|last rest]; [constructor|].
    destruct (String.eqb last ".."); [exact Hres|].
    apply Forall_cons in Hres as [_ Hres]. exact Hres.
  - constructor; [|exact Hres]. repeat split; assumption.
Qed.

Lemma fold_absolute_plain segs res :
  Forall (fun seg => noSlash seg = true) segs -> Forall plain res ->
  Forall plain (fold_left (normalizeStep false) segs res).
Proof.
  revert res. induction segs as [|seg segs IH]; intros res Hs Hres; [exact Hres|].
  apply Forall_cons in Hs as [H1 H2]. cbn [fold_left].
  apply IH; [exact H2|]. apply normalizeStep_absolute_plain; assumption.
Qed.

Lemma fold_plain f segs res :
  Forall plain segs -> fold_left (normalizeStep f) segs res = rev segs ++ res.
Proof.
  revert res. induction segs as [|seg segs IH]; intros res H; [reflexivity|].
  apply Forall_cons in H as [H1 H2]. cbn [fold_left rev].
  rewrite normalizeStep_plain by exact H1. rewrite IH by exact H2.
  rewrite <- app_assoc. reflexivity.
Qed.

Lemma normalizeStep_skip f res seg :
  seg = EmptyString \/ seg = "."%string -> normalizeStep f res seg = res.
Proof. intros [->| ->]; reflexivity. Qed.

Lemma normalizeStep_dotdot f res :
  normalizeStep f res ".."
  = match res with
    | last :: rest =>
        if String.eqb last ".." then (if f then ".."%string :: res else res) else rest
    | [] => if f then [".."%string] else []
    end.
Proof. reflexivity. Qed.

Lemma refold_step f res last seg :
  Forall kept last -> noSlash seg = true ->
  fold_left (normalizeStep f) (rev (normalizeStep true last seg)) res
  = normalizeStep f (fold_left (normalizeStep f) (rev last) res) seg.
Proof.
  intros K Hseg.
  destruct (String.eqb_spec seg "") as [->|N1]; [reflexivity|].
  destruct (String.eqb_spec seg ".") as [->|N2]; [reflexivity|].
  destruct (String.eqb_spec seg "..") as [->|N3].
  - rewrite (normalizeStep_dotdot true last).
    destruct last as [|top rest]; [reflexivity|].
    destruct (String.eqb_spec top "..") as [->|N4].
    + cbn [rev]. rewrite !fold_left_app. reflexivity.
    + apply Forall_cons in K as [Kt K]. cbn [rev]. rewrite fold_left_app. cbn [fold_left].
      rewrite (normalizeStep_plain f _ top) by (split; assumption).
      rewrite normalizeStep_dotdot. apply String.eqb_neq in N4. rewrite N4. reflexivity.
  - rewrite (normalizeStep_plain true) by (repeat split; assumption).
    cbn [rev]. rewrite fold_left_app. reflexivity.
Qed.

(** Normalising a relative path first does not change what a longer
    path normalises to. *)
Lemma refold_relative f segs : forall res,
  Forall (fun seg => noSlash seg = true) segs ->
  fold_left (normalizeStep f) (rev (fold_left (normalizeStep true) segs [])) res
  = fold_left (normalizeStep f) segs res.
Proof.
  induction segs as [|seg segs IH] using rev_ind; intros res Hs; [reflexivity|].
  apply Forall_app in Hs as [Hs Hseg]. apply Forall_cons in Hseg as [Hseg _].
  rewrite !fold_left_app. cbn [fold_left]. rewrite <- (IH res Hs).
  apply refold_step; [|exact Hseg].
  apply fold_kept; [exact Hs|constructor].
Qed.

(** Normalising twice is normalising once. *)
Lemma refold_same f segs :
  Forall (fun seg => noSlash seg = true) segs ->
  fold_left (normalizeStep f) (rev (fold_left (normalizeStep f) segs [])) []
  = fold_left (normalizeStep f) segs [].
Proof.
  intros Hs. destruct f; [apply refold_relative, Hs|].
  pose proof (fold_absolute_plain segs [] Hs (List.Forall_nil _)) as P.
  rewrite fold_plain by (apply Forall_rev, P).
  rewrite rev_involutive, app_nil_r. reflexivity.
Qed.


(** [normalize] in terms of the kept segments. *)
Lemma kept_rev_nonempty res :
  res <> [] -> Forall kept res -> unsegments (rev res) <> EmptyString.
Proof.
  destruct res as [|top rest]; [congruence|]. intros _ K.
  apply Forall_cons in K as [(N & _) _]. cbn [rev].
  apply unsegments_snoc_nonempty, N.
Qed.

Lemma normalize_render (path : string) :
  path <> EmptyString ->
  normalize path
  = render (startsWithSlash path) (endsWithSlash path)
      (fold_left (normalizeStep (negb (startsWithSlash path))) (segments path) []).
Proof.
  intros N. unfold normalize, normalizeString.
  apply String.eqb_neq in N. rewrite N.
  pose proof (fold_kept (negb (startsWithSlash path)) (segments path) []
                (segments_all_noSlash path) (List.Forall_nil _)) as K.
  destruct (fold_left _ (segments path) []) as [|top rest] eqn:E; [reflexivity|].
  pose proof (kept_rev_nonempty (top :: rest) ltac:(discriminate) K) as NE.
  apply String.eqb_neq in NE. rewrite NE. reflexivity.
Qed.

Lemma render_nonempty f t res : Forall kept res -> render f t res <> EmptyString.
Proof.
  intros K. destruct res as [|top rest]; [destruct f, t; discriminate|].
  pose proof (kept_rev_nonempty (top :: rest) ltac:(discriminate) K) as NE.
  unfold render. destruct f; [discriminate|]. destruct t; [|exact NE].
  intros E. apply string_app_empty_inv in E as [_ E]. discriminate.
Qed.

Lemma startsWithSlash_render f t res :
  Forall kept res -> startsWithSlash (render f t res) = f.
Proof.
  intros K. destruct res as [|top rest]; [destruct f, t; reflexivity|].
  pose proof (kept_rev_nonempty (top :: rest) ltac:(discriminate) K) as NE.
  unfold render. destruct f; [reflexivity|].
  assert (startsWithSlash (unsegments (rev (top :: rest))) = false) as B.
  { apply Forall_rev in K. destruct (rev (top :: rest)) as [|first more]; [reflexivity|].
    apply Forall_cons in K as [(N & _ & S) _].
    rewrite startsWithSlash_unsegments by exact N. apply startsWithSlash_noSlash, S. }
  destruct t; [|exact B]. rewrite startsWithSlash_app by exact NE. exact B.
Qed.

Lemma endsWithSlash_render f t res :
  Forall kept res -> f = false \/ res <> [] -> endsWithSlash (render f t res) = t.
Proof.
  intros K H. destruct res as [|top rest].
  - destruct H as [->|H]; [destruct t; reflexivity|congruence].
  - clear H. pose proof (kept_rev_nonempty (top :: rest) ltac:(discriminate) K) as NE.
    assert (endsWithSlash (if t then String.append (unsegments (rev (top :: rest))) "/"
                           else unsegments (rev (top :: rest))) = t) as B.
    { destruct t; [rewrite endsWithSlash_app by discriminate; reflexivity|].
      cbn [rev]. apply Forall_cons in K as [(N & _ & S) _].
      rewrite endsWithSlash_unsegments by exact N. apply endsWithSlash_noSlash, S. }
    unfold render. destruct f; [|exact B].
    rewrite endsWithSlash_app; [exact B|].
    destruct t; [|exact NE].
    intros E. apply string_app_empty_inv in E as [_ E]. discriminate.
Qed.

Lemma kept_noSlash res : Forall kept res -> Forall (fun seg => noSlash seg = true) res.
Proof. apply List.Forall_impl. intros seg (_ & _ & S). exact S. Qed.

Lemma fold_segments_render g start f t res :
  Forall kept res ->
  fold_left (normalizeStep g) (segments (render f t res)) start
  = fold_left (normalizeStep g) (rev res) start.
Proof.
  intros K. destruct res as [|top rest]; [destruct f, t; reflexivity|].
  assert (segments (unsegments (rev (top :: rest))) = rev (top :: rest)) as S.
  { apply segments_unsegments; [cbn [rev]; destruct (rev rest); discriminate|].
    apply Forall_rev, kept_noSlash, K. }
  unfold render.
  assert (forall path, fold_left (normalizeStep g) (segments (String.append "/" path)) start
                       = fold_left (normalizeStep g) (segments path) start) as A
    by reflexivity.
  assert (fold_left (normalizeStep g)
            (segments (String.append (unsegments (rev (top :: rest))) "/")) start
          = fold_left (normalizeStep g) (rev (top :: rest)) start) as T.
  { rewrite segments_app, S, fold_left_app. reflexivity. }
  destruct f, t; rewrite ?A, ?T, ?S; reflexivity.
Qed.

(** A path of plain segments is its own normal form. *)
Lemma plain_kept segs : Forall plain segs -> Forall kept segs.
Proof. apply List.Forall_impl. intros seg (K & _). exact K. Qed.

Lemma render_relative_plain segs :
  segs <> [] -> render false false (rev segs) = unsegments segs.
Proof.
  intros N. unfold render. rewrite rev_involutive.
  destruct (rev segs) eqn:E; [|reflexivity].
  apply (f_equal (@rev string)) in E. rewrite rev_involutive in E. contradiction.
Qed.

Lemma unsegments_plain_facts segs :
  segs <> [] -> Forall plain segs ->
  unsegments segs <> EmptyString
  /\ startsWithSlash (unsegments segs) = false
  /\ endsWithSlash (unsegments segs) = false
  /\ segments (unsegments segs) = segs.
Proof.
  intros N P. apply plain_kept in P.
  pose proof (render_relative_plain segs N) as R.
  assert (Forall kept (rev segs)) as K by apply Forall_rev, P.
  rewrite <- R. split; [apply render_nonempty, K|].
  split; [apply startsWithSlash_render, K|].
  split; [apply endsWithSlash_render; auto|].
  rewrite R. apply segments_unsegments; [exact N|apply kept_noSlash, P].
Qed.

Lemma normalize_plain segs :
  segs <> [] -> Forall plain segs -> normalize (unsegments segs) = unsegments segs.
Proof.
  intros N P. destruct (unsegments_plain_facts segs N P) as (NE & A & T & S).
  rewrite normalize_render by exact NE. rewrite A, T, S.
  rewrite fold_plain by exact P. rewrite app_nil_r. apply render_relative_plain, N.
Qed.

Lemma joinAll_plain segs :
  segs <> [] -> Forall plain segs -> joinAll segs = unsegments segs.
Proof.
  intros N P. unfold joinAll.
  assert (List.filter (fun arg => negb (String.eqb arg "")) segs = segs) as F.
  { clear N. induction P as [|seg segs ((NE & _) & _) _ IH]; [reflexivity|].
    cbn [List.filter]. apply String.eqb_neq in NE. rewrite NE. cbn [negb]. rewrite IH.
    reflexivity. }
  rewrite F. destruct segs; [congruence|]. apply normalize_plain; [discriminate|exact P].
Qed.

Lemma join_eq (a b : string) :
  join a b
  = if String.eqb a "" then (if String.eqb b "" then "."%string else normalize b)
    else if String.eqb b "" then normalize a
         else normalize (String.append a (String "/" b)).
Proof.
  unfold join, joinAll. cbn [List.filter].
  destruct (String.eqb a ""), (String.eqb b ""); reflexivity.
Qed.

(** Joining a base directory, a directory of plain segments and a file
    name gives the same path whichever join is taken first. *)
Lemma join_assoc (a c : string) (segs : list string) :
  segs <> [] -> Forall plain segs -> c <> EmptyString ->
  join (join a (unsegments segs)) c = join a (join (unsegments segs) c).
Proof.
  intros N P Nc.
  destruct (unsegments_plain_facts segs N P) as (Nb & Ab & Tb & Sb).
  set (b := unsegments segs) in *.
  assert (Forall (fun seg => noSlash seg = true) (segs ++ segments c)) as Sbc.
  { apply Forall_app. split; [apply kept_noSlash, plain_kept, P|apply segments_all_noSlash]. }
  (* the inner join on the right *)
  assert (join b c = render false (endsWithSlash c)
                       (fold_left (normalizeStep true) (segs ++ segments c) [])) as Ebc.
  { rewrite join_eq. apply String.eqb_neq in Nb, Nc. rewrite Nb, Nc.
    rewrite normalize_render by (destruct b; [discriminate|discriminate]).
    rewrite startsWithSlash_app by (apply String.eqb_neq, Nb).
    rewrite endsWithSlash_app, endsWithSlash_cons by (discriminate || apply String.eqb_neq, Nc).
    rewrite Ab, segments_app, Sb. reflexivity. }
  pose proof (fold_kept true (segs ++ segments c) [] Sbc (List.Forall_nil _)) as Kbc.
  set (T := fold_left (normalizeStep true) (segs ++ segments c) []) in *.
  destruct (String.eqb_spec a "") as [->|Na].
  - (* no base directory *)
    assert (join "" b = b) as ->.
    { rewrite join_eq. apply String.eqb_neq in Nb. cbn [String.eqb]. rewrite Nb.
      apply normalize_plain; assumption. }
    rewrite (join_eq "" (join b c)). cbn [String.eqb].
    rewrite Ebc. pose proof (render_nonempty false (endsWithSlash c) T Kbc) as NR.
    apply String.eqb_neq in NR. rewrite NR. apply String.eqb_neq in NR.
    rewrite normalize_render by exact NR.
    rewrite startsWithSlash_render, endsWithSlash_render by auto.
    cbn [negb]. rewrite fold_segments_render by exact Kbc.
    unfold T. rewrite refold_same by exact Sbc. reflexivity.
  - set (f := startsWithSlash a).
    set (S0 := fold_left (normalizeStep (negb f)) (segments a) []).
    assert (Forall kept S0) as K0
      by (apply fold_kept; [apply segments_all_noSlash|constructor]).
    assert (Forall kept (rev segs ++ S0)) as K1
      by (apply Forall_app; split; [apply Forall_rev, plain_kept, P|exact K0]).
    assert (rev segs ++ S0 <> []) as N1.
    { intros E. apply app_eq_nil in E as [E _].
      apply (f_equal (@rev string)) in E. rewrite rev_involutive in E. contradiction. }
    (* the inner join on the left *)
    assert (join a b = render f false (rev segs ++ S0)) as Eab.
    { rewrite join_eq. apply String.eqb_neq in Na, Nb. rewrite Na, Nb.
      apply String.eqb_neq in Na, Nb.
      rewrite normalize_render by (destruct a; [congruence|discriminate]).
      rewrite startsWithSlash_app by exact Na.
      rewrite endsWithSlash_app, endsWithSlash_cons by (discriminate || exact Nb).
      rewrite Tb, segments_app, Sb, fold_left_app.
      fold f. fold S0. rewrite fold_plain by exact P. reflexivity. }
    (* both sides render the same segments *)
    transitivity (render f (endsWithSlash c)
                    (fold_left (normalizeStep (negb f)) (segments c) (rev segs ++ S0))).
    + rewrite join_eq, Eab.
      pose proof (render_nonempty f false (rev segs ++ S0) K1) as NR.
      apply String.eqb_neq in NR, Nc. rewrite NR, Nc. apply String.eqb_neq in NR, Nc.
      rewrite normalize_render
        by (destruct (render f false (rev segs ++ S0)); [congruence|discriminate]).
      rewrite startsWithSlash_app by exact NR.
      rewrite endsWithSlash_app, endsWithSlash_cons by (discriminate || exact Nc).
      rewrite startsWithSlash_render by exact K1.
      rewrite segments_app, fold_left_app, fold_segments_render by exact K1.
      f_equal. f_equal.
      rewrite <- (fold_plain (negb f) segs S0 P). unfold S0.
      rewrite <- fold_left_app.
      apply refold_same, Forall_app. split; [apply segments_all_noSlash|].
      apply kept_noSlash, plain_kept, P.
    + rewrite (join_eq a (join b c)), Ebc.
      pose proof (render_nonempty false (endsWithSlash c) T Kbc) as NR.
      apply String.eqb_neq in NR, Na. rewrite NR, Na. apply String.eqb_neq in NR, Na.
      rewrite normalize_render by (destruct a; [congruence|discriminate]).
      rewrite startsWithSlash_app by exact Na.
      rewrite endsWithSlash_app, endsWithSlash_cons by (discriminate || exact NR).
      rewrite endsWithSlash_render by auto.
      rewrite segments_app, fold_left_app, fold_segments_render by exact Kbc.
      fold f. fold S0. unfold T. rewrite refold_relative by exact Sbc.
      rewrite fold_left_app, (fold_plain (negb f) segs S0 P). reflexivity.
Qed.


(** Decimal numerals are plain segments. *)
Lemma noDotSlash_plain (s : string) :
  s <> EmptyString -> noDotSlash s = true -> plain s.
Proof.
  intros N H.
  assert (noSlash s = true) as S.
  { clear N. induction s as [|c s IH]; [reflexivity|]. cbn [noDotSlash noSlash] in *.
    apply andb_true_iff in H as [H H2]. apply andb_true_iff in H as [H1 _].
    rewrite H1, (IH H2). reflexivity. }
  repeat split; [exact N| |exact S|]; intros ->; discriminate.
Qed.

Lemma string_of_uint_noDotSlash (d : Decimal.uint) :
  noDotSlash (NilEmpty.string_of_uint d) = true.
Proof. induction d; cbn [NilEmpty.string_of_uint noDotSlash]; auto. Qed.

Lemma String_of_plain (n : Z) : plain (String_of n).
Proof.
  unfold String_of. destruct (Z.to_int n) as [d|d]; cbn [NilZero.string_of_int].
  - apply noDotSlash_plain.
    + destruct d; discriminate.
    + destruct d; [reflexivity|apply (string_of_uint_noDotSlash (_ d))..].
  - apply noDotSlash_plain; [discriminate|].
    cbn [noDotSlash]. destruct d; [reflexivity|apply (string_of_uint_noDotSlash (_ d))..].
Qed.

Lemma padStart2_plain (s : string) : plain s -> plain (padStart2 s).
Proof.
  intros P. unfold padStart2. destruct s as [|c [|c' s]]; cbn [String.length]; [|  |exact P].
  - apply noDotSlash_plain; [discriminate|reflexivity].
  - destruct P as ((_ & N & S) & _). cbn [noSlash] in S.
    apply andb_true_iff in S as [S _].
    repeat split; try discriminate.
    change (noSlash (String "0" (String c EmptyString)) = true).
    cbn [noSlash]. rewrite S. reflexivity.
Qed.

(** The directory of a timestamp consists of four plain segments. *)
Lemma getDatePath_segments pf timestamp :
  exists segs,
    getDatePath pf timestamp = unsegments segs /\ segs <> [] /\ Forall plain segs
    /\ segs = [String_of (getFullYear (localDate pf timestamp));
               padStart2 (String_of (getMonth (localDate pf timestamp) + 1));
               padStart2 (String_of (getDate (localDate pf timestamp)));
               padStart2 (String_of (getHours (localDate pf timestamp)))].
Proof.
  eexists. split; [|split; [|split; [|reflexivity]]].
  - unfold getDatePath. cbn zeta. apply joinAll_plain; [discriminate|].
    repeat constructor; try apply padStart2_plain; apply String_of_plain.
  - discriminate.
  - repeat constructor; try apply padStart2_plain; apply String_of_plain.
Qed.

Lemma join_dir_file pf timestamp (baseDir fileName : string) :
  fileName <> EmptyString ->
  join (join baseDir (getDatePath pf timestamp)) fileName
  = join baseDir (join (getDatePath pf timestamp) fileName).
Proof.
  intros N. destruct (getDatePath_segments pf timestamp) as (segs & -> & NE & P & _).
  apply join_assoc; assumption.
Qed.

Lemma unsegments_snoc (segs : list string) (seg : string) :
  segs <> [] ->
  unsegments (segs ++ [seg]) = String.append (unsegments segs) (String "/" seg).
Proof.
  induction segs as [|x segs IH]; [congruence|]. intros _.
  destruct segs as [|y segs]; [reflexivity|].
  change ((x :: y :: segs) ++ [seg]) with (x :: ((y :: segs) ++ [seg])).
  rewrite !unsegments_cons by discriminate. rewrite IH by discriminate.
  rewrite string_app_assoc. reflexivity.
Qed.

Lemma noSlash_app (a b : string) :
  noSlash a = true -> noSlash b = true -> noSlash (String.append a b) = true.
Proof.
  intros Ha Hb. induction a as [|c a IH]; [exact Hb|].
  rewrite string_app_cons. cbn [noSlash] in *.
  apply andb_true_iff in Ha as [H1 H2]. rewrite H1, (IH H2). reflexivity.
Qed.

Lemma string_app_length (a b : string) :
  String.length (String.append a b) = (String.length a + String.length b)%nat.
Proof.
  induction a as [|c a IH]; [reflexivity|].
  rewrite string_app_cons. cbn [String.length]. rewrite IH. reflexivity.
Qed.

(** The name of a blob is a plain segment when the scan identifier
    holds no separator. *)
Lemma fileName_plain (scanId : string) :
  noSlash scanId = true -> plain (String.append scanId ".msgpack").
Proof.
  intros S.
  assert (forall s, (String.length s < 8)%nat -> String.append scanId ".msgpack" <> s) as L.
  { intros s Hs E. apply (f_equal String.length) in E.
    rewrite string_app_length in E. cbn [String.length] in E. lia. }
  repeat split; [apply L; cbn; lia..| |apply L; cbn; lia].
  apply noSlash_app; [exact S|reflexivity].
Qed.

(** Joining the date directory and a plain file name only puts a
    separator between them. *)
Lemma join_plain_file pf timestamp (scanId : string) :
  noSlash scanId = true ->
  join (getDatePath pf timestamp) (String.append scanId ".msgpack")
  = String.append (getDatePath pf timestamp)
      (String.append "/" (String.append scanId ".msgpack")).
Proof.
  intros S. destruct (getDatePath_segments pf timestamp) as (segs & -> & NE & P & _).
  pose proof (fileName_plain scanId S) as F.
  destruct (unsegments_plain_facts segs NE P) as (Nb & _).
  rewrite join_eq. apply String.eqb_neq in Nb. rewrite Nb.
  destruct F as ((Nf & F2) & F3). apply String.eqb_neq in Nf. rewrite Nf.
  apply String.eqb_neq in Nf.
  change (String.append "/" (String.append scanId ".msgpack"))
    with (String "/" (String.append scanId ".msgpack")).
  rewrite <- unsegments_snoc by exact NE.
  apply normalize_plain; [destruct segs; discriminate|].
  apply Forall_app. split; [exact P|]. repeat constructor; tauto.
Qed.

Lemma fileName_nonempty (scanId : string) : String.append scanId ".msgpack" <> EmptyString.
Proof. intros E. apply string_app_empty_inv in E as [_ E]. discriminate. Qed.

End PathFacts.

(** * Further properties of the blob store and the processor *)
Section PipelineFacts.
Import Models FileStore Processor.

(** The two outcomes of [writeScan]. *)
Lemma writeScan_cases pf scan fw :
  let relativePath := join (getDatePath pf (timestamp scan))
                        (String.append (scanId scan) ".msgpack") in
  let '(fw', result) := writeScan pf scan fw in
  baseDir fw' = baseDir fw
  /\ match result with
     | Some (path, sizeBytes) =>
         path = relativePath
         /\ sizeBytes = Z.of_nat (length (encode pf scan))
         /\ mkdirFails pf (join (baseDir fw) (getDatePath pf (timestamp scan))) = false
         /\ writeFails pf (join (baseDir fw) relativePath) = false
         /\ files fw' = <[join (baseDir fw) relativePath := encode pf scan]> (files fw)
     | None =>
         files fw' = files fw
         /\ (mkdirFails pf (join (baseDir fw) (getDatePath pf (timestamp scan))) = true
             \/ writeFails pf (join (baseDir fw) relativePath) = true)
     end.
Proof.
  unfold writeScan. cbn zeta. rewrite join_dir_file by apply fileName_nonempty.
  destruct (mkdirFails pf _); [auto|].
  destruct (writeFails pf _); [auto|]. simpl. auto 10.
Qed.

Lemma insert_keeps_files (m : gmap string (list Byte.byte)) k v path :
  is_Some (m !! path) -> is_Some (<[k := v]> m !! path).
Proof.
  intros H. destruct (decide (k = path)) as [->|Hne].
  - rewrite lookup_insert_eq. eauto.
  - rewrite lookup_insert_ne by exact Hne. exact H.
Qed.

(** The outcomes of the [try] block of [processNext]. *)
Lemma processScan_cases pf scan p :
  let p' := processScan pf scan p in
  buffer p' = buffer p
  /\ isShuttingDown p' = isShuttingDown p
  /\ baseDir (fileWriter p') = baseDir (fileWriter p)
  /\ (forall path, is_Some (files (fileWriter p) !! path) ->
                   is_Some (files (fileWriter p') !! path))
  /\ ((stats p' = count_processed (stats p)
       /\ Database.scans (db p) !! scanId scan = None
       /\ exists row,
            Database.scans (db p') = <[scanId scan := row]> (Database.scans (db p))
            /\ is_Some (files (fileWriter p')
                          !! join (baseDir (fileWriter p)) (md_filePath row)))
      \/ (stats p' = count_failed (stats p)
          /\ Database.scans (db p') = Database.scans (db p))).
Proof.
  cbn zeta. unfold processScan.
  pose proof (writeScan_cases pf scan (fileWriter p)) as W. cbn zeta in W.
  destruct (writeScan pf scan (fileWriter p)) as [fw [[path sizeBytes]|]].
  - destruct W as (B & -> & -> & _ & _ & F).
    unfold Database.insertScan. cbn [md_scanId metadataOf].
    destruct (Database.scans (db p) !! scanId scan) as [dup|] eqn:L; simpl.
    + split; [reflexivity|]. split; [reflexivity|]. split; [exact B|].
      split; [intros path' H; rewrite F; apply insert_keeps_files, H|].
      right. split; reflexivity.
    + split; [reflexivity|]. split; [reflexivity|]. split; [exact B|].
      split; [intros path' H; rewrite F; apply insert_keeps_files, H|].
      left. split; [reflexivity|]. split; [reflexivity|].
      eexists. split; [reflexivity|]. simpl. rewrite F, lookup_insert_eq. eauto.
  - destruct W as (B & F & _). simpl.
    split; [reflexivity|]. split; [reflexivity|]. split; [exact B|].
    split; [intros path' H; rewrite F; exact H|].
    right. split; reflexivity.
Qed.

Lemma submit_counts scan p p' ok :
  submit scan p = Some (p', ok) ->
  fileWriter p' = fileWriter p /\ db p' = db p
  /\ processed (stats p') = processed (stats p)
  /\ match validateScan scan with
     | Some true =>
         received (stats p') = received (stats p) + 1
         /\ failed (stats p') = failed (stats p) + (if ok then 0 else 1)
         /\ Buffer.size (buffer p') = Buffer.size (buffer p) + (if ok then 1 else 0)
     | _ => p' = p /\ ok = false
     end.
Proof.
  unfold submit. destruct (validateScan scan) as [[|]|]; [|intros [= <- <-]; auto|discriminate].
  pose proof (enqueue_stats scan (buffer p)) as S. simpl.
  destruct (Buffer.enqueue scan (buffer p)) as [[b e] sig]. destruct S as (_ & _ & _ & Z).
  intros [= <- <-]. destruct e; simpl; repeat split; auto; lia.
Qed.

(** [processNext] either does nothing or runs the [try] block on the
    head of the queue. *)
Lemma processNext_cases pf p :
  processNext pf p = p
  \/ exists scan rest,
       Buffer.queue (buffer p) = scan :: rest
       /\ Buffer.queue (buffer (processNext pf p)) = rest
       /\ processNext pf p = processScan pf scan (with_buffer (Buffer.dequeue (buffer p)).1 p).
Proof.
  unfold processNext. destruct (isShuttingDown p); [left; reflexivity|].
  unfold Buffer.dequeue. destruct (Buffer.queue (buffer p)) as [|scan rest] eqn:Q;
    [left; reflexivity|].
  right. exists scan, rest. split; [reflexivity|]. split; [|reflexivity].
  destruct (processScan_cases pf scan
              (with_buffer
                 (Buffer.mkBuffer rest (Buffer.maxQueueSize (buffer p))
                    (Buffer.maxMemoryBytes (buffer p))
                    (Z.max 0 (Buffer.currentMemoryBytes (buffer p)
                              - Buffer.estimateScanSize scan))
                    (Buffer.count_processed (Buffer.stats (buffer p)))) p)) as (B & _).
  rewrite B. reflexivity.
Qed.

Lemma processorStep_balance pf p e :
  processor_balance p -> processor_balance (processorStep pf p e).
Proof.
  unfold processor_balance. intros B. destruct e as [scan|]; simpl.
  - destruct (submit scan p) as [[p' ok]|] eqn:S; [|exact B].
    destruct (submit_counts _ _ _ _ S) as (_ & _ & P & V).
    destruct (validateScan scan) as [[|]|].
    + destruct V as (R & F & Z). destruct ok; lia.
    + destruct V as [-> _]. exact B.
    + destruct V as [-> _]. exact B.
  - destruct (processNext_cases pf p) as [->|(scan & rest & Q & Q' & E)]; [exact B|].
    unfold Buffer.size in *. rewrite Q'. rewrite Q in B. simpl length in B.
    rewrite E.
    match goal with |- context [processScan pf scan ?q] =>
      destruct (processScan_cases pf scan q) as (_ & _ & _ & _ & [(S & _)|(S & _)])
    end; rewrite S; simpl; lia.
Qed.

Lemma processorStep_rows pf p e :
  processed_is_rows p -> processed_is_rows (processorStep pf p e).
Proof.
  unfold processed_is_rows. intros B. destruct e as [scan|]; simpl.
  - destruct (submit scan p) as [[p' ok]|] eqn:S; [|exact B].
    destruct (submit_counts _ _ _ _ S) as (_ & -> & -> & _). exact B.
  - destruct (processNext_cases pf p) as [->|(scan & rest & Q & Q' & E)]; [exact B|].
    rewrite E.
    match goal with |- context [processScan pf scan ?q] =>
      destruct (processScan_cases pf scan q)
        as (_ & _ & _ & _ & [(S & N & row & D & _)|(S & D)])
    end; rewrite S, D; simpl in *.
    + rewrite map_size_insert_None by exact N. lia.
    + exact B.
Qed.

Lemma processorStep_blobs pf p e :
  rows_have_blobs p -> rows_have_blobs (processorStep pf p e).
Proof.
  unfold rows_have_blobs. intros B. destruct e as [scan|]; simpl.
  - destruct (submit scan p) as [[p' ok]|] eqn:S; [|exact B].
    destruct (submit_counts _ _ _ _ S) as (-> & -> & _). exact B.
  - destruct (processNext_cases pf p) as [->|(scan & rest & Q & Q' & E)]; [exact B|].
    rewrite E.
    match goal with |- context [processScan pf scan ?q] =>
      destruct (processScan_cases pf scan q)
        as (_ & _ & Base & Keep & [(_ & N & row & D & F)|(_ & D)])
    end; rewrite Base, D; simpl in *; intros id r L.
    + destruct (decide (scanId scan = id)) as [<-|Hne].
      * rewrite lookup_insert_eq in L. injection L as <-. exact F.
      * rewrite lookup_insert_ne in L by exact Hne. apply Keep. eapply B. exact L.
    + apply Keep. eapply B. exact L.
Qed.

Lemma processorRun_invariant (P : LiDARProcessor -> Prop) pf :
  (forall p e, P p -> P (processorStep pf p e)) ->
  forall es p, P p -> P (processorRun pf es p).
Proof.
  intros Step. induction es as [|e es IH]; intros p HP; [exact HP|].
  apply IH, Step, HP.
Qed.

End PipelineFacts.

Section FirstPoint.
Import JS.

(** The test [validateScan] applies to [points[0]]. *)
Lemma first_point_accepted (firstPoint : JsVal) :
  match get_prop firstPoint "x", get_prop firstPoint "y", get_prop firstPoint "z" with
  | Some x, Some y, Some z =>
      if negb (is_number x) || negb (is_number y) || negb (is_number z)
      then Some false else Some true
  | _, _, _ => None
  end = Some true
  <-> exists x y z,
        get_prop firstPoint "x" = Some x /\ typeof x = TNumber
        /\ get_prop firstPoint "y" = Some y /\ typeof y = TNumber
        /\ get_prop firstPoint "z" = Some z /\ typeof z = TNumber.
Proof.
  destruct (get_prop firstPoint "x") as [x|];
    [|split; [discriminate|intros (? & ? & ? & H & _); discriminate]].
  destruct (get_prop firstPoint "y") as [y|];
    [|split; [discriminate|intros (? & ? & ? & _ & _ & H & _); discriminate]].
  destruct (get_prop firstPoint "z") as [z|];
    [|split; [discriminate|intros (? & ? & ? & _ & _ & _ & _ & H & _); discriminate]].
  unfold is_number. split.
  - destruct (typeof x) eqn:Tx; try discriminate;
      destruct (typeof y) eqn:Ty; try discriminate;
      destruct (typeof z) eqn:Tz; try discriminate.
    intros _. exists x, y, z. auto 10.
  - intros (x' & y' & z' & [= <-] & Tx & [= <-] & Ty & [= <-] & Tz).
    rewrite Tx, Ty, Tz. reflexivity.
Qed.

Lemma first_point_throws (firstPoint : JsVal) :
  match get_prop firstPoint "x", get_prop firstPoint "y", get_prop firstPoint "z" with
  | Some x, Some y, Some z =>
      if negb (is_number x) || negb (is_number y) || negb (is_number z)
      then Some false else Some true
  | _, _, _ => None
  end = None
  <-> firstPoint = JUndefined \/ firstPoint = JNull.
Proof.
  destruct firstPoint as [| |bv|q|sv|items|fields]; simpl;
    try (split; [auto|reflexivity]);
    (split; [|intros [H|H]; discriminate]).
  5: destruct (negb _ || negb _ || negb _).
  all: discriminate.
Qed.

End FirstPoint.

(** X7.  [validateScan] accepts a scan exactly when its three
    identifiers are non-empty, its timestamp is positive and its first
    point has numeric [x], [y] and [z]; it throws, instead of
    rejecting, exactly when the identifiers and the timestamp pass and
    the first point is [null] or [undefined]. *)
Theorem validateScan_accepts_iff (scan : Models.LiDARScan) :
  let header_ok :=
    Models.scanId scan <> "" /\ Models.sessionId scan <> ""
    /\ Models.deviceId scan <> "" /\ 0 < Models.timestamp scan in
  (Processor.validateScan scan = Some true <->
     header_ok
     /\ exists firstPoint others x y z,
          Models.points scan = firstPoint :: others
          /\ JS.get_prop firstPoint "x" = Some x /\ JS.typeof x = JS.TNumber
          /\ JS.get_prop firstPoint "y" = Some y /\ JS.typeof y = JS.TNumber
          /\ JS.get_prop firstPoint "z" = Some z /\ JS.typeof z = JS.TNumber)
  /\ (Processor.validateScan scan = None <->
        header_ok
        /\ exists firstPoint others,
             Models.points scan = firstPoint :: others
             /\ (firstPoint = JS.JUndefined \/ firstPoint = JS.JNull)).
Proof.
  cbn zeta. unfold Processor.validateScan, JS.truthy_str.
  destruct (String.eqb_spec (Models.scanId scan) "") as [E1|E1]; simpl.
  { split; (split; [discriminate|intros [(? & _) _]; contradiction]). }
  destruct (String.eqb_spec (Models.sessionId scan) "") as [E2|E2]; simpl.
  { split; (split; [discriminate|intros [(_ & ? & _) _]; contradiction]). }
  destruct (String.eqb_spec (Models.deviceId scan) "") as [E3|E3]; simpl.
  { split; (split; [discriminate|intros [(_ & _ & ? & _) _]; contradiction]). }
  destruct (Z.eqb_spec (Models.timestamp scan) 0) as [T0|T0]; simpl.
  { split; (split; [discriminate|intros [(_ & _ & _ & ?) _]; lia]). }
  destruct (Z.leb_spec (Models.timestamp scan) 0) as [T1|T1]; simpl.
  { split; (split; [discriminate|intros [(_ & _ & _ & ?) _]; lia]). }
  destruct (Models.points scan) as [|firstPoint others]; simpl.
  { split; (split; [discriminate|]).
    - intros (_ & ? & ? & ? & ? & ? & ? & _). discriminate.
    - intros (_ & ? & ? & ? & _). discriminate. }
  assert (Hdr : Models.scanId scan <> "" /\ Models.sessionId scan <> ""
                /\ Models.deviceId scan <> "" /\ 0 < Models.timestamp scan) by auto.
  rewrite (first_point_accepted firstPoint), (first_point_throws firstPoint).
  split; split.
  - intros (x & y & z & H). split; [exact Hdr|]. exists firstPoint, others, x, y, z.
    split; [reflexivity|exact H].
  - intros (_ & fp & os & x & y & z & E & H). injection E as <- <-. eauto.
  - intros H. split; [exact Hdr|]. exists firstPoint, others. auto.
  - intros (_ & fp & os & E & H). injection E as <- <-. exact H.
Qed.

(** X8.  The processor's counters balance at every moment of a run:
    after any sequence of submitted scans and timer firings on a newly
    built processor, [received = processed + failed + buffer.size()],
    so every validated scan is stored, counted as failed, or still
    queued. *)
Theorem processor_counters_balance
    (pf : FileStore.Platform) (es : list ProcessorEvent)
    (maxQueueSize maxMemoryMB : Z) (baseDir : string) (now : Z) :
  let p := processorRun pf es (bootProcessor maxQueueSize maxMemoryMB baseDir now) in
  Processor.received (Processor.stats p)
  = Processor.processed (Processor.stats p) + Processor.failed (Processor.stats p)
    + Buffer.size (Processor.buffer p).
Proof.
  apply (processorRun_invariant processor_balance pf (processorStep_balance pf)).
  reflexivity.
Qed.

(** X9.  After any such run from empty tables, the [processed] counter
    is the number of rows of the [scans] table: a scan is counted as
    processed exactly when its metadata row was inserted. *)
Theorem processed_counts_metadata_rows
    (pf : FileStore.Platform) (es : list ProcessorEvent)
    (maxQueueSize maxMemoryMB : Z) (baseDir : string) (now : Z) :
  let p := processorRun pf es (bootProcessor maxQueueSize maxMemoryMB baseDir now) in
  Processor.processed (Processor.stats p)
  = Z.of_nat (size (Database.scans (Processor.db p))).
Proof.
  apply (processorRun_invariant processed_is_rows pf (processorStep_rows pf)).
  reflexivity.
Qed.

(** X10.  After any such run from an empty blob store and empty tables,
    every metadata row's [filePath], resolved against the writer's
    [baseDir], names a blob that is in the store: the processor never
    leaves a row without its file. *)
Theorem metadata_rows_have_blobs
    (pf : FileStore.Platform) (es : list ProcessorEvent)
    (maxQueueSize maxMemoryMB : Z) (baseDir : string) (now : Z)
    (id : string) (row : Models.ScanMetadata) :
  let p := processorRun pf es (bootProcessor maxQueueSize maxMemoryMB baseDir now) in
  Database.scans (Processor.db p) !! id = Some row ->
  is_Some (FileStore.files (Processor.fileWriter p)
             !! FileStore.join baseDir (Models.md_filePath row)).
Proof.
  intros p L.
  assert (B : FileStore.baseDir (Processor.fileWriter p) = baseDir).
  { apply (processorRun_invariant
             (fun p => FileStore.baseDir (Processor.fileWriter p) = baseDir) pf);
      [|reflexivity].
    intros q e Hq. destruct e as [scan|]; simpl.
    - destruct (Processor.submit scan q) as [[q' ok]|] eqn:S; [|exact Hq].
      destruct (submit_counts _ _ _ _ S) as (-> & _). exact Hq.
    - destruct (processNext_cases pf q) as [->|(scan & rest & _ & _ & ->)]; [exact Hq|].
      match goal with |- context [Processor.processScan pf scan ?q0] =>
        destruct (processScan_cases pf scan q0) as (_ & _ & -> & _)
      end. exact Hq. }
  rewrite <- B.
  apply (processorRun_invariant rows_have_blobs pf (processorStep_blobs pf) es
           (bootProcessor maxQueueSize maxMemoryMB baseDir now)) with (id := id);
    [|exact L].
  intros i r H. simpl in H. rewrite lookup_empty in H. discriminate.
Qed.

Lemma metadata_rows_have_blobs_witness :
  let p := processorRun healthyPlatform [EvSubmit (sampleScan "scan-a" 1000 50); EvTick]
             (bootProcessor 1000 512 "data/scans" 0) in
  let row := Models.mkScanMetadata "scan-a" "session-1" "device-1" 1000
               "2026/02/21/02/scan-a.msgpack" 2000 50 in
  Database.scans (Processor.db p) !! "scan-a" = Some row
  /\ is_Some (FileStore.files (Processor.fileWriter p)
                !! FileStore.join "data/scans" (Models.md_filePath row)).
Proof.
  split; [vm_compute; reflexivity|].
  apply (metadata_rows_have_blobs healthyPlatform
           [EvSubmit (sampleScan "scan-a" 1000 50); EvTick] 1000 512 "data/scans" 0
           "scan-a").
  vm_compute. reflexivity.
Defined.

(** * Further properties of the blob store *)
Section BlobFacts.
Import Models FileStore.

Lemma writeBatch_spec pf scans : forall fw,
  let '(fw', results) := writeBatch pf scans fw in
  baseDir fw' = baseDir fw
  /\ results = (fun scan => (relativePathOf pf scan, Z.of_nat (length (encode pf scan))))
                <$> filter (fun scan => writable pf (baseDir fw) scan = true) scans
  /\ (forall path, is_Some (files fw !! path) -> is_Some (files fw' !! path))
  /\ (forall scan, scan ∈ scans -> writable pf (baseDir fw) scan = true ->
        is_Some (files fw' !! join (baseDir fw) (relativePathOf pf scan))).
Proof.
  induction scans as [|scan rest IH]; intros fw; simpl.
  - split; [reflexivity|]. split; [reflexivity|]. split; [auto|].
    intros scan H. apply elem_of_nil in H. contradiction.
  - pose proof (writeScan_cases pf scan fw) as W. cbn zeta in W.
    fold (relativePathOf pf scan) in W.
    destruct (writeScan pf scan fw) as [fw1 [[path sz]|]].
    + destruct W as (B & -> & -> & M & F & E).
      specialize (IH fw1). destruct (writeBatch pf rest fw1) as [fw2 results].
      destruct IH as (B2 & R & K & A). rewrite B in *.
      assert (Wr : writable pf (baseDir fw) scan = true)
        by (unfold writable; rewrite M, F; reflexivity).
      split; [exact B2|]. split.
      { rewrite filter_cons_True by exact Wr. rewrite fmap_cons, R. reflexivity. }
      split.
      { intros p H. apply K. rewrite E. apply insert_keeps_files, H. }
      intros s Hs Ws. apply elem_of_cons in Hs as [->|Hs]; [|apply A; assumption].
      apply K. rewrite E, lookup_insert_eq. eauto.
    + destruct W as (B & E & Fail).
      specialize (IH fw1). destruct (writeBatch pf rest fw1) as [fw2 results].
      destruct IH as (B2 & R & K & A). rewrite B in *.
      assert (Wr : writable pf (baseDir fw) scan <> true).
      { unfold writable. destruct Fail as [-> | ->]; simpl;
          [discriminate|rewrite andb_false_r; discriminate]. }
      split; [exact B2|]. split.
      { rewrite filter_cons_False by exact Wr. exact R. }
      split.
      { intros p H. apply K. rewrite E. exact H. }
      intros s Hs Ws. apply elem_of_cons in Hs as [->|Hs]; [contradiction|].
      apply A; assumption.
Qed.

(** Two characters for every value a calendar field can take. *)
Lemma padStart2_two_digits n :
  0 <= n <= 99 -> String.length (padStart2 (String_of n)) = 2%nat.
Proof.
  intros H.
  assert (A : forallb (fun k => Nat.eqb (String.length (padStart2 (String_of (Z.of_nat k)))) 2)
                (seq 0 100) = true) by (vm_compute; reflexivity).
  rewrite forallb_forall in A.
  specialize (A (Z.to_nat n)).
  rewrite Z2Nat.id in A by lia.
  apply Nat.eqb_eq, A, in_seq. lia.
Qed.

End BlobFacts.

(** X11.  A successful [writeScan] returns the path that [path.join]
    makes of the date directory and [<scanId>.msgpack], relative to the
    storage root, and the exact byte length of the encoding; when the
    scan identifier holds no separator that path is
    [YYYY/MM/DD/HH/<scanId>.msgpack] literally.  Joining the returned
    path to [baseDir] finds the encoded scan, every other file is as
    before (an existing file at that path is overwritten), and a failed
    [writeScan] leaves all files as they were. *)
Theorem writeScan_stores_at_returned_path
    (pf : FileStore.Platform) (scan : Models.LiDARScan) (fw : FileStore.FileWriter) :
  let '(fw', result) := FileStore.writeScan pf scan fw in
  match result with
  | Some (path, sizeBytes) =>
      path = FileStore.join (FileStore.getDatePath pf (Models.timestamp scan))
               (String.append (Models.scanId scan) ".msgpack")
      /\ sizeBytes = Z.of_nat (length (FileStore.encode pf scan))
      /\ FileStore.files fw' !! FileStore.join (FileStore.baseDir fw') path
         = Some (FileStore.encode pf scan)
      /\ (forall other, other <> FileStore.join (FileStore.baseDir fw') path ->
            FileStore.files fw' !! other = FileStore.files fw !! other)
      /\ (noSlash (Models.scanId scan) = true ->
          path = String.append (FileStore.getDatePath pf (Models.timestamp scan))
                   (String.append "/" (String.append (Models.scanId scan) ".msgpack")))
  | None => FileStore.files fw' = FileStore.files fw
  end.
Proof.
  pose proof (writeScan_cases pf scan fw) as W. cbn zeta in W.
  destruct (FileStore.writeScan pf scan fw) as [fw' [[path sz]|]].
  - destruct W as (B & -> & -> & _ & _ & E). rewrite B, E.
    split; [reflexivity|]. split; [reflexivity|].
    split; [apply lookup_insert_eq|].
    split; [intros other Hne; apply lookup_insert_ne; congruence|].
    apply join_plain_file.
  - apply W.
Qed.

(** X12.  [writeBatch] attempts every scan: its results are, in order,
    the path and byte length of exactly the scans whose two file-system
    calls were accepted, a failing scan being skipped without stopping
    the batch; every such scan's blob is in the store afterwards and no
    file that existed before is lost. *)
Theorem writeBatch_skips_failures
    (pf : FileStore.Platform) (scans : list Models.LiDARScan) (fw : FileStore.FileWriter) :
  let '(fw', results) := FileStore.writeBatch pf scans fw in
  results = (fun scan => (relativePathOf pf scan,
                          Z.of_nat (length (FileStore.encode pf scan))))
            <$> filter (fun scan => writable pf (FileStore.baseDir fw) scan = true) scans
  /\ (forall scan, scan ∈ scans -> writable pf (FileStore.baseDir fw) scan = true ->
        is_Some (FileStore.files fw'
                   !! FileStore.join (FileStore.baseDir fw) (relativePathOf pf scan)))
  /\ (forall path, is_Some (FileStore.files fw !! path) ->
                   is_Some (FileStore.files fw' !! path)).
Proof.
  pose proof (writeBatch_spec pf scans fw) as H.
  destruct (FileStore.writeBatch pf scans fw) as [fw' results].
  destruct H as (_ & R & K & A). auto.
Qed.

(** X13.  When the local calendar reports a month index in 0..11, a day
    in 1..31 and an hour in 0..23, the directory path of a timestamp is
    the year followed by a two-character month (the index plus one), a
    two-character day and a two-character hour, separated by slashes. *)
Theorem getDatePath_fixed_width (pf : FileStore.Platform) (timestamp : Z) :
  calendar_ok (FileStore.localDate pf timestamp) ->
  exists mm dd hh,
    FileStore.getDatePath pf timestamp
    = String.append
        (FileStore.String_of (FileStore.getFullYear (FileStore.localDate pf timestamp)))
        (String.append "/" (String.append mm (String.append "/"
           (String.append dd (String.append "/" hh)))))
    /\ String.length mm = 2%nat /\ String.length dd = 2%nat /\ String.length hh = 2%nat
    /\ mm = FileStore.padStart2
              (FileStore.String_of (FileStore.getMonth (FileStore.localDate pf timestamp) + 1)).
Proof.
  intros (M & D & Hh).
  exists (FileStore.padStart2
            (FileStore.String_of (FileStore.getMonth (FileStore.localDate pf timestamp) + 1))),
         (FileStore.padStart2
            (FileStore.String_of (FileStore.getDate (FileStore.localDate pf timestamp)))),
         (FileStore.padStart2
            (FileStore.String_of (FileStore.getHours (FileStore.localDate pf timestamp)))).
  split.
  - destruct (getDatePath_segments pf timestamp) as (segs & -> & _ & _ & ->).
    reflexivity.
  - split; [apply padStart2_two_digits; lia|].
    split; [apply padStart2_two_digits; lia|].
    split; [apply padStart2_two_digits; lia|reflexivity].
Qed.

Lemma getDatePath_fixed_width_witness :
  exists mm dd hh,
    FileStore.getDatePath healthyPlatform 1000
    = String.append
        (FileStore.String_of (FileStore.getFullYear (FileStore.localDate healthyPlatform 1000)))
        (String.append "/" (String.append mm (String.append "/"
           (String.append dd (String.append "/" hh)))))
    /\ String.length mm = 2%nat /\ String.length dd = 2%nat /\ String.length hh = 2%nat
    /\ mm = FileStore.padStart2
              (FileStore.String_of
                 (FileStore.getMonth (FileStore.localDate healthyPlatform 1000) + 1)).
Proof.
  apply (getDatePath_fixed_width healthyPlatform 1000).
  unfold calendar_ok. simpl. lia.
Defined.

(** * Further properties of the metadata store *)
Section StoreFacts.
Import Models Database.

Lemma sumZ_Permutation (l1 l2 : list Z) : l1 ≡ₚ l2 -> sumZ l1 = sumZ l2.
Proof.
  induction 1 as [|x l1 l2 _ IH|x y l|l1 l2 l3 _ IH1 _ IH2]; simpl; lia.
Qed.

Lemma sumZ_cons x l : sumZ (x :: l) = x + sumZ l.
Proof. reflexivity. Qed.

Lemma scanRows_insert (m : ScanMetadata) sessions' (t : gmap string ScanMetadata) :
  t !! md_scanId m = None ->
  scanRows (mkDb sessions' (<[md_scanId m := m]> t)) ≡ₚ m :: scanRows (mkDb sessions' t).
Proof.
  intros N. unfold scanRows. simpl.
  rewrite (map_to_list_insert t (md_scanId m) m N). reflexivity.
Qed.

Lemma rowsOfSession_insert sid (m : ScanMetadata) s1 s2 (t : gmap string ScanMetadata) :
  t !! md_scanId m = None ->
  rowsOfSession sid (mkDb s1 (<[md_scanId m := m]> t))
  ≡ₚ if decide (md_sessionId m = sid)
     then m :: rowsOfSession sid (mkDb s2 t)
     else rowsOfSession sid (mkDb s2 t).
Proof.
  intros N. unfold rowsOfSession.
  rewrite (scanRows_insert m s1 t N).
  change (scanRows (mkDb s1 t)) with (scanRows (mkDb s2 t)).
  destruct (decide (md_sessionId m = sid)) as [E|E].
  - rewrite filter_cons_True by exact E. reflexivity.
  - rewrite filter_cons_False by exact E. reflexivity.
Qed.

Lemma rowsOfSession_sessions sid s1 s2 (t : gmap string ScanMetadata) :
  rowsOfSession sid (mkDb s1 t) = rowsOfSession sid (mkDb s2 t).
Proof. reflexivity. Qed.

Lemma insertSession_other sid dev ts sid' (t : gmap string SessionMetadata) :
  sid <> sid' -> insertSession sid dev ts t !! sid' = t !! sid'.
Proof.
  intros Hne. unfold insertSession. destruct (t !! sid); [reflexivity|].
  apply lookup_insert_ne. exact Hne.
Qed.

Lemma insertSession_totals sid dev ts db scans' :
  scans' = scans db ->
  session_totals_ok db ->
  session_totals_ok (mkDb (insertSession sid dev ts (sessions db)) scans').
Proof.
  intros -> Ok sid'. specialize (Ok sid'). simpl.
  rewrite (rowsOfSession_sessions sid' _ (sessions db)).
  change (mkDb (sessions db) (scans db)) with
    (mkDb (sessions db) (scans db)) in *.
  assert (R : rowsOfSession sid' (mkDb (sessions db) (scans db)) = rowsOfSession sid' db)
    by reflexivity.
  rewrite R.
  destruct (decide (sid = sid')) as [<-|Hne].
  - unfold insertSession. destruct (sessions db !! sid) as [row|] eqn:L.
    + rewrite L. exact Ok.
    + rewrite lookup_insert_eq. rewrite Ok. simpl. auto.
  - rewrite insertSession_other by exact Hne. exact Ok.
Qed.

Lemma updateSession_lookup_eq pc sb ts sid (t : gmap string SessionMetadata) :
  updateSession pc sb ts sid t !! sid = updateSessionRow pc sb ts <$> t !! sid.
Proof. apply lookup_alter_eq. Qed.

Lemma updateSession_lookup_ne pc sb ts sid sid' (t : gmap string SessionMetadata) :
  sid <> sid' -> updateSession pc sb ts sid t !! sid' = t !! sid'.
Proof. intros H. apply lookup_alter_ne. exact H. Qed.

Lemma insertScan_totals m db :
  session_totals_ok db -> session_totals_ok (insertScan m db).1.
Proof.
  intros Ok. unfold insertScan.
  destruct (scans db !! md_scanId m) as [dup|] eqn:N; simpl.
  - apply insertSession_totals; [reflexivity|exact Ok].
  - pose proof (insertSession_totals (md_sessionId m) (md_deviceId m) (md_timestamp m)
                  db (scans db) eq_refl Ok) as Ok1.
    intros sid. specialize (Ok1 sid). simpl in Ok1 |- *.
    pose proof (rowsOfSession_insert sid m
                  (updateSession (md_pointCount m) (md_sizeBytes m) (md_timestamp m)
                     (md_sessionId m)
                     (insertSession (md_sessionId m) (md_deviceId m) (md_timestamp m)
                        (sessions db)))
                  (insertSession (md_sessionId m) (md_deviceId m) (md_timestamp m)
                     (sessions db))
                  (scans db) N) as P.
    destruct (decide (md_sessionId m = sid)) as [<-|Hne].
    + rewrite updateSession_lookup_eq.
      destruct (insertSession_lookup (md_sessionId m) (md_deviceId m) (md_timestamp m)
                  (sessions db)) as (row & L & _).
      rewrite L in Ok1 |- *. destruct Ok1 as (C & Pt & Sz).
      pose proof (Permutation_length P) as Hlen.
      pose proof (sumZ_Permutation _ _ (fmap_Permutation md_pointCount _ _ P)) as Hpt.
      pose proof (sumZ_Permutation _ _ (fmap_Permutation md_sizeBytes _ _ P)) as Hsz.
      rewrite fmap_cons in Hpt, Hsz. rewrite sumZ_cons in Hpt, Hsz.
      cbn [length] in Hlen.
      cbn [fmap option_fmap option_map updateSessionRow
           ss_scanCount ss_totalPoints ss_totalSizeBytes].
      rewrite Hlen, Hpt, Hsz, C, Pt, Sz. repeat split; lia.
    + rewrite updateSession_lookup_ne by exact Hne.
      destruct (insertSession _ _ _ _ !! sid) as [row|].
      * destruct Ok1 as (C & Pt & Sz).
        rewrite (Permutation_length P), (sumZ_Permutation _ _ (fmap_Permutation _ _ _ P)),
          (sumZ_Permutation _ _ (fmap_Permutation md_sizeBytes _ _ P)). auto.
      * rewrite Ok1 in P. apply Permutation_nil_r in P. exact P.
Qed.

Lemma insertAll_totals ms : forall db,
  session_totals_ok db -> session_totals_ok (insertAll ms db).
Proof.
  induction ms as [|m ms IH]; intros db Ok; [exact Ok|].
  apply IH, insertScan_totals, Ok.
Qed.

Lemma byTimestamp_total : Total byTimestamp.
Proof. intros a b. unfold byTimestamp. lia. Qed.

Lemma byTimestamp_trans : Transitive Database.byTimestamp.
Proof. intros a b c. unfold byTimestamp. lia. Qed.

Lemma map_size_filter_split {A} (P : string * A -> Prop) `{!forall x, Decision (P x)}
    (m : gmap string A) :
  size m = (size (filter P m) + size (filter (fun v => ~ P v) m))%nat.
Proof.
  rewrite <- map_size_disj_union by apply map_disjoint_filter_complement.
  rewrite map_filter_union_complement. reflexivity.
Qed.

Lemma elem_of_scanRows row db :
  row ∈ scanRows db <-> exists id, scans db !! id = Some row.
Proof.
  unfold scanRows. rewrite list_elem_of_fmap. split.
  - intros ([id r] & -> & H). apply elem_of_map_to_list in H. eauto.
  - intros (id & H). exists (id, row). split; [reflexivity|].
    apply elem_of_map_to_list. exact H.
Qed.

End StoreFacts.

(** X14.  As long as nothing is deleted, the session aggregates are
    exact: after any sequence of [insertScan] calls on empty tables
    (refused inserts included), every session row's [scanCount],
    [totalPoints] and [totalSizeBytes] are the number of scan rows of
    that session and the sums of their [pointCount] and [sizeBytes],
    and every scan row belongs to a session that has a row. *)
Theorem session_totals_match_scan_rows (ms : list Models.ScanMetadata) (sid : string) :
  let db := insertAll ms Database.empty in
  match Database.getSession sid db with
  | Some row =>
      Models.ss_scanCount row = Z.of_nat (length (rowsOfSession sid db))
      /\ Models.ss_totalPoints row = sumZ (Models.md_pointCount <$> rowsOfSession sid db)
      /\ Models.ss_totalSizeBytes row = sumZ (Models.md_sizeBytes <$> rowsOfSession sid db)
  | None => rowsOfSession sid db = []
  end.
Proof.
  apply (insertAll_totals ms Database.empty).
  intros s. simpl. rewrite lookup_empty.
  unfold rowsOfSession, Database.scanRows. simpl. rewrite map_to_list_empty. reflexivity.
Qed.

(** X15.  An insert whose [scanId] is already stored is refused: the
    [scans] table and every existing session row stay as they were.
    The session insert that ran first is not undone, so a refused insert
    for a session that had no row leaves an empty session row (count 0,
    no [endTime]) behind. *)
Theorem duplicate_scan_insert_refused
    (db : Database.ScanDatabase) (m old : Models.ScanMetadata) :
  Database.scans db !! Models.md_scanId m = Some old ->
  let '(db', ok) := Database.insertScan m db in
  ok = false
  /\ Database.scans db' = Database.scans db
  /\ (forall sid row, Database.sessions db !! sid = Some row ->
                      Database.sessions db' !! sid = Some row)
  /\ (Database.sessions db !! Models.md_sessionId m = None ->
      Database.sessions db' !! Models.md_sessionId m
      = Some (Models.mkSession (Models.md_sessionId m) (Models.md_deviceId m)
                (Models.md_timestamp m) None 0 0 0)).
Proof.
  intros Dup. unfold Database.insertScan. rewrite Dup. simpl.
  split; [reflexivity|]. split; [reflexivity|]. split.
  - intros sid row L. unfold Database.insertSession.
    destruct (Database.sessions db !! Models.md_sessionId m) as [r|] eqn:E; [exact L|].
    rewrite lookup_insert_ne; [exact L|]. intros <-. congruence.
  - intros L. unfold Database.insertSession. rewrite L. apply lookup_insert_eq.
Qed.

Lemma duplicate_scan_insert_refused_witness :
  let db := (Database.insertScan newerScan Database.empty).1 in
  let m := Models.mkScanMetadata "scan-new" "session-2" "device-1" 300 "p" 1 1 in
  let '(db', ok) := Database.insertScan m db in
  ok = false
  /\ Database.scans db' = Database.scans db
  /\ (forall sid row, Database.sessions db !! sid = Some row ->
                      Database.sessions db' !! sid = Some row)
  /\ (Database.sessions db !! "session-2" = None ->
      Database.sessions db' !! "session-2"
      = Some (Models.mkSession "session-2" "device-1" 300 None 0 0 0)).
Proof.
  apply (duplicate_scan_insert_refused
           (Database.insertScan newerScan Database.empty).1
           (Models.mkScanMetadata "scan-new" "session-2" "device-1" 300 "p" 1 1)
           newerScan).
  vm_compute. reflexivity.
Defined.

(** X16.  [deleteOldScans(cutoff)] removes exactly the scan rows with
    [timestamp < cutoff] and keeps every row with [timestamp >= cutoff],
    so the table shrinks by the number of rows older than the cutoff;
    the [sessions] table is left as it was, so session aggregates keep
    counting the deleted scans.  The value returned is not that number:
    it is [undefined], which is not of type number. *)
Theorem deleteOldScans_removes_exactly_older
    (beforeTimestamp : Z) (db : Database.ScanDatabase) :
  let '(db', result) := Database.deleteOldScans beforeTimestamp db in
  (forall id row,
     Database.scans db' !! id = Some row <->
     Database.scans db !! id = Some row /\ beforeTimestamp <= Models.md_timestamp row)
  /\ size (Database.scans db)
     = Nat.add (size (Database.scans db'))
         (size (filter (fun kv : string * Models.ScanMetadata =>
                          Models.md_timestamp kv.2 < beforeTimestamp)
                  (Database.scans db)))
  /\ Database.sessions db' = Database.sessions db
  /\ result = JS.JUndefined
  /\ JS.is_number result = false.
Proof.
  unfold Database.deleteOldScans. cbn zeta. simpl.
  set (P := fun kv : string * Models.ScanMetadata =>
              Models.md_timestamp kv.2 < beforeTimestamp).
  split.
  - intros id row. rewrite map_lookup_filter_Some. simpl. intuition lia.
  - split; [|auto].
    pose proof (map_size_filter_split P (Database.scans db)) as S.
    unfold P in *. cbv beta in *. lia.
Qed.

(** X17.  [getScansByTimeRange(start, end)] returns every scan row with
    [start <= timestamp <= end], each once, and no other row, in
    non-decreasing timestamp order; both bounds are inclusive. *)
Theorem getScansByTimeRange_sorted_inclusive
    (startTime endTime : Z) (db : Database.ScanDatabase) :
  let result := Database.getScansByTimeRange startTime endTime db in
  StronglySorted Database.byTimestamp result
  /\ result ≡ₚ filter (fun row => startTime <= Models.md_timestamp row
                                  /\ Models.md_timestamp row <= endTime)
                 (Database.scanRows db)
  /\ (forall row, row ∈ result <->
        (exists id, Database.scans db !! id = Some row)
        /\ startTime <= Models.md_timestamp row <= endTime).
Proof.
  cbn zeta. unfold Database.getScansByTimeRange.
  split.
  { pose proof byTimestamp_total as Tot. pose proof byTimestamp_trans as Tra.
    apply StronglySorted_merge_sort; assumption. }
  split; [apply merge_sort_Permutation|].
  intros row. rewrite merge_sort_Permutation, list_elem_of_filter, elem_of_scanRows.
  intuition.
Qed.

(** X18.  The two retention queries disagree at the cutoff: a scan row
    stamped exactly [cutoff] (with [cutoff >= 0]) is listed by
    [getScansByTimeRange(0, cutoff)], whose bound is inclusive, but is
    kept by [deleteOldScans(cutoff)], whose bound is strict. *)
Theorem cutoff_row_listed_but_not_deleted
    (cutoff : Z) (db : Database.ScanDatabase) (id : string) (row : Models.ScanMetadata) :
  0 <= cutoff ->
  Database.scans db !! id = Some row ->
  Models.md_timestamp row = cutoff ->
  row ∈ Database.getScansByTimeRange 0 cutoff db
  /\ Database.scans (Database.deleteOldScans cutoff db).1 !! id = Some row.
Proof.
  intros Hc L T. split.
  - unfold Database.getScansByTimeRange.
    rewrite merge_sort_Permutation, list_elem_of_filter, elem_of_scanRows.
    split; [lia|eauto].
  - unfold Database.deleteOldScans. simpl. apply map_lookup_filter_Some.
    split; [exact L|]. simpl. lia.
Qed.

Lemma cutoff_row_listed_but_not_deleted_witness :
  let db := (Database.insertScan newerScan Database.empty).1 in
  newerScan ∈ Database.getScansByTimeRange 0 200 db
  /\ Database.scans (Database.deleteOldScans 200 db).1 !! "scan-new" = Some newerScan.
Proof.
  apply (cutoff_row_listed_but_not_deleted 200
           (Database.insertScan newerScan Database.empty).1 "scan-new" newerScan).
  - lia.
  - vm_compute. reflexivity.
  - reflexivity.
Defined.

(** X19.  An accepted insert can be read back: the row is stored under
    its [scanId], it is among the scans [getScansBySession] returns for
    its session and among those [getScansByTimeRange] returns for any
    range containing its timestamp, and [getSession] finds its session. *)
Theorem inserted_scan_is_found
    (db : Database.ScanDatabase) (m : Models.ScanMetadata) (startTime endTime : Z) :
  Database.scans db !! Models.md_scanId m = None ->
  startTime <= Models.md_timestamp m <= endTime ->
  let '(db', ok) := Database.insertScan m db in
  ok = true
  /\ Database.scans db' !! Models.md_scanId m = Some m
  /\ m ∈ Database.getScansBySession (Models.md_sessionId m) db'
  /\ m ∈ Database.getScansByTimeRange startTime endTime db'
  /\ is_Some (Database.getSession (Models.md_sessionId m) db').
Proof.
  intros N T. unfold Database.insertScan. rewrite N.
  assert (L : <[Models.md_scanId m := m]> (Database.scans db) !! Models.md_scanId m
              = Some m) by apply lookup_insert_eq.
  split; [reflexivity|]. split; [exact L|].
  split; [|split].
  - unfold Database.getScansBySession.
    rewrite merge_sort_Permutation, list_elem_of_filter, elem_of_scanRows.
    split; [reflexivity|]. exists (Models.md_scanId m). exact L.
  - unfold Database.getScansByTimeRange.
    rewrite merge_sort_Permutation, list_elem_of_filter, elem_of_scanRows.
    split; [lia|]. exists (Models.md_scanId m). exact L.
  - unfold Database.getSession. simpl. rewrite updateSession_lookup_eq.
    destruct (insertSession_lookup (Models.md_sessionId m) (Models.md_deviceId m)
                (Models.md_timestamp m) (Database.sessions db)) as (row & -> & _).
    simpl. eauto.
Qed.

Lemma inserted_scan_is_found_witness :
  let '(db', ok) := Database.insertScan olderScan Database.empty in
  ok = true
  /\ Database.scans db' !! "scan-old" = Some olderScan
  /\ olderScan ∈ Database.getScansBySession "session-1" db'
  /\ olderScan ∈ Database.getScansByTimeRange 0 100 db'
  /\ is_Some (Database.getSession "session-1" db').
Proof.
  apply (inserted_scan_is_found Database.empty olderScan 0 100).
  - apply lookup_empty.
  - simpl. lia.
Defined.

(** * Further properties of the authentication gate *)
Section GateFacts.
Import JS Auth.

Lemma set_params_last (pairs : list (string * string)) (k v : string) :
  forall acc : gmap string string,
  k ∉ pairs.*1 ->
  fold_left (fun params kv => <[kv.1 := kv.2]> params) pairs (<[k := v]> acc) !! k = Some v.
Proof.
  induction pairs as [|[k' v'] rest IH]; intros acc Hk; simpl.
  - apply lookup_insert_eq.
  - rewrite fmap_cons in Hk. apply not_elem_of_cons in Hk as [Hne Hk]. simpl in Hne.
    rewrite insert_insert_ne by congruence. apply IH. exact Hk.
Qed.

Lemma set_params_absent (pairs : list (string * string)) (k : string) :
  forall acc : gmap string string,
  k ∉ pairs.*1 ->
  fold_left (fun params kv => <[kv.1 := kv.2]> params) pairs acc !! k = acc !! k.
Proof.
  induction pairs as [|[k' v'] rest IH]; intros acc Hk; simpl; [reflexivity|].
  rewrite fmap_cons in Hk. apply not_elem_of_cons in Hk as [Hne Hk]. simpl in Hne.
  rewrite IH by exact Hk. apply lookup_insert_ne. congruence.
Qed.

End GateFacts.

(** X20.  When a query parameter is repeated, [parseQueryString] keeps
    the value of its last occurrence, and a parameter that does not
    occur is absent from the map. *)
Theorem query_parameter_last_value_wins
    (before after : list (string * string)) (k v : string) (hs : gmap string string) :
  k ∉ after.*1 ->
  Auth.parseQueryString (Auth.mkRequest (Some (before ++ (k, v) :: after)) hs) !! k = Some v
  /\ (forall k', k' ∉ (before ++ (k, v) :: after).*1 ->
        Auth.parseQueryString (Auth.mkRequest (Some (before ++ (k, v) :: after)) hs) !! k'
        = None).
Proof.
  intros Hk. unfold Auth.parseQueryString. simpl. split.
  - rewrite fold_left_app. simpl. apply set_params_last. exact Hk.
  - intros k' Hk'. rewrite set_params_absent by exact Hk'. apply lookup_empty.
Qed.

Lemma query_parameter_last_value_wins_witness :
  Auth.parseQueryString
    (Auth.mkRequest (Some ([("apiKey", "first")] ++ ("apiKey", "second") :: [("deviceId", "d")]))
       ∅) !! "apiKey" = Some "second"
  /\ (forall k', k' ∉ ([("apiKey", "first")] ++ ("apiKey", "second") :: [("deviceId", "d")]).*1 ->
        Auth.parseQueryString
          (Auth.mkRequest
             (Some ([("apiKey", "first")] ++ ("apiKey", "second") :: [("deviceId", "d")])) ∅)
        !! k' = None).
Proof.
  apply (query_parameter_last_value_wins [("apiKey", "first")] [("deviceId", "d")]
           "apiKey" "second" ∅).
  simpl. rewrite elem_of_cons, elem_of_nil. intros [H|[]]. discriminate.
Defined.

(** X21.  With an empty configured secret no handshake is accepted and
    no device identifier is reported: a request whose resolved key is
    absent or empty is refused with [Missing API key], and a request
    whose resolved key is not empty is refused with [Invalid API key]. *)
Theorem empty_secret_rejects_every_request (request : Auth.IncomingMessage) :
  let result := Auth.authenticateConnection "" request in
  Auth.authenticated result = false
  /\ Auth.deviceId result = None
  /\ (Auth.error result = Some "Missing API key"
      \/ Auth.error result = Some "Invalid API key")
  /\ Auth.error result
     = (if JS.truthy_opt (Auth.apiKeyOf request) then Some "Invalid API key"
        else Some "Missing API key")
  /\ (JS.truthy_opt (Auth.apiKeyOf request) = false <->
      Auth.apiKeyOf request = None \/ Auth.apiKeyOf request = Some "").
Proof.
  cbn zeta. unfold Auth.authenticateConnection.
  destruct (Auth.apiKeyOf request) as [key|] eqn:K; simpl.
  - unfold JS.truthy_str. destruct (String.eqb_spec key "") as [->|Hne]; simpl.
    + repeat split; auto.
    + case_bool_decide as E; simpl; [injection E as ->; contradiction|].
      repeat split; auto; try discriminate.
      intros [H|H]; [discriminate|]. injection H as ->. contradiction.
  - repeat split; auto.
Qed.

(** * Further properties of the socket server and of shutdown *)
Section LifecycleFacts.
Import Models Server.

Lemma submit_queue scan p p' ok :
  Processor.submit scan p = Some (p', ok) ->
  Buffer.queue (Processor.buffer p')
  = (if ok then Buffer.queue (Processor.buffer p) ++ [scan]
     else Buffer.queue (Processor.buffer p))
  /\ (ok = true -> Processor.validateScan scan = Some true).
Proof.
  unfold Processor.submit.
  destruct (Processor.validateScan scan) as [[|]|]; [|intros [= <- <-]|discriminate].
  - pose proof (enqueue_cases scan (Processor.buffer p)) as C. simpl.
    destruct (Buffer.enqueue scan (Processor.buffer p)) as [[b e] sig]. cbn zeta in C.
    intros [= <- <-].
    destruct C as [(_ & -> & Q & _)|[(_ & _ & -> & Q & _)|(_ & _ & -> & Q & _)]];
      simpl; auto.
  - split; [reflexivity|discriminate].
Qed.

(** Sending [message] to each client of a list: a socket that is open
    receives one copy per client of the list that owns it. *)
Lemma send_all_open w message (cs : list Client) : forall srv sock,
  sockets srv !! w = Some sock -> readyState sock = OPEN ->
  sockets (fold_left (fun srv c => sendMessage (ws c) message srv) cs srv) !! w
  = Some (mkSocket OPEN
            (sent sock ++ replicate (length (filter (fun c => ws c = w) cs)) message)).
Proof.
  induction cs as [|c cs IH]; intros srv sock L R; simpl.
  - rewrite app_nil_r, L. destruct sock as [rs st]. simpl in R. rewrite R. reflexivity.
  - destruct (decide (ws c = w)) as [E|E].
    + rewrite filter_cons_True by exact E. simpl.
      rewrite (IH _ (mkSocket OPEN (sent sock ++ [message])));
        [simpl; rewrite <- app_assoc; reflexivity| |reflexivity].
      rewrite E. apply sendMessage_open; assumption.
    + rewrite filter_cons_False by exact E.
      apply IH; [|exact R]. rewrite sendMessage_other by exact E. exact L.
Qed.

(** A socket that is not open is left alone by any number of sends. *)
Lemma send_all_not_open w message (cs : list Client) : forall srv sock,
  sockets srv !! w = Some sock -> readyState sock <> OPEN ->
  sockets (fold_left (fun srv c => sendMessage (ws c) message srv) cs srv) !! w = Some sock.
Proof.
  induction cs as [|c cs IH]; intros srv sock L R; simpl; [exact L|].
  apply IH; [|exact R].
  destruct (decide (ws c = w)) as [E|E].
  - unfold sendMessage. rewrite E, L. destruct (readyState sock); try exact L.
    contradiction.
  - rewrite sendMessage_other by exact E. exact L.
Qed.

Lemma processorStep_after_shutdown pf p e :
  Processor.isShuttingDown p = true ->
  let p' := processorStep pf p e in
  Processor.isShuttingDown p' = true
  /\ Processor.db p' = Processor.db p
  /\ Processor.fileWriter p' = Processor.fileWriter p
  /\ Processor.processed (Processor.stats p') = Processor.processed (Processor.stats p).
Proof.
  intros S. destruct e as [scan|]; simpl.
  - destruct (Processor.submit scan p) as [[p' ok]|] eqn:E; [|auto].
    destruct (submit_frame _ _ _ _ E) as (F & D & I & _).
    destruct (submit_counts _ _ _ _ E) as (_ & _ & P & _).
    rewrite I. auto.
  - rewrite processNext_shutting_down by exact S. auto.
Qed.

End LifecycleFacts.

(** X22.  [handleMessage] appends the frame's scan (after its device
    identifier was back-filled) to the queue exactly when the frame
    decodes, the scan carries the connection's device identifier,
    validation returns true and both limits of the buffer leave room;
    in every other case (undecodable frame, foreign device, invalid scan
    or validation that throws, full queue, memory limit reached) the
    queue is unchanged.  The registry, the blob store and the metadata
    store are never touched by a message. *)
Theorem handleMessage_enqueues_only_own_valid_scans
    (srv : Server.LiDARWebSocketServer) (ref : nat) (client : Server.Client)
    (receiveTime : Z) (decoded : option Models.LiDARScan) :
  Server.objects srv !! ref = Some client ->
  let srv' := Server.handleMessage ref receiveTime decoded srv in
  let queue_of s := Buffer.queue (Processor.buffer (Server.processor s)) in
  let b := Processor.buffer (Server.processor srv) in
  Server.clients srv' = Server.clients srv
  /\ Processor.fileWriter (Server.processor srv') = Processor.fileWriter (Server.processor srv)
  /\ Processor.db (Server.processor srv') = Processor.db (Server.processor srv)
  /\ queue_of srv'
     = match decoded with
       | Some scan =>
           let scan' := Server.backfillDeviceId client scan in
           if String.eqb (Models.deviceId scan') (Server.deviceId client)
              && match Processor.validateScan scan' with Some true => true | _ => false end
              && (Buffer.currentMemoryBytes b + Buffer.estimateScanSize scan'
                  <=? Buffer.maxMemoryBytes b)
              && (Buffer.size b <? Buffer.maxQueueSize b)
           then queue_of srv ++ [scan']
           else queue_of srv
       | None => queue_of srv
       end
  /\ (Buffer.maxQueueSize b <= Buffer.size b -> queue_of srv' = queue_of srv).
Proof.
  intros Hobj. cbn zeta.
  destruct (handleMessage_outcome srv ref client receiveTime decoded Hobj)
    as (reply & R & _ & C & F & D & _).
  split; [exact C|]. split; [exact F|]. split; [exact D|].
  assert (Buffer.queue (Processor.buffer
                          (Server.processor (Server.handleMessage ref receiveTime decoded srv)))
          = match decoded with
            | Some scan =>
                if String.eqb (Models.deviceId (Server.backfillDeviceId client scan))
                     (Server.deviceId client)
                   && match Processor.validateScan (Server.backfillDeviceId client scan) with
                      | Some true => true
                      | _ => false
                      end
                   && (Buffer.currentMemoryBytes (Processor.buffer (Server.processor srv))
                       + Buffer.estimateScanSize (Server.backfillDeviceId client scan)
                       <=? Buffer.maxMemoryBytes (Processor.buffer (Server.processor srv)))
                   && (Buffer.size (Processor.buffer (Server.processor srv))
                       <? Buffer.maxQueueSize (Processor.buffer (Server.processor srv)))
                then Buffer.queue (Processor.buffer (Server.processor srv))
                     ++ [Server.backfillDeviceId client scan]
                else Buffer.queue (Processor.buffer (Server.processor srv))
            | None => Buffer.queue (Processor.buffer (Server.processor srv))
            end) as Q.
  { destruct decoded as [scan|]; [|apply R]. cbn zeta in R.
    destruct (String.eqb (Models.deviceId (Server.backfillDeviceId client scan))
                (Server.deviceId client)); [|apply R]. cbn [andb].
    destruct (Processor.validateScan (Server.backfillDeviceId client scan)) as [[|]|];
      [|apply R|apply R].
    destruct R as (_ & ->). rewrite enqueue_accepts. reflexivity. }
  split; [exact Q|]. intros Full. rewrite Q.
  destruct decoded as [scan|]; [|reflexivity].
  assert ((Buffer.size (Processor.buffer (Server.processor srv))
           <? Buffer.maxQueueSize (Processor.buffer (Server.processor srv))) = false) as ->
    by (apply Z.ltb_ge; exact Full).
  rewrite andb_false_r. reflexivity.
Qed.

Lemma handleMessage_enqueues_only_own_valid_scans_witness :
  let srv' := Server.handleMessage 0 99 (Some (sampleScan "scan-b" 2000 10)) fullServer in
  let queue_of s := Buffer.queue (Processor.buffer (Server.processor s)) in
  Buffer.maxQueueSize (Processor.buffer (Server.processor fullServer))
    <= Buffer.size (Processor.buffer (Server.processor fullServer))
  /\ queue_of fullServer = [sampleScan "scan-a" 1000 50]
  /\ queue_of srv' = queue_of fullServer.
Proof.
  split; [vm_compute; discriminate|]. split; [reflexivity|].
  apply (handleMessage_enqueues_only_own_valid_scans fullServer 0
           (Server.mkClient 1 "device-1" 10 1 20) 99 (Some (sampleScan "scan-b" 2000 10))).
  - reflexivity.
  - vm_compute. discriminate.
Defined.

(** X23.  [broadcast] appends the message to the socket of every
    registered client whose socket is open, once per registry entry
    that owns the socket, after everything sent before; a socket that is
    not open receives nothing. *)
Theorem broadcast_reaches_open_registered_sockets
    (srv : Server.LiDARWebSocketServer) (message : Models.WSMessage)
    (c : Server.Client) (sock : Server.Socket) :
  c ∈ Server.registered srv ->
  Server.sockets srv !! Server.ws c = Some sock ->
  let copies := length (filter (fun c' => Server.ws c' = Server.ws c)
                          (Server.registered srv)) in
  (1 <= copies)%nat
  /\ (Server.readyState sock = Server.OPEN ->
      Server.sockets (Server.broadcast message srv) !! Server.ws c
      = Some (Server.mkSocket Server.OPEN (Server.sent sock ++ replicate copies message)))
  /\ (Server.readyState sock <> Server.OPEN ->
      Server.sockets (Server.broadcast message srv) !! Server.ws c = Some sock).
Proof.
  intros Hc L copies. split; [|split].
  - unfold copies.
    assert (In : c ∈ filter (fun c' => Server.ws c' = Server.ws c) (Server.registered srv))
      by (apply list_elem_of_filter; auto).
    destruct (filter _ _); [apply elem_of_nil in In; contradiction|simpl; lia].
  - intros R. unfold Server.broadcast. apply send_all_open; assumption.
  - intros R. unfold Server.broadcast. apply send_all_not_open; assumption.
Qed.

Lemma broadcast_reaches_open_registered_sockets_witness :
  let c := Server.mkClient 1 "device-1" 10 0 0 in
  let copies := length (filter (fun c' => Server.ws c' = Server.ws c)
                          (Server.registered connectedServer)) in
  (1 <= copies)%nat
  /\ (Server.readyState (Server.mkSocket Server.OPEN [Models.Welcome "device-1" 10])
      = Server.OPEN ->
      Server.sockets (Server.broadcast (Models.Error "maintenance") connectedServer) !! 1%nat
      = Some (Server.mkSocket Server.OPEN
                ([Models.Welcome "device-1" 10]
                   ++ replicate copies (Models.Error "maintenance"))))
  /\ (Server.readyState (Server.mkSocket Server.OPEN [Models.Welcome "device-1" 10])
      <> Server.OPEN ->
      Server.sockets (Server.broadcast (Models.Error "maintenance") connectedServer) !! 1%nat
      = Some (Server.mkSocket Server.OPEN [Models.Welcome "device-1" 10])).
Proof.
  apply (broadcast_reaches_open_registered_sockets connectedServer
           (Models.Error "maintenance") (Server.mkClient 1 "device-1" 10 0 0)
           (Server.mkSocket Server.OPEN [Models.Welcome "device-1" 10])).
  - apply elem_of_registered. exists "device-1", 0%nat. split; reflexivity.
  - reflexivity.
Defined.

(** X24.  For a device that is not registered, connecting and then
    closing that connection puts the registry back as it was: the
    connection is listed under its device in between, and the close
    removes that entry and no other; the processor, with whatever the
    connection queued, is not affected by the close. *)
Theorem connect_then_close_restores_registry
    (srv : Server.LiDARWebSocketServer) (w : nat) (d : string) (t : Z) :
  Server.clients srv !! d = None ->
  let '(srv1, ref) := Server.handleConnection w d t srv in
  Server.clients srv1 !! d = Some ref
  /\ Server.objects srv1 !! ref = Some (Server.mkClient w d t 0 0)
  /\ Server.clients (Server.socketClosed ref srv1) = Server.clients srv
  /\ Server.processor (Server.socketClosed ref srv1) = Server.processor srv1.
Proof.
  intros N. unfold Server.handleConnection.
  set (c := Server.mkClient w d t 0 0).
  set (pre := Server.mkServer (Server.processor srv)
                (<[d := length (Server.objects srv)]> (Server.clients srv))
                (Server.objects srv ++ [c]) (Server.sockets srv)).
  destruct (sendMessage_frame w (Models.Welcome d t) pre) as (P & C & O).
  assert (L : Server.objects (Server.sendMessage w (Models.Welcome d t) pre)
              !! length (Server.objects srv) = Some c).
  { rewrite O. unfold pre. simpl. rewrite lookup_app_r by lia.
    rewrite Nat.sub_diag. reflexivity. }
  split; [rewrite C; apply lookup_insert_eq|]. split; [exact L|].
  unfold Server.socketClosed. rewrite L. unfold Server.handleDisconnect.
  cbn [Server.objects Server.with_sockets]. rewrite L. simpl.
  split; [|reflexivity].
  rewrite C. unfold pre. simpl. rewrite delete_insert_eq. apply delete_id. exact N.
Qed.

Lemma connect_then_close_restores_registry_witness :
  let '(srv1, ref) := Server.handleConnection 1 "device-1" 10 idleServer in
  Server.clients srv1 !! "device-1" = Some ref
  /\ Server.objects srv1 !! ref = Some (Server.mkClient 1 "device-1" 10 0 0)
  /\ Server.clients (Server.socketClosed ref srv1) = Server.clients idleServer
  /\ Server.processor (Server.socketClosed ref srv1) = Server.processor srv1.
Proof.
  apply (connect_then_close_restores_registry idleServer 1 "device-1" 10).
  apply lookup_empty.
Defined.

(** X25.  Shutdown is final for storage but not for admission: once
    [shutdown] has returned, no sequence of submitted scans and timer
    firings writes a blob, inserts a row or counts a scan as processed,
    although [submit] still validates scans and takes them into the
    queue as before. *)
Theorem nothing_is_stored_after_shutdown
    (pf : FileStore.Platform) (p p' : Processor.LiDARProcessor)
    (es : list ProcessorEvent) (scan : Models.LiDARScan) :
  Processor.shutdown pf p = Some p' ->
  let q := processorRun pf es p' in
  Processor.db q = Processor.db p'
  /\ Processor.fileWriter q = Processor.fileWriter p'
  /\ Processor.processed (Processor.stats q) = Processor.processed (Processor.stats p')
  /\ Processor.processNext pf q = q
  /\ match Processor.validateScan scan with
     | Some true =>
         exists q', Processor.submit scan q
                    = Some (q', (Buffer.enqueue scan (Processor.buffer q)).1.2)
     | _ => True
     end.
Proof.
  intros Sh q.
  assert (S' : Processor.isShuttingDown p' = true).
  { unfold Processor.shutdown in Sh.
    set (p0 := Processor.stop _) in Sh.
    assert (S0 : Processor.isShuttingDown p0 = true).
    { unfold p0, Processor.stop. simpl.
      destruct (Processor.processingInterval p); reflexivity. }
    destruct (Buffer.size (Processor.buffer p0) >? 0).
    - destruct (drainRounds_shutting_down pf _ p0 S0 (Nat.le_refl _))
        as (p1 & D & _ & _ & _ & _ & I & _).
      rewrite D in Sh. injection Sh as <-. exact I.
    - injection Sh as <-. exact S0. }
  assert (Inv : Processor.isShuttingDown q = true
                /\ Processor.db q = Processor.db p'
                /\ Processor.fileWriter q = Processor.fileWriter p'
                /\ Processor.processed (Processor.stats q)
                   = Processor.processed (Processor.stats p')).
  { unfold q. clear q Sh. revert p' S'.
    induction es as [|e es IH]; intros p' S'; [auto|].
    destruct (processorStep_after_shutdown pf p' e S') as (S1 & D1 & F1 & P1).
    destruct (IH _ S1) as (S2 & D2 & F2 & P2).
    change (processorRun pf (e :: es) p') with (processorRun pf es (processorStep pf p' e)).
    repeat split; congruence. }
  destruct Inv as (Sq & Dq & Fq & Pq).
  split; [exact Dq|]. split; [exact Fq|]. split; [exact Pq|].
  split; [apply processNext_shutting_down, Sq|].
  destruct (Processor.validateScan scan) as [[|]|] eqn:V; [|exact I|exact I].
  unfold Processor.submit. rewrite V.
  destruct (Buffer.enqueue scan _) as [[b ok] sig]. simpl. eauto.
Qed.

Lemma nothing_is_stored_after_shutdown_witness :
  exists p',
    Processor.shutdown healthyPlatform twoQueued = Some p'
    /\ let q := processorRun healthyPlatform
                  [EvSubmit (sampleScan "scan-c" 3000 5); EvTick] p' in
       Processor.db q = Processor.db p'
       /\ Processor.fileWriter q = Processor.fileWriter p'
       /\ Processor.processed (Processor.stats q) = Processor.processed (Processor.stats p')
       /\ Processor.processNext healthyPlatform q = q
       /\ match Processor.validateScan (sampleScan "scan-d" 4000 5) with
          | Some true =>
              exists q', Processor.submit (sampleScan "scan-d" 4000 5) q
                         = Some (q', (Buffer.enqueue (sampleScan "scan-d" 4000 5)
                                        (Processor.buffer q)).1.2)
          | _ => True
          end.
Proof.
  destruct (Processor.shutdown healthyPlatform twoQueued) as [p'|] eqn:Sh;
    [|vm_compute in Sh; discriminate].
  exists p'. split; [reflexivity|].
  exact (nothing_is_stored_after_shutdown healthyPlatform twoQueued p'
           [EvSubmit (sampleScan "scan-c" 3000 5); EvTick] (sampleScan "scan-d" 4000 5) Sh).
Defined.

(** * Invariants of whole runs *)
Section RunFacts.
Import Models Server.

Lemma validateScan_true_inv scan :
  Processor.validateScan scan = Some true ->
  scanId scan <> "" /\ sessionId scan <> "" /\ Models.deviceId scan <> ""
  /\ 0 < timestamp scan /\ (1 <= length (points scan))%nat.
Proof.
  unfold Processor.validateScan, JS.truthy_str.
  destruct (String.eqb_spec (scanId scan) ""); simpl; [discriminate|].
  destruct (String.eqb_spec (sessionId scan) ""); simpl; [discriminate|].
  destruct (String.eqb_spec (Models.deviceId scan) ""); simpl; [discriminate|].
  destruct (Z.eqb_spec (timestamp scan) 0); simpl; [discriminate|].
  destruct (Z.leb_spec (timestamp scan) 0); simpl; [discriminate|].
  destruct (points scan); simpl; [discriminate|]. intros _. repeat split; auto; lia.
Qed.

(** On success the inserted row is the metadata of the scan. *)
Lemma processScan_row pf scan p id row :
  Database.scans (Processor.db (Processor.processScan pf scan p)) !! id = Some row ->
  Database.scans (Processor.db p) !! id = Some row
  \/ (id = scanId scan /\ md_scanId row = scanId scan
      /\ md_sessionId row = sessionId scan /\ md_deviceId row = Models.deviceId scan
      /\ md_timestamp row = timestamp scan
      /\ md_pointCount row = Z.of_nat (length (points scan))
      /\ 0 <= md_sizeBytes row).
Proof.
  unfold Processor.processScan.
  destruct (FileStore.writeScan pf scan (Processor.fileWriter p))
    as [fw [[path sizeBytes]|]] eqn:W; [|auto].
  pose proof (writeScan_cases pf scan (Processor.fileWriter p)) as C.
  rewrite W in C. cbn zeta in C. destruct C as (_ & _ & -> & _).
  unfold Database.insertScan. cbn [md_scanId Processor.metadataOf].
  destruct (Database.scans (Processor.db p) !! scanId scan) eqn:L; simpl; [auto|].
  destruct (decide (scanId scan = id)) as [<-|Hne].
  - rewrite lookup_insert_eq. intros [= <-]. right. simpl. repeat split. lia.
  - rewrite lookup_insert_ne by exact Hne. auto.
Qed.

Lemma processorStep_valid pf p e :
  queue_valid p /\ rows_valid p ->
  queue_valid (processorStep pf p e) /\ rows_valid (processorStep pf p e).
Proof.
  unfold queue_valid, rows_valid. intros [Q R]. destruct e as [scan|]; simpl.
  - destruct (Processor.submit scan p) as [[p' ok]|] eqn:S; [|auto].
    destruct (submit_queue _ _ _ _ S) as (Hq & V).
    destruct (submit_frame _ _ _ _ S) as (_ & -> & _).
    split; [|exact R]. rewrite Hq. destruct ok; [|exact Q].
    apply Forall_app. split; [exact Q|]. constructor; [auto|constructor].
  - destruct (processNext_cases pf p) as [->|(scan & rest & Hq & Hq' & E)]; [auto|].
    rewrite Hq in Q. apply Forall_cons in Q as [V Qrest].
    split; [rewrite Hq'; exact Qrest|].
    rewrite E. intros id row L. apply processScan_row in L as [L|L].
    + apply R. exact L.
    + destruct (validateScan_true_inv _ V) as (I1 & I2 & I3 & I4 & I5).
      destruct L as (-> & -> & -> & -> & -> & -> & Sz). repeat split; auto; lia.
Qed.

Lemma handleConnection_registry w d t srv :
  d <> "" -> registry_ok srv /\ registry_named srv ->
  registry_ok (handleConnection w d t srv).1
  /\ registry_named (handleConnection w d t srv).1.
Proof.
  intros Hd [Ok Nm]. unfold handleConnection. simpl.
  match goal with |- context [sendMessage w ?m ?s] =>
    destruct (sendMessage_frame w m s) as (_ & C & O)
  end.
  unfold registry_ok, registry_named. rewrite C, O. simpl. split.
  - intros d' ref L. destruct (decide (d = d')) as [<-|Hne].
    + rewrite lookup_insert_eq in L. injection L as <-.
      exists (mkClient w d t 0 0). split; [|reflexivity].
      rewrite lookup_app_r by lia. rewrite Nat.sub_diag. reflexivity.
    + rewrite lookup_insert_ne in L by exact Hne.
      destruct (Ok d' ref L) as (c & Hc & Hdev). exists c. split; [|exact Hdev].
      apply lookup_app_l_Some. exact Hc.
  - intros d' ref L. destruct (decide (d = d')) as [<-|Hne]; [exact Hd|].
    rewrite lookup_insert_ne in L by exact Hne. eapply Nm. exact L.
Qed.

Lemma handleMessage_registry ref t decoded srv :
  registry_ok srv /\ registry_named srv ->
  registry_ok (handleMessage ref t decoded srv)
  /\ registry_named (handleMessage ref t decoded srv).
Proof.
  intros [Ok Nm]. unfold handleMessage.
  destruct (objects srv !! ref) as [client|] eqn:Hobj; [|auto].
  assert (Err : forall e, registry_ok (sendError (ws client) e srv)
                          /\ registry_named (sendError (ws client) e srv)).
  { intros e. unfold sendError, registry_ok, registry_named.
    destruct (sendMessage_frame (ws client) (Error e) srv) as (_ & -> & ->). auto. }
  destruct decoded as [scan|]; [|apply Err]. cbn zeta.
  destruct (negb _); [apply Err|].
  destruct (Processor.submit _ _) as [[p accepted]|]; [|apply Err].
  unfold registry_ok, registry_named.
  match goal with |- context [sendMessage ?w ?m ?s] =>
    destruct (sendMessage_frame w m s) as (_ & -> & ->)
  end. simpl. split; [|exact Nm].
  intros d r L. destruct (Ok d r L) as (c & Hc & Hdev).
  destruct (decide (ref = r)) as [<-|Hne].
  - exists (touch t client). split.
    + apply list_lookup_insert_eq. apply lookup_lt_Some in Hobj. exact Hobj.
    + rewrite Hobj in Hc. injection Hc as <-. exact Hdev.
  - exists c. split; [|exact Hdev]. rewrite list_lookup_insert_ne by exact Hne. exact Hc.
Qed.

Lemma socketClosed_registry ref srv :
  registry_ok srv /\ registry_named srv ->
  registry_ok (socketClosed ref srv) /\ registry_named (socketClosed ref srv).
Proof.
  intros [Ok Nm]. unfold socketClosed.
  destruct (objects srv !! ref) as [client|] eqn:Hobj; [|auto].
  unfold handleDisconnect. cbn [objects with_sockets]. rewrite Hobj.
  unfold registry_ok, registry_named. simpl. split.
  - intros d r L. apply lookup_delete_Some in L as [_ L]. apply Ok. exact L.
  - intros d r L. apply lookup_delete_Some in L as [_ L]. eapply Nm. exact L.
Qed.

Lemma serverStep_registry API_KEY pf srv ev :
  registry_ok srv /\ registry_named srv ->
  registry_ok (serverStep API_KEY pf srv ev)
  /\ registry_named (serverStep API_KEY pf srv ev).
Proof.
  intros H. destruct ev as [request w now|ref t decoded|ref|message|]; simpl.
  - unfold verifyClient, Auth.authenticateConnection.
    destruct (JS.truthy_opt (Auth.apiKeyOf request)); simpl; [|exact H].
    case_bool_decide; simpl; [|exact H].
    destruct (Auth.deviceIdOf request) as [d|] eqn:D; simpl; [|exact H].
    unfold JS.truthy_str. destruct (String.eqb_spec d "") as [->|Hd]; simpl; [exact H|].
    apply handleConnection_registry; assumption.
  - apply handleMessage_registry, H.
  - apply socketClosed_registry, H.
  - unfold registry_ok, registry_named.
    destruct (broadcast_frame message srv) as (-> & ->). exact H.
  - exact H.
Qed.

End RunFacts.

(** X26.  In every state a server reaches from an empty registry by
    upgrade requests, frames, socket closes, broadcasts and timer
    firings, each registry entry is keyed by a non-empty device
    identifier and names an existing connection record that carries the
    same identifier; an upgrade is only ever accepted together with a
    device identifier. *)
Theorem registry_stays_well_formed
    (API_KEY : string) (pf : FileStore.Platform) (evs : list ServerEvent)
    (p : Processor.LiDARProcessor) (socks : gmap nat Server.Socket) :
  let srv := serverRun API_KEY pf evs (Server.mkServer p ∅ [] socks) in
  (forall d ref, Server.clients srv !! d = Some ref ->
     d <> ""
     /\ exists c, Server.objects srv !! ref = Some c /\ Server.deviceId c = d)
  /\ (forall request, Server.verifyClient API_KEY request <> Server.Accept None).
Proof.
  cbn zeta. split.
  - assert (H : registry_ok (serverRun API_KEY pf evs (Server.mkServer p ∅ [] socks))
                /\ registry_named (serverRun API_KEY pf evs (Server.mkServer p ∅ [] socks))).
    { assert (H0 : registry_ok (Server.mkServer p ∅ [] socks)
                   /\ registry_named (Server.mkServer p ∅ [] socks)).
      { split; intros d ref L; simpl in L; rewrite lookup_empty in L; discriminate. }
      revert H0. generalize (Server.mkServer p ∅ [] socks).
      induction evs as [|ev evs IH]; intros srv H0; [exact H0|].
      apply IH, serverStep_registry, H0. }
    destruct H as [Ok Nm]. intros d ref L. split; [eapply Nm; exact L|apply Ok; exact L].
  - intros request. unfold Server.verifyClient, Auth.authenticateConnection.
    destruct (JS.truthy_opt (Auth.apiKeyOf request)); simpl; [|discriminate].
    case_bool_decide; simpl; [|discriminate].
    destruct (Auth.deviceIdOf request) as [d|]; simpl; [|discriminate].
    destruct (JS.truthy_str d); simpl; discriminate.
Qed.

(** X27.  After any run of submitted scans and timer firings on a newly
    built processor, every queued scan has passed validation and every
    metadata row is keyed by its own [scanId] and describes a validated
    scan: non-empty scan, session and device identifiers, a positive
    timestamp, at least one point and a non-negative size. *)
Theorem stored_rows_describe_valid_scans
    (pf : FileStore.Platform) (es : list ProcessorEvent)
    (maxQueueSize maxMemoryMB : Z) (baseDir : string) (now : Z) :
  let p := processorRun pf es (bootProcessor maxQueueSize maxMemoryMB baseDir now) in
  Forall (fun scan => Processor.validateScan scan = Some true)
    (Buffer.queue (Processor.buffer p))
  /\ (forall id row,
        Database.scans (Processor.db p) !! id = Some row ->
        Models.md_scanId row = id /\ id <> ""
        /\ Models.md_sessionId row <> "" /\ Models.md_deviceId row <> ""
        /\ 0 < Models.md_timestamp row /\ 1 <= Models.md_pointCount row
        /\ 0 <= Models.md_sizeBytes row).
Proof.
  apply (processorRun_invariant (fun p => queue_valid p /\ rows_valid p) pf
           (processorStep_valid pf)).
  split; [constructor|].
  intros id row L. simpl in L. rewrite lookup_empty in L. discriminate.
Qed.

(** X28.  The scan identifier is joined into the blob path as it
    arrives, and validation does not look inside it: a scan that passes
    validation and whose identifier climbs out of the date directory is
    written outside the storage root, and the path recorded for it
    points outside the root as well. *)
Theorem scan_identifier_escapes_storage_root :
  Processor.validateScan escapingScan = Some true
  /\ let '(fw', result) := FileStore.writeScan healthyPlatform escapingScan emptyWriter in
     FileStore.baseDir fw' = "data/scans"%string
     /\ fst <$> result = Some "../../escaped.msgpack"%string
     /\ FileStore.files fw' !! "escaped.msgpack"%string
        = Some (FileStore.encode healthyPlatform escapingScan)
     /\ size (FileStore.files fw') = 1%nat.
Proof. vm_compute. repeat split. Qed.
